(** * The KBFS key manager ([libkbfs/key_manager.go]), embedded in Rocq

    The development follows [KeyManagerStandard]: the key resolver
    [getTLFCryptKey] with its helpers, the public entry points built on it,
    and the rekey state machine [Rekey].

    The key manager talks to collaborators that live outside
    [key_manager.go] (identity service, crypto, key-halves server, metadata
    object).  They are rendered as interfaces: a record of oracles for the
    services, and type classes for the metadata object, as the Go code has
    interfaces.  Every call to a collaborator is recorded in a log of
    events, so that statements about what was (not) consulted and in which
    order can be made. *)

From stdpp Require Import gmap strings list fin_maps.
From Stdlib Require Import ZArith.

Local Open Scope Z_scope.

(** ** Data *)

Definition UID := string.
Definition KID := string.
Definition NormalizedUsername := string.

(** [type KeyGen int]; generations stay far below the range of [int], so
    the integer is unbounded here. *)
Definition KeyGen := Z.

(** Modelled from the spec: the two generation constants are declared
    outside [key_manager.go]; only [PublicKeyGen < FirstValidKeyGen] is
    used below. *)
Definition PublicKeyGen : KeyGen := -1.
Definition FirstValidKeyGen : KeyGen := 1.

(** [tlf.ID]: an opaque identifier carrying an [IsPublic] bit. *)
Record tlf_ID := mk_tlf_ID { tlf_bytes : string; IsPublic : bool }.

Global Instance tlf_ID_eq_dec : EqDecision tlf_ID.
Proof. solve_decision. Defined.

Global Instance tlf_ID_countable : Countable tlf_ID :=
  inj_countable' (fun i => (tlf_bytes i, IsPublic i))
                 (fun p => mk_tlf_ID p.1 p.2)
                 (fun i => match i with mk_tlf_ID _ _ => eq_refl end).

(** A device's crypt public key is identified by its KID. *)
Definition CryptPublicKey := KID.
Definition key_KID (k : CryptPublicKey) : KID := k.

(** Keys and key halves are 32-byte arrays, read here as numbers below
    [2^256]. *)
Definition TLFCryptKey := N.
Definition TLFCryptKeyClientHalf := N.
Definition TLFCryptKeyServerHalf := N.
Definition TLFCryptKeyServerHalfID := string.
Definition EncryptedTLFCryptKeyClientHalf := N.
Definition TLFEphemeralPublicKey := N.
Definition TLFEphemeralPrivateKey := N.
Definition TLFPublicKey := N.
Definition TLFPrivateKey := N.
Definition PrivateMetadata := string.

(** Modelled from the spec: the fixed sentinel folder key of public
    folders ([kbfscrypto.PublicTLFCryptKey], every byte 0x18). *)
Definition PublicTLFCryptKey : TLFCryptKey :=
  Eval cbv in fold_left (fun a _ => (256 * a + 24)%N) (seq 0 32) 0%N.

(** Modelled from the spec: the folder key is the XOR of the two halves
    ([kbfscrypto.UnmaskTLFCryptKey]). *)
Definition UnmaskTLFCryptKey (serverHalf : TLFCryptKeyServerHalf)
    (clientHalf : TLFCryptKeyClientHalf) : TLFCryptKey :=
  N.lxor serverHalf clientHalf.

Record EncryptedTLFCryptKeyClientAndEphemeral := {
  PubKey : CryptPublicKey;
  ClientHalf : EncryptedTLFCryptKeyClientHalf;
  EPubKey : TLFEphemeralPublicKey
}.

Record TLFCryptKeyInfo := {
  info_ClientHalf : EncryptedTLFCryptKeyClientHalf;
  info_ServerHalfID : TLFCryptKeyServerHalfID;
  EPubKeyIndex : Z
}.

(** [UserDevicePublicKeys] is [map[UID]map[CryptPublicKey]bool] and only
    ever stores [true]; [UserDeviceKeyInfoMap] is
    [map[UID]map[CryptPublicKey]TLFCryptKeyInfo]. *)
Abbreviation UserDevicePublicKeys := (gmap UID (gset CryptPublicKey)).
Abbreviation DeviceKeyInfoMap := (gmap CryptPublicKey TLFCryptKeyInfo).
Abbreviation UserDeviceKeyInfoMap := (gmap UID (gmap CryptPublicKey TLFCryptKeyInfo)).
Abbreviation ServerHalves := (gmap TLFCryptKeyServerHalfID TLFCryptKeyServerHalf).

(** Modelled from the spec: the folder handle, a pair of resolved member
    sets, the assertions still unresolved, and optional conflict
    information ([TlfHandle] is declared outside [key_manager.go]). *)
Record TlfHandle := {
  resolvedWriters : list UID;
  resolvedReaders : list UID;
  unresolved : list string;
  ConflictInfo : option string;
  canonicalPath : string
}.

Definition ResolvedWriters (h : TlfHandle) : list UID := resolvedWriters h.
Definition ResolvedReaders (h : TlfHandle) : list UID := resolvedReaders h.
Definition GetCanonicalPath (h : TlfHandle) : string := canonicalPath h.
Definition IsWriter (h : TlfHandle) (u : UID) : bool :=
  bool_decide (u ∈ resolvedWriters h).
Definition IsReader (h : TlfHandle) (u : UID) : bool :=
  IsWriter h u || bool_decide (u ∈ resolvedReaders h).

(** What [revokeRemovedDevices] reports for one user; the Go maps are
    association lists here, in the order in which [Rekey] ranges over
    them. *)
Record userServerHalfRemovalInfo := {
  userRemoved : bool;
  deviceServerHalfIDs : list (CryptPublicKey * list TLFCryptKeyServerHalfID)
}.
Definition ServerHalfRemovalInfo := list (UID * userServerHalfRemovalInfo).

(** ** Errors *)

Inductive error :=
| InvalidKeyGenerationError (id : tlf_ID) (g : KeyGen)
| NewKeyGenerationError (id : tlf_ID) (g : KeyGen)
| KeyCacheMissError (id : tlf_ID) (g : KeyGen)
| TLFCryptKeyNotPerDeviceEncrypted (id : tlf_ID) (g : KeyGen)
| ReadAccessError (user : NormalizedUsername) (path : string)
| RekeyIncompleteError
| DecryptionError
| NoSecretKeyError
| ErrorString (msg : string)
| RuntimePanic (msg : string).

Global Instance error_eq_dec : EqDecision error.
Proof. solve_decision. Defined.

Definition isNotPerDeviceEncrypted (e : error) : bool :=
  match e with TLFCryptKeyNotPerDeviceEncrypted _ _ => true | _ => false end.
Definition isRekeyIncomplete (e : error) : bool :=
  match e with RekeyIncompleteError => true | _ => false end.

(** [getTLFCryptKeyFlags] is a byte of three bits. *)
Definition getTLFCryptKeyFlags := Z.
Definition getTLFCryptKeyAnyDevice : getTLFCryptKeyFlags := Z.shiftl 1 0.
Definition getTLFCryptKeyDoCache : getTLFCryptKeyFlags := Z.shiftl 1 1.
Definition getTLFCryptKeyPromptPaper : getTLFCryptKeyFlags := Z.shiftl 1 2.
Definition hasFlag (flags f : getTLFCryptKeyFlags) : bool :=
  negb (Z.land flags f =? 0).

(** ** Collaborator calls, as logged *)

Inductive event :=
| EvCacheGet (id : tlf_ID) (g : KeyGen)
| EvCachePut (id : tlf_ID) (g : KeyGen) (k : TLFCryptKey)
| EvGetCurrentUserInfo
| EvGetCryptPublicKeys (u : UID)
| EvGetCurrentCryptPublicKey
| EvIdentify (us : list UID)
| EvResolveAgain
| EvResolveAgainForUser (u : UID)
| EvFlushUser (u : UID)
| EvDecryptClientHalfAny (promptPaper : bool)
| EvDecryptClientHalf
| EvMakeRandomTLFEphemeralKeys
| EvMakeRandomTLFKeys
| EvGetServerHalf (id : TLFCryptKeyServerHalfID) (k : CryptPublicKey)
| EvPutServerHalves (hs : ServerHalves)
| EvDeleteServerHalf (u : UID) (k : KID) (id : TLFCryptKeyServerHalfID)
| EvGetLatestHandle
| EvNotify
| EvDecryptMDPrivateData
| EvGetHistoricTLFCryptKey (g : KeyGen)
| EvPromoteReader (u : UID)
| EvUpdateKeyGeneration (g : KeyGen) (wKeys rKeys : UserDevicePublicKeys)
| EvRevokeRemovedDevices (info : ServerHalfRemovalInfo)
| EvAddKeyGeneration (ok : bool)
| EvSetPrivateData
| EvSetTLFPrivateKey
| EvFinalizeRekey
| EvUpdateFromTlfHandle (h : TlfHandle).

(** ** The collaborators

    [KeyMetadata] is the read-only view the resolver works on;
    [RootMetadata] adds what [Rekey] does to a [*RootMetadata].  A method
    that mutates its receiver returns the receiver's new value together
    with its result, also when it fails. *)

Class KeyMetadata (MD : Type) := {
  TlfID : MD → tlf_ID;
  LatestKeyGeneration : MD → KeyGen;
  GetTLFCryptKeyParams : MD → KeyGen → UID → CryptPublicKey →
    error + (TLFEphemeralPublicKey * EncryptedTLFCryptKeyClientHalf *
             TLFCryptKeyServerHalfID * bool);
  GetHistoricTLFCryptKey : MD → KeyGen → TLFCryptKey → error + TLFCryptKey;
  StoresHistoricTLFCryptKeys : MD → bool
}.

Class RootMetadata (MD : Type) := {
  rmd_KeyMetadata :: KeyMetadata MD;
  GetTlfHandle : MD → TlfHandle;
  IsReadable : MD → bool;
  GetSerializedPrivateMetadata : MD → string;
  getUserDeviceKeyInfoMaps : MD → KeyGen →
    error + (UserDeviceKeyInfoMap * UserDeviceKeyInfoMap);
  promoteReader : MD → UID → option error * MD;
  md_updateKeyGeneration : MD → KeyGen →
    UserDevicePublicKeys → UserDevicePublicKeys →
    TLFEphemeralPublicKey → TLFEphemeralPrivateKey → TLFCryptKey →
    (error + ServerHalves) * MD;
  AddKeyGeneration : MD → TLFCryptKey → TLFCryptKey → TLFPublicKey →
    option error * MD;
  revokeRemovedDevices : MD → UserDevicePublicKeys → UserDevicePublicKeys →
    (error + ServerHalfRemovalInfo) * MD;
  finalizeRekey : MD → option error * MD;
  updateFromTlfHandle : MD → TlfHandle → option error * MD;
  set_data : MD → PrivateMetadata → MD;
  set_TLFPrivateKey : MD → TLFPrivateKey → MD
}.

(** [decryptMDPrivateData] is not a function of [key_manager.go]; [Rekey]
    hands it the key manager (line 673, as [journal_md_ops.go] does at
    line 59), so it can ask for folder keys while it runs.  It is an
    oracle that either answers with its result, or asks the key manager's
    entry point for decrypting metadata, [GetTLFCryptKeyForMDDecryption],
    for a key and goes on from what it is given. *)
Inductive mdDecryption (MD : Type) :=
| Decrypted (r : error + PrivateMetadata)
| NeedsKey (kmdToDecrypt kmdWithKeys : MD)
    (next : error + TLFCryptKey → mdDecryption MD).
Arguments Decrypted {MD}.
Arguments NeedsKey {MD}.

(** The services behind [km.config], as oracles: what each call answers
    during one call of the key manager. *)
Record World (MD : Type) := {
  (* KBPKI *)
  GetCurrentUserInfo : error + (NormalizedUsername * UID);
  GetCryptPublicKeys : UID → error + list CryptPublicKey;
  GetCurrentCryptPublicKey : error + CryptPublicKey;
  identifyUserList : list UID → bool → option error;
  ResolveAgain : TlfHandle → error + TlfHandle;
  ResolveAgainForUser : TlfHandle → UID → error + TlfHandle;
  makeRekeyReadError : error → MD → KeyGen → UID → NormalizedUsername → error;
  (* Crypto *)
  DecryptTLFCryptKeyClientHalfAny :
    list EncryptedTLFCryptKeyClientAndEphemeral → bool →
    error + (TLFCryptKeyClientHalf * Z);
  DecryptTLFCryptKeyClientHalf :
    TLFEphemeralPublicKey → EncryptedTLFCryptKeyClientHalf →
    error + TLFCryptKeyClientHalf;
  MakeRandomTLFEphemeralKeys : TLFEphemeralPublicKey * TLFEphemeralPrivateKey;
  MakeRandomTLFKeys : error + (TLFPublicKey * TLFPrivateKey * TLFCryptKey);
  (* KeyOps *)
  GetTLFCryptKeyServerHalf : TLFCryptKeyServerHalfID → CryptPublicKey →
    error + TLFCryptKeyServerHalf;
  PutTLFCryptKeyServerHalves : ServerHalves → option error;
  DeleteTLFCryptKeyServerHalf : UID → KID → TLFCryptKeyServerHalfID →
    option error;
  (* MDOps and the codec-backed handle operations *)
  GetLatestHandleForTLF : tlf_ID → option string;
  handle_Equals : TlfHandle → TlfHandle → error + bool;
  WithUpdatedConflictInfo : TlfHandle → option string → error + TlfHandle;
  (* md_util: uid, serializedPrivateMetadata, rmdToDecrypt, rmdWithKeys *)
  decryptMDPrivateData : UID → string → MD → MD → mdDecryption MD
}.

Arguments GetCurrentUserInfo {MD}.
Arguments GetCryptPublicKeys {MD}.
Arguments GetCurrentCryptPublicKey {MD}.
Arguments identifyUserList {MD}.
Arguments ResolveAgain {MD}.
Arguments ResolveAgainForUser {MD}.
Arguments makeRekeyReadError {MD}.
Arguments DecryptTLFCryptKeyClientHalfAny {MD}.
Arguments DecryptTLFCryptKeyClientHalf {MD}.
Arguments MakeRandomTLFEphemeralKeys {MD}.
Arguments MakeRandomTLFKeys {MD}.
Arguments GetTLFCryptKeyServerHalf {MD}.
Arguments PutTLFCryptKeyServerHalves {MD}.
Arguments DeleteTLFCryptKeyServerHalf {MD}.
Arguments GetLatestHandleForTLF {MD}.
Arguments handle_Equals {MD}.
Arguments WithUpdatedConflictInfo {MD}.
Arguments decryptMDPrivateData {MD}.

(** ** State and the monad of the embedding

    Modelled from the spec: the key cache is the map
    [(TLF, generation) → folder key] with a miss sentinel; eviction is left
    out.  [calls] is the log, oldest call first. *)
Record KM := mkKM {
  kcache : gmap (tlf_ID * KeyGen) TLFCryptKey;
  calls : list event
}.

Record Mem (MD : Type) := mkMem { mem_md : MD; mem_km : KM }.
Arguments mkMem {MD}.
Arguments mem_md {MD}.
Arguments mem_km {MD}.

(** A computation reads and writes a state and ends with a value or with an
    error; the state is kept in both cases. *)
Definition M (S A : Type) : Type := S → (error + A) * S.

Global Instance M_ret {S} : MRet (M S) :=
  fun A (a : A) (s : S) => (inr a, s).
Global Instance M_bind {S} : MBind (M S) :=
  fun A B (k : A → M S B) (m : M S A) (s : S) =>
    match m s with
    | (inl e, s') => (inl e, s')
    | (inr a, s') => k a s'
    end.

Definition fail {S A} (e : error) : M S A := fun s => (inl e, s).
Definition liftE {S A} (r : error + A) : M S A := fun s => (r, s).
Definition orFail {S} (o : option error) : M S unit :=
  fun s => (match o with Some e => inl e | None => inr tt end, s).
(** [catch m] hands the error to the caller as a value, for the Go idiom of
    inspecting [err] after a call. *)
Definition catch {S A} (m : M S A) : M S (error + A) :=
  fun s => let '(r, s') := m s in (inr r, s').

Definition log (e : event) (s : KM) : KM :=
  mkKM (kcache s) (calls s ++ [e]).
Definition call (e : event) : M KM unit := fun s => (inr tt, log e s).

Definition inKM {MD A} (m : M KM A) : M (Mem MD) A :=
  fun s => let '(r, k) := m (mem_km s) in (r, mkMem (mem_md s) k).
(** A mutating method of the metadata object, logged as [e]. *)
Definition onMD {MD A} (e : event) (f : MD → A * MD) : M (Mem MD) A :=
  fun s => let '(a, md') := f (mem_md s) in
           (inr a, mkMem md' (log e (mem_km s))).
Definition getMD {MD} : M (Mem MD) MD := fun s => (inr (mem_md s), s).

Fixpoint forM_ {S A} (l : list A) (body : A → M S unit) : M S unit :=
  match l with
  | [] => mret tt
  | x :: rest => body x ≫= fun _ => forM_ rest body
  end.

Definition lookupZ {A} (l : list A) (i : Z) : option A :=
  if i <? 0 then None else l !! Z.to_nat i.

(** [kcache.GetTLFCryptKey] and [kcache.PutTLFCryptKey]. *)
Definition KeyCache_GetTLFCryptKey (id : tlf_ID) (g : KeyGen) : M KM TLFCryptKey :=
  fun s => (match kcache s !! (id, g) with
            | Some k => inr k
            | None => inl (KeyCacheMissError id g)
            end, log (EvCacheGet id g) s).
Definition KeyCache_PutTLFCryptKey (id : tlf_ID) (g : KeyGen) (k : TLFCryptKey)
    : M KM unit :=
  fun s => (inr tt, mkKM (<[(id, g) := k]> (kcache s))
                         (calls s ++ [EvCachePut id g k])).

(** A call to a service: logged, answered by the oracle. *)
Definition ask {A} (e : event) (r : error + A) : M KM A :=
  fun s => (r, log e s).

(** ** The key resolver *)

Section Resolver.
Context {MD : Type} `{KeyMetadata MD}.
Variable w : World MD.

(** The loop of [getTLFCryptKeyParams] over the user's public keys
    (lines 209-232): [i] is the index of the head of [publicKeys], the
    three slices grow together. *)
Fixpoint collectKeyParams (kmd : MD) (keyGen : KeyGen) (uid : UID)
    (publicKeys : list CryptPublicKey) (i : Z)
    (keys : list EncryptedTLFCryptKeyClientAndEphemeral)
    (serverHalfIDs : list TLFCryptKeyServerHalfID)
    (publicKeyLookup : list Z)
    : error + (list EncryptedTLFCryptKeyClientAndEphemeral *
               list TLFCryptKeyServerHalfID * list Z) :=
  match publicKeys with
  | [] => inr (keys, serverHalfIDs, publicKeyLookup)
  | k :: rest =>
      match GetTLFCryptKeyParams kmd keyGen uid k with
      | inl err =>
          if isNotPerDeviceEncrypted err then inl err
          else collectKeyParams kmd keyGen uid rest (i + 1)
                 keys serverHalfIDs publicKeyLookup
      | inr (ePublicKey, encryptedClientHalf, serverHalfID, found) =>
          if negb found then
            collectKeyParams kmd keyGen uid rest (i + 1)
              keys serverHalfIDs publicKeyLookup
          else
            collectKeyParams kmd keyGen uid rest (i + 1)
              (keys ++ [{| PubKey := k; ClientHalf := encryptedClientHalf;
                           EPubKey := ePublicKey |}])
              (serverHalfIDs ++ [serverHalfID])
              (publicKeyLookup ++ [i])
      end
  end.

Definition getTLFCryptKeyParams (kmd : MD) (keyGen : KeyGen) (uid : UID)
    (username : NormalizedUsername) (flags : getTLFCryptKeyFlags)
    : M KM (TLFCryptKeyClientHalf * TLFCryptKeyServerHalfID * CryptPublicKey) :=
  let localMakeRekeyReadError (err : error) : error :=
    makeRekeyReadError w err kmd keyGen uid username in
  if hasFlag flags getTLFCryptKeyAnyDevice then
    publicKeys ← ask (EvGetCryptPublicKeys uid) (GetCryptPublicKeys w uid);
    '(keys, serverHalfIDs, publicKeyLookup) ←
      liftE (collectKeyParams kmd keyGen uid publicKeys 0 [] [] []);
    if bool_decide (length keys = 0%nat) then
      fail (localMakeRekeyReadError (ErrorString "no valid public keys found"))
    else
      let promptPaper := hasFlag flags getTLFCryptKeyPromptPaper in
      r ← catch (ask (EvDecryptClientHalfAny promptPaper)
                 (DecryptTLFCryptKeyClientHalfAny w keys promptPaper));
      match r with
      | inl DecryptionError => fail (localMakeRekeyReadError DecryptionError)
      | inl NoSecretKeyError => fail (localMakeRekeyReadError NoSecretKeyError)
      | inl err => fail err
      | inr (clientHalf, index) =>
          match lookupZ serverHalfIDs index with
          | None => fail (RuntimePanic "index out of range")
          | Some serverHalfID =>
              match lookupZ publicKeyLookup index ≫= lookupZ publicKeys with
              | None => fail (RuntimePanic "index out of range")
              | Some cryptPublicKey =>
                  mret (clientHalf, serverHalfID, cryptPublicKey)
              end
          end
      end
  else
    cryptPublicKey ← ask EvGetCurrentCryptPublicKey (GetCurrentCryptPublicKey w);
    '(ePublicKey, encryptedClientHalf, foundServerHalfID, found) ←
      liftE (GetTLFCryptKeyParams kmd keyGen uid cryptPublicKey);
    if negb found then
      fail (localMakeRekeyReadError (ErrorString "could not find params"))
    else
      clientHalf ← ask EvDecryptClientHalf
        (DecryptTLFCryptKeyClientHalf w ePublicKey encryptedClientHalf);
      mret (clientHalf, foundServerHalfID, cryptPublicKey).

Definition unmaskTLFCryptKey (serverHalfID : TLFCryptKeyServerHalfID)
    (cryptPublicKey : CryptPublicKey) (clientHalf : TLFCryptKeyClientHalf)
    : M KM TLFCryptKey :=
  serverHalf ← ask (EvGetServerHalf serverHalfID cryptPublicKey)
    (GetTLFCryptKeyServerHalf w serverHalfID cryptPublicKey);
  mret (UnmaskTLFCryptKey serverHalf clientHalf).

(** Lines 122-171 of [getTLFCryptKey]: what happens between the cache
    miss and the cache write. *)
Definition resolveTLFCryptKey (kmd : MD) (keyGen : KeyGen)
    (flags : getTLFCryptKeyFlags) : M KM TLFCryptKey :=
  let tlfID := TlfID kmd in
  '(username, uid) ← ask EvGetCurrentUserInfo (GetCurrentUserInfo w);
  params ← catch (getTLFCryptKeyParams kmd keyGen uid username flags);
  match params with
  | inl (TLFCryptKeyNotPerDeviceEncrypted _ _) =>
      let currKeyGen := LatestKeyGeneration kmd in
      probe ← catch (KeyCache_GetTLFCryptKey tlfID currKeyGen);
      latestKey ←
        match probe with
        | inr latestKey => mret latestKey
        | inl (KeyCacheMissError _ _) =>
            '(clientHalf, serverHalfID, cryptPublicKey) ←
              getTLFCryptKeyParams kmd currKeyGen uid username flags;
            unmaskTLFCryptKey serverHalfID cryptPublicKey clientHalf
        | inl err => fail err
        end;
      ask (EvGetHistoricTLFCryptKey keyGen)
        (GetHistoricTLFCryptKey kmd keyGen latestKey)
  | inl err => fail err
  | inr (clientHalf, serverHalfID, cryptPublicKey) =>
      unmaskTLFCryptKey serverHalfID cryptPublicKey clientHalf
  end.

Definition getTLFCryptKey (kmd : MD) (keyGen : KeyGen)
    (flags : getTLFCryptKeyFlags) : M KM TLFCryptKey :=
  let tlfID := TlfID kmd in
  if IsPublic tlfID then mret PublicTLFCryptKey
  else if keyGen <? FirstValidKeyGen then
    fail (InvalidKeyGenerationError tlfID keyGen)
  else if LatestKeyGeneration kmd <? keyGen then
    fail (NewKeyGenerationError tlfID keyGen)
  else
    probe ← catch (KeyCache_GetTLFCryptKey tlfID keyGen);
    match probe with
    | inr tlfCryptKey => mret tlfCryptKey
    | inl (KeyCacheMissError _ _) =>
        tlfCryptKey ← resolveTLFCryptKey kmd keyGen flags;
        if hasFlag flags getTLFCryptKeyDoCache then
          KeyCache_PutTLFCryptKey tlfID keyGen tlfCryptKey;;
          mret tlfCryptKey
        else mret tlfCryptKey
    | inl err => fail err
    end.

Definition getTLFCryptKeyUsingCurrentDevice (kmd : MD) (keyGen : KeyGen)
    (cache : bool) : M KM TLFCryptKey :=
  let flags := if cache then getTLFCryptKeyDoCache else 0 in
  getTLFCryptKey kmd keyGen flags.

Definition GetTLFCryptKeyForEncryption (kmd : MD) : M KM TLFCryptKey :=
  getTLFCryptKeyUsingCurrentDevice kmd (LatestKeyGeneration kmd) false.

Definition GetTLFCryptKeyForMDDecryption (kmdToDecrypt kmdWithKeys : MD)
    : M KM TLFCryptKey :=
  getTLFCryptKey kmdWithKeys (LatestKeyGeneration kmdToDecrypt)
    (Z.lor getTLFCryptKeyAnyDevice getTLFCryptKeyDoCache).

Definition GetTLFCryptKeyForBlockDecryption (kmd : MD) (blockPtrKeyGen : KeyGen)
    : M KM TLFCryptKey :=
  getTLFCryptKeyUsingCurrentDevice kmd blockPtrKeyGen true.

(** A run of [decryptMDPrivateData] with this key manager: every key it
    asks for is resolved by [GetTLFCryptKeyForMDDecryption], and the
    answer, key or error, is handed back to it. *)
Fixpoint withKeyManager (d : mdDecryption MD) : M KM PrivateMetadata :=
  match d with
  | Decrypted r => liftE r
  | NeedsKey kmdToDecrypt kmdWithKeys next =>
      k ← catch (GetTLFCryptKeyForMDDecryption kmdToDecrypt kmdWithKeys);
      withKeyManager (next k)
  end.

(** The [for] loop of [GetTLFCryptKeyOfAllGenerations], over the
    generations still to visit; [keys] is the slice built so far.  The
    function returns the slice also when it returns an error. *)
Fixpoint allGenerationsLoop (kmd : MD) (gens : list KeyGen)
    (keys : list TLFCryptKey) (s : KM)
    : (list TLFCryptKey * option error) * KM :=
  match gens with
  | [] => ((keys, None), s)
  | g :: rest =>
      match getTLFCryptKeyUsingCurrentDevice kmd g true s with
      | (inl err, s') => ((keys, Some err), s')
      | (inr key, s') => allGenerationsLoop kmd rest (keys ++ [key]) s'
      end
  end.

(** [g] runs from [FirstValidKeyGen] while [g <= kmd.LatestKeyGeneration()]. *)
Definition generationsUpTo (latest : KeyGen) : list KeyGen :=
  seqZ FirstValidKeyGen (latest - FirstValidKeyGen + 1).

Definition GetTLFCryptKeyOfAllGenerations (kmd : MD) (s : KM)
    : (list TLFCryptKey * option error) * KM :=
  allGenerationsLoop kmd (generationsUpTo (LatestKeyGeneration kmd)) [] s.

End Resolver.

(** ** Rekey *)

(** The three results of [Rekey]: Go returns all of them on every path. *)
Record RekeyResult := mkResult {
  mdChanged : bool;
  cryptKey : option TLFCryptKey;
  err : option error
}.

(** [return false, nil, err]. *)
Definition failed (e : error) : RekeyResult := mkResult false None (Some e).
Definition toResult (r : error + RekeyResult) : RekeyResult :=
  match r with inl e => failed e | inr r => r end.

(** [err == nil || isRekeyIncomplete], the test of both deferred functions. *)
Definition nilOrIncomplete (e : option error) : bool :=
  match e with None => true | Some e => isRekeyIncomplete e end.

(** What lines 443-504 establish about the caller and the handle. *)
Record rekeyCaller := {
  username : NormalizedUsername;
  uid : UID;
  isWriter : bool;
  resolvedHandle : TlfHandle;
  handleChanged : bool;
  currKeyGen : KeyGen
}.

(** The local variables of lines 521-595, which the rest of [Rekey] reads. *)
Record rekeyPlan := {
  wKeys : UserDevicePublicKeys;
  rKeys : UserDevicePublicKeys;
  addNewReaderDevice : bool;
  addNewWriterDevice : bool;
  newReaderUsers : gset UID;
  newWriterUsers : gset UID;
  promotedReaders : gset UID;
  addNewReaderDeviceForSelf : bool;
  incKeyGen : bool
}.

(** [usersWithNewDevices]: the users of [expectedKeys] that are unknown to
    [keyInfoMap] or have an expected key without key info. *)
Definition hasNewDevice (keyInfoMap : UserDeviceKeyInfoMap)
    (u : UID) (keys : gset CryptPublicKey) : bool :=
  match keyInfoMap !! u with
  | None => true
  | Some kids => bool_decide (set_Exists (fun k => kids !! k = None) keys)
  end.
Definition usersWithNewDevices (keyInfoMap : UserDeviceKeyInfoMap)
    (expectedKeys : UserDevicePublicKeys) : gset UID :=
  dom (filter (fun p => hasNewDevice keyInfoMap p.1 p.2 = true) expectedKeys).

(** [usersWithRemovedDevices]: the users of [keyInfoMap] that are not
    expected any more or have key info for a KID that is not expected. *)
Definition hasRemovedDevice (expectedKeys : UserDevicePublicKeys)
    (u : UID) (keyInfos : DeviceKeyInfoMap) : bool :=
  match expectedKeys !! u with
  | None => true
  | Some keys =>
      let keyLookup : gset KID := set_map key_KID keys in
      bool_decide (set_Exists (fun key => key_KID key ∉ keyLookup) (dom keyInfos))
  end.
Definition usersWithRemovedDevices (keyInfoMap : UserDeviceKeyInfoMap)
    (expectedKeys : UserDevicePublicKeys) : gset UID :=
  dom (filter (fun p => hasRemovedDevice expectedKeys p.1 p.2 = true) keyInfoMap).

(** [len(m) > 0] for a Go map used as a set. *)
Definition nonEmpty (X : gset UID) : bool := bool_decide (0 < size X)%nat.

(** Lines 605-618: what a caller who is not a writer may rekey.  Go's
    [rKeys[uid]] is the empty set when [uid] has no entry. *)
Definition readerScope (uid : UID) (p : rekeyPlan) : error + rekeyPlan :=
  if bool_decide (uid ∈ newReaderUsers p) &&
     negb (bool_decide (uid ∈ promotedReaders p))
  then inr {| wKeys := ∅;
              rKeys := {[ uid := default ∅ (rKeys p !! uid) ]};
              addNewReaderDevice := addNewReaderDevice p;
              addNewWriterDevice := addNewWriterDevice p;
              newReaderUsers := newReaderUsers p ∖ {[ uid ]};
              newWriterUsers := newWriterUsers p;
              promotedReaders := promotedReaders p;
              addNewReaderDeviceForSelf := addNewReaderDeviceForSelf p;
              incKeyGen := incKeyGen p |}
  else inl RekeyIncompleteError.

(** Lines 558-590, the part of the delta that is computed from the key
    bundle alone: the users with new devices, those with removed devices
    (who need a new generation, and are merged into the new users), and
    the readers among them who are to become writers. *)
Definition rekeyDelta (uid : UID) (wKeys rKeys : UserDevicePublicKeys)
    (rDkim wDkim : UserDeviceKeyInfoMap) : rekeyPlan :=
  let newWriters := usersWithNewDevices wDkim wKeys in
  let newReaders := usersWithNewDevices rDkim rKeys in
  let wRemoved := usersWithRemovedDevices wDkim wKeys in
  let rRemoved := usersWithRemovedDevices rDkim rKeys in
  {| wKeys := wKeys; rKeys := rKeys;
     addNewReaderDevice := nonEmpty newReaders;
     addNewWriterDevice := nonEmpty newWriters;
     newReaderUsers := newReaders ∪ rRemoved;
     newWriterUsers := newWriters ∪ wRemoved;
     promotedReaders := rRemoved ∩ newWriters;
     addNewReaderDeviceForSelf := bool_decide (uid ∈ newReaders);
     incKeyGen := nonEmpty wRemoved || nonEmpty rRemoved |}.

(** The same variables when the first generation is to be created
    (line 521 sets [incKeyGen], the delta is skipped). *)
Definition firstGeneration (wKeys rKeys : UserDevicePublicKeys) : rekeyPlan :=
  {| wKeys := wKeys; rKeys := rKeys;
     addNewReaderDevice := false; addNewWriterDevice := false;
     newReaderUsers := ∅; newWriterUsers := ∅; promotedReaders := ∅;
     addNewReaderDeviceForSelf := false; incKeyGen := true |}.

Section Rekey.
Context {MD : Type} `{RootMetadata MD}.
Variable w : World MD.

Definition identifyUIDSets (tlfID : tlf_ID)
    (writersToIdentify readersToIdentify : gset UID) : M KM unit :=
  let uids := elements writersToIdentify ++ elements readersToIdentify in
  call (EvIdentify uids);;
  orFail (identifyUserList w uids (IsPublic tlfID)).

Fixpoint generateKeyMapLoop (users : list UID) (keyMap : UserDevicePublicKeys)
    : M KM UserDevicePublicKeys :=
  match users with
  | [] => mret keyMap
  | u :: rest =>
      call (EvFlushUser u);;
      publicKeys ← ask (EvGetCryptPublicKeys u) (GetCryptPublicKeys w u);
      generateKeyMapLoop rest (<[u := list_to_set publicKeys]> keyMap)
  end.
Definition generateKeyMapForUsers (users : list UID)
    : M KM UserDevicePublicKeys :=
  generateKeyMapLoop users ∅.

(** [km.updateKeyGeneration]: the metadata re-wraps, the server halves
    are pushed to the key server. *)
Definition updateKeyGeneration (keyGen : KeyGen)
    (wKeys rKeys : UserDevicePublicKeys)
    (ePubKey : TLFEphemeralPublicKey) (ePrivKey : TLFEphemeralPrivateKey)
    (tlfCryptKey : TLFCryptKey) : M (Mem MD) unit :=
  r ← onMD (EvUpdateKeyGeneration keyGen wKeys rKeys)
        (fun md => md_updateKeyGeneration md keyGen wKeys rKeys
                     ePubKey ePrivKey tlfCryptKey);
  serverHalves ← liftE r;
  inKM (call (EvPutServerHalves serverHalves);;
        orFail (PutTLFCryptKeyServerHalves w serverHalves)).

Definition rekeyFlags (promptPaper : bool) : getTLFCryptKeyFlags :=
  if promptPaper
  then Z.lor getTLFCryptKeyAnyDevice getTLFCryptKeyPromptPaper
  else getTLFCryptKeyAnyDevice.

(** Lines 443-504: consistency checks, the caller, the handle resolved
    again. *)
Definition rekeyResolve (promptPaper : bool) : M (Mem MD) rekeyCaller :=
  md ← getMD;
  let currKeyGen := LatestKeyGeneration md in
  let public := IsPublic (TlfID md) in
  if negb (eqb public (currKeyGen =? PublicKeyGen)) then
    fail (ErrorString "isPublic does not match currKeyGen")
  else if promptPaper && public then
    fail (ErrorString "promptPaper set for public TLF")
  else
    let handle := GetTlfHandle md in
    '(username, uid) ← inKM (ask EvGetCurrentUserInfo (GetCurrentUserInfo w));
    resolvedHandle ← inKM (ask EvResolveAgain (ResolveAgain w handle));
    let isWriter := IsWriter resolvedHandle uid in
    resolvedHandle ←
      (if negb public && negb isWriter then
         if IsReader handle uid then mret handle
         else inKM (ask (EvResolveAgainForUser uid)
                      (ResolveAgainForUser w handle uid))
       else mret resolvedHandle);
    eq ← liftE (handle_Equals w handle resolvedHandle);
    let handleChanged := negb eq in
    resolvedHandle ←
      (if handleChanged then
         inKM (call EvGetLatestHandle);;
         liftE (WithUpdatedConflictInfo w resolvedHandle
                  (GetLatestHandleForTLF w (TlfID md)))
       else mret resolvedHandle);
    mret {| username := username; uid := uid; isWriter := isWriter;
            resolvedHandle := resolvedHandle;
            handleChanged := handleChanged; currKeyGen := currKeyGen |}.

(** Lines 549-595: the delta against the key bundle of [currKeyGen]. *)
Definition rekeyDiff (c : rekeyCaller)
    (wKeys rKeys : UserDevicePublicKeys) : M (Mem MD) rekeyPlan :=
  md ← getMD;
  '(rDkim, wDkim) ← liftE (getUserDeviceKeyInfoMaps md (currKeyGen c));
  let p := rekeyDelta (uid c) wKeys rKeys rDkim wDkim in
  inKM (identifyUIDSets (TlfID md) (newWriterUsers p) (newReaderUsers p));;
  mret p.

(** Lines 443-603: up to the decision that there is something to rekey.
    [inl r] is an early [return]. *)
Definition rekeyDecide (promptPaper : bool)
    : M (Mem MD) (RekeyResult + rekeyCaller * rekeyPlan) :=
  c ← rekeyResolve promptPaper;
  md ← getMD;
  if IsPublic (TlfID md) then
    if negb (handleChanged c) then mret (inl (mkResult false None None))
    else
      updateErr ← onMD (EvUpdateFromTlfHandle (resolvedHandle c))
                    (fun md => updateFromTlfHandle md (resolvedHandle c));
      mret (inl (mkResult true None updateErr))
  else
    let firstRekey := currKeyGen c <? FirstValidKeyGen in
    if negb (isWriter c) && firstRekey then
      fail (ReadAccessError (username c) (GetCanonicalPath (resolvedHandle c)))
    else
      wKeys ← inKM (generateKeyMapForUsers (ResolvedWriters (resolvedHandle c)));
      rKeys ← inKM (generateKeyMapForUsers (ResolvedReaders (resolvedHandle c)));
      p ← (if negb firstRekey then rekeyDiff c wKeys rKeys
           else mret (firstGeneration wKeys rKeys));
      if negb (addNewReaderDevice p) && negb (addNewWriterDevice p) &&
         negb (incKeyGen p) && negb (handleChanged c)
      then mret (inl (mkResult false None None))
      else mret (inr (c, p)).

(** Lines 620-663: ephemeral keys, promotions, the new devices added to
    every existing generation. *)
Definition rewrapGeneration (promptPaper : bool) (p : rekeyPlan)
    (ePubKey : TLFEphemeralPublicKey) (ePrivKey : TLFEphemeralPrivateKey)
    (keyGen : KeyGen) : M (Mem MD) unit :=
  md ← getMD;
  currTlfCryptKey ← inKM (getTLFCryptKey w md keyGen (rekeyFlags promptPaper));
  r ← catch (updateKeyGeneration keyGen (wKeys p) (rKeys p)
             ePubKey ePrivKey currTlfCryptKey);
  match r with
  | inl (TLFCryptKeyNotPerDeviceEncrypted _ _) => mret tt
  | inl e => fail e
  | inr _ => mret tt
  end.

Definition rekeyRewrap (promptPaper : bool) (c : rekeyCaller) (p : rekeyPlan)
    : M (Mem MD) (TLFEphemeralPublicKey * TLFEphemeralPrivateKey) :=
  inKM (call EvMakeRandomTLFEphemeralKeys);;
  let '(ePubKey, ePrivKey) := MakeRandomTLFEphemeralKeys w in
  forM_ (elements (promotedReaders p)) (fun u =>
    onMD (EvPromoteReader u) (fun md => promoteReader md u) ≫= orFail);;
  (if addNewReaderDevice p || addNewWriterDevice p then
     forM_ (generationsUpTo (currKeyGen c))
       (rewrapGeneration promptPaper p ePubKey ePrivKey)
   else mret tt);;
  mret (ePubKey, ePrivKey).

(** Lines 665-678: the private metadata is decrypted if it was not
    already; [decryptMDPrivateData] is given the key manager, the user
    and the metadata object, twice. *)
Definition decryptPrivateData (c : rekeyCaller) : M (Mem MD) unit :=
  md ← getMD;
  if negb (IsReadable md) &&
     bool_decide (0 < String.length (GetSerializedPrivateMetadata md))%nat
  then
    pmd ← inKM (call EvDecryptMDPrivateData;;
                withKeyManager w
                  (decryptMDPrivateData w (uid c)
                     (GetSerializedPrivateMetadata md) md md));
    onMD EvSetPrivateData (fun md => (tt, set_data md pmd))
  else mret tt.

Definition rekeyApply (promptPaper : bool) (c : rekeyCaller) (p : rekeyPlan)
    : M (Mem MD) (TLFEphemeralPublicKey * TLFEphemeralPrivateKey) :=
  '(ePubKey, ePrivKey) ← rekeyRewrap promptPaper c p;
  decryptPrivateData c;;
  mret (ePubKey, ePrivKey).

(** Lines 734-758: the server halves of the revoked devices are deleted. *)
Definition deleteServerHalves (allRemovalInfo : ServerHalfRemovalInfo)
    : M KM unit :=
  forM_ allRemovalInfo (fun '(u, userRemovalInfo) =>
    forM_ (deviceServerHalfIDs userRemovalInfo) (fun '(key, serverHalfIDs) =>
      forM_ serverHalfIDs (fun serverHalfID =>
        call (EvDeleteServerHalf u (key_KID key) serverHalfID);;
        orFail (DeleteTLFCryptKeyServerHalf w u (key_KID key) serverHalfID)))).

Definition revoke (wKeys rKeys : UserDevicePublicKeys)
    : M (Mem MD) ServerHalfRemovalInfo :=
  fun s =>
    let '(r, md') := revokeRemovedDevices (mem_md s) wKeys rKeys in
    (r, mkMem md' (log (EvRevokeRemovedDevices
                          (match r with inr i => i | inl _ => [] end))
                     (mem_km s))).

(** Lines 734-758: what is revoked and deleted before the new generation. *)
Definition revokeAndDelete (c : rekeyCaller) (p : rekeyPlan) : M (Mem MD) unit :=
  if FirstValidKeyGen <=? currKeyGen c then
    allRemovalInfo ← revoke (wKeys p) (rKeys p);
    inKM (deleteServerHalves allRemovalInfo)
  else mret tt.

(** [md.AddKeyGeneration], logged with whether it succeeded. *)
Definition addKeyGeneration (prevTLFCryptKey currTLFCryptKey : TLFCryptKey)
    (pubKey : TLFPublicKey) : M (Mem MD) unit :=
  fun s =>
    let '(e, md') :=
      AddKeyGeneration (mem_md s) prevTLFCryptKey currTLFCryptKey pubKey in
    (match e with Some e => inl e | None => inr tt end,
     mkMem md' (log (EvAddKeyGeneration (bool_decide (e = None))) (mem_km s))).

(** Lines 766-784: the previous folder key, which a metadata object that
    stores historic keys chains to the new one. *)
Definition historicKeys (promptPaper : bool) (c : rekeyCaller)
    (tlfCryptKey : TLFCryptKey) : M (Mem MD) (TLFCryptKey * TLFCryptKey) :=
  md ← getMD;
  if StoresHistoricTLFCryptKeys md then
    prevTLFCryptKey ←
      (if FirstValidKeyGen <=? currKeyGen c then
         inKM (getTLFCryptKey w md (currKeyGen c) (rekeyFlags promptPaper))
       else mret 0%N);
    mret (prevTLFCryptKey, tlfCryptKey)
  else mret (0%N, 0%N).

(** Lines 760-798: the new generation. *)
Definition addGeneration (promptPaper : bool) (c : rekeyCaller) (p : rekeyPlan)
    (ePubKey : TLFEphemeralPublicKey) (ePrivKey : TLFEphemeralPrivateKey)
    : M (Mem MD) RekeyResult :=
  '(pubKey, privKey, tlfCryptKey) ←
    inKM (ask EvMakeRandomTLFKeys (MakeRandomTLFKeys w));
  '(prevTLFCryptKey, currTLFCryptKey) ←
    historicKeys promptPaper c tlfCryptKey;
  addKeyGeneration prevTLFCryptKey currTLFCryptKey pubKey;;
  md ← getMD;
  updateKeyGeneration (LatestKeyGeneration md) (wKeys p) (rKeys p)
    ePubKey ePrivKey tlfCryptKey;;
  onMD EvSetTLFPrivateKey (fun md => (tt, set_TLFPrivateKey md privKey));;
  mret (mkResult true (Some tlfCryptKey) None).

(** Lines 708-798: the code that runs with both deferred functions
    registered. *)
Definition rekeyFinish (promptPaper : bool) (c : rekeyCaller) (p : rekeyPlan)
    (ePubKey : TLFEphemeralPublicKey) (ePrivKey : TLFEphemeralPrivateKey)
    : M (Mem MD) RekeyResult :=
  if negb (isWriter c) then
    if nonEmpty (newReaderUsers p) || addNewWriterDevice p || incKeyGen p then
      mret (mkResult (addNewReaderDeviceForSelf p) None
              (Some RekeyIncompleteError))
    else mret (mkResult true None None)
  else if negb (incKeyGen p) then mret (mkResult true None None)
  else
    inKM (call EvNotify);;
    revokeAndDelete c p;;
    addGeneration promptPaper c p ePubKey ePrivKey.

(** The function deferred at line 696, which runs first. *)
Definition deferFinalize (r : RekeyResult) (s : Mem MD)
    : RekeyResult * Mem MD :=
  if mdChanged r && nilOrIncomplete (err r) then
    let '(finalizeErr, md') := finalizeRekey (mem_md s) in
    let s' := mkMem md' (log EvFinalizeRekey (mem_km s)) in
    match finalizeErr with
    | Some e => (mkResult false None (Some e), s')
    | None => (r, s')
    end
  else (r, s).

(** The function deferred at line 680, which runs last. *)
Definition deferUpdateHandle (resolvedHandle : TlfHandle) (r : RekeyResult)
    (s : Mem MD) : RekeyResult * Mem MD :=
  if nilOrIncomplete (err r) then
    let '(updateErr, md') := updateFromTlfHandle (mem_md s) resolvedHandle in
    let s' := mkMem md' (log (EvUpdateFromTlfHandle resolvedHandle) (mem_km s)) in
    match updateErr with
    | Some e => (mkResult (mdChanged r) (cryptKey r) (Some e), s')
    | None => (r, s')
    end
  else (r, s).

(** Where the body of [Rekey] stops: [inl r] is a [return] before line 680,
    when nothing is deferred yet; [inr (h, r)] is a [return] after line
    706, with the results as the [return] statement set them and the
    handle the deferred update will store. *)
Definition runDeferred (b : (RekeyResult + TlfHandle * RekeyResult) * Mem MD)
    : RekeyResult * Mem MD :=
  match b with
  | (inl r, s) => (r, s)
  | (inr (h, r), s) =>
      let '(r', s') := deferFinalize r s in
      deferUpdateHandle h r' s'
  end.

(** The body after line 618, for the plan that is left to carry out. *)
Definition rekeyFromBody (promptPaper : bool) (c : rekeyCaller) (p : rekeyPlan)
    (s : Mem MD) : (RekeyResult + TlfHandle * RekeyResult) * Mem MD :=
  match rekeyApply promptPaper c p s with
  | (inl e, s1) => (inl (failed e), s1)
  | (inr (ePubKey, ePrivKey), s1) =>
      let '(r, s2) := rekeyFinish promptPaper c p ePubKey ePrivKey s1 in
      (inr (resolvedHandle c, toResult r), s2)
  end.

Definition rekeyFrom (promptPaper : bool) (c : rekeyCaller) (p : rekeyPlan)
    (s : Mem MD) : RekeyResult * Mem MD :=
  runDeferred (rekeyFromBody promptPaper c p s).

(** The body of [Rekey]. *)
Definition rekeyBody (promptPaper : bool) (s : Mem MD)
    : (RekeyResult + TlfHandle * RekeyResult) * Mem MD :=
  match rekeyDecide promptPaper s with
  | (inl e, s1) => (inl (failed e), s1)
  | (inr (inl r), s1) => (inl r, s1)
  | (inr (inr (c, p)), s1) =>
      if isWriter c then rekeyFromBody promptPaper c p s1
      else match readerScope (uid c) p with
           | inl e => (inl (failed e), s1)
           | inr p' => rekeyFromBody promptPaper c p' s1
           end
  end.

Definition Rekey (promptPaper : bool) (s : Mem MD) : RekeyResult * Mem MD :=
  runDeferred (rekeyBody promptPaper s).

End Rekey.

(** * Sample collaborators

    A small metadata object and a small world, to run the embedding on
    concrete folders.  [SampleMD] keeps one pair of key bundles, those of
    the latest generation; with [s_v3] set it answers
    [TLFCryptKeyNotPerDeviceEncrypted] for every older generation, as a V3
    metadata object does. *)

Global Instance TlfHandle_eq_dec : EqDecision TlfHandle.
Proof. solve_decision. Defined.

Record SampleMD := {
  s_id : tlf_ID;
  s_latest : KeyGen;
  s_v3 : bool;
  s_handle : TlfHandle;
  s_writers : UserDeviceKeyInfoMap;
  s_readers : UserDeviceKeyInfoMap;
  s_removal : ServerHalfRemovalInfo;
  s_finalize : option string;
  s_privateKey : TLFPrivateKey
}.

Definition sample_info (md : SampleMD) (u : UID) (k : CryptPublicKey)
    : option TLFCryptKeyInfo :=
  match s_writers md !! u ≫= (fun d => d !! k) with
  | Some i => Some i
  | None => s_readers md !! u ≫= (fun d => d !! k)
  end.

Global Instance SampleMD_KeyMetadata : KeyMetadata SampleMD := {|
  TlfID := s_id;
  LatestKeyGeneration := s_latest;
  GetTLFCryptKeyParams md g u k :=
    if s_v3 md && (g <? s_latest md) then
      inl (TLFCryptKeyNotPerDeviceEncrypted (s_id md) g)
    else match sample_info md u k with
         | Some i => inr (0%N, info_ClientHalf i, info_ServerHalfID i, true)
         | None => inr (0%N, 0%N, "", false)
         end;
  GetHistoricTLFCryptKey md g latestKey :=
    inr (latestKey + Z.to_N (s_latest md - g))%N;
  StoresHistoricTLFCryptKeys := s_v3
|}.

Definition sample_with (md : SampleMD) (latest : KeyGen) (h : TlfHandle)
    (ws rs : UserDeviceKeyInfoMap) (pk : TLFPrivateKey) : SampleMD :=
  {| s_id := s_id md; s_latest := latest; s_v3 := s_v3 md; s_handle := h;
     s_writers := ws; s_readers := rs; s_removal := s_removal md;
     s_finalize := s_finalize md; s_privateKey := pk |}.

Global Instance SampleMD_RootMetadata : RootMetadata SampleMD := {|
  rmd_KeyMetadata := SampleMD_KeyMetadata;
  GetTlfHandle := s_handle;
  IsReadable := fun _ => true;
  GetSerializedPrivateMetadata := fun _ => "";
  getUserDeviceKeyInfoMaps md g := inr (s_readers md, s_writers md);
  promoteReader md u :=
    (None,
     sample_with md (s_latest md) (s_handle md)
       (match s_readers md !! u with
        | Some d => <[u := d]> (s_writers md)
        | None => s_writers md
        end)
       (delete u (s_readers md)) (s_privateKey md));
  md_updateKeyGeneration md g wKeys rKeys ePub ePriv key := (inr ∅, md);
  AddKeyGeneration md prev curr pub :=
    (None,
     sample_with md (Z.max FirstValidKeyGen (s_latest md + 1)) (s_handle md)
       (s_writers md) (s_readers md) (s_privateKey md));
  revokeRemovedDevices md wKeys rKeys := (inr (s_removal md), md);
  finalizeRekey md := (ErrorString <$> s_finalize md, md);
  updateFromTlfHandle md h :=
    (None,
     sample_with md (s_latest md) h (s_writers md) (s_readers md)
       (s_privateKey md));
  set_data md pmd := md;
  set_TLFPrivateKey md pk :=
    sample_with md (s_latest md) (s_handle md) (s_writers md) (s_readers md) pk
|}.

(** A world in which nothing fails: [me] is logged in on device
    [current], [devices] lists every user's device keys, handles resolve
    to themselves. *)
Definition sampleWorld (me : NormalizedUsername * UID)
    (devices : UID → list CryptPublicKey) (current : CryptPublicKey)
    : World SampleMD := {|
  GetCurrentUserInfo := inr me;
  GetCryptPublicKeys u := inr (devices u);
  GetCurrentCryptPublicKey := inr current;
  identifyUserList _ _ := None;
  ResolveAgain h := inr h;
  ResolveAgainForUser h _ := inr h;
  makeRekeyReadError e _ _ _ _ := ErrorString "rekey needed";
  DecryptTLFCryptKeyClientHalfAny keys _ :=
    match keys with
    | [] => inl NoSecretKeyError
    | k :: _ => inr (ClientHalf k, 0)
    end;
  DecryptTLFCryptKeyClientHalf _ enc := inr enc;
  MakeRandomTLFEphemeralKeys := (1%N, 2%N);
  MakeRandomTLFKeys := inr (3%N, 4%N, 77%N);
  GetTLFCryptKeyServerHalf _ _ := inr 5%N;
  PutTLFCryptKeyServerHalves _ := None;
  DeleteTLFCryptKeyServerHalf _ _ _ := None;
  GetLatestHandleForTLF _ := None;
  handle_Equals h1 h2 := inr (bool_decide (h1 = h2));
  WithUpdatedConflictInfo h _ := inr h;
  decryptMDPrivateData _ _ _ _ := Decrypted (inr "")
|}.

Definition info (clientHalf : N) (id : TLFCryptKeyServerHalfID) : TLFCryptKeyInfo :=
  {| info_ClientHalf := clientHalf; info_ServerHalfID := id; EPubKeyIndex := 0 |}.

Definition handle_of (ws rs : list UID) : TlfHandle :=
  {| resolvedWriters := ws; resolvedReaders := rs; unresolved := [];
     ConflictInfo := None; canonicalPath := "/keybase/private/folder" |}.

Definition KM0 : KM := mkKM ∅ [].

(** A public folder. *)
Definition publicMD : SampleMD := {|
  s_id := mk_tlf_ID "pub" true; s_latest := PublicKeyGen; s_v3 := false;
  s_handle := handle_of ["alice"] [];
  s_writers := ∅; s_readers := ∅; s_removal := []; s_finalize := None;
  s_privateKey := 0%N
|}.

(** A private folder at generation 3: alice writes from device [A1], bob
    reads from device [B1]. *)
Definition folderMD (v3 : bool) : SampleMD := {|
  s_id := mk_tlf_ID "priv" false; s_latest := 3; s_v3 := v3;
  s_handle := handle_of ["alice"] ["bob"];
  s_writers := {[ "alice" := {[ "A1" := info 9 "hA1" ]} ]};
  s_readers := {[ "bob" := {[ "B1" := info 10 "hB1" ]} ]};
  s_removal := []; s_finalize := None; s_privateKey := 0%N
|}.

Definition devices1 (u : UID) : list CryptPublicKey :=
  if String.eqb u "alice" then ["A1"]
  else if String.eqb u "bob" then ["B1"] else [].

Definition aliceWorld : World SampleMD := sampleWorld ("alice", "alice") devices1 "A1".
Definition bobWorld : World SampleMD := sampleWorld ("bob", "bob") devices1 "B1".

(** carol is not a member of the folder; she is logged in on device [C1]. *)
Definition devices2 (u : UID) : list CryptPublicKey :=
  if String.eqb u "carol" then ["C1"] else devices1 u.
Definition carolWorld : World SampleMD := sampleWorld ("carol", "carol") devices2 "C1".

(** A private folder of alice (writer) and bob (reader) that has no key
    generation yet. *)
Definition newFolderMD : SampleMD := {|
  s_id := mk_tlf_ID "priv" false; s_latest := 0; s_v3 := true;
  s_handle := handle_of ["alice"] ["bob"];
  s_writers := ∅; s_readers := ∅; s_removal := []; s_finalize := None;
  s_privateKey := 0%N
|}.

(** bob has enrolled a second device [B2]. *)
Definition devices3 (u : UID) : list CryptPublicKey :=
  if String.eqb u "bob" then ["B1"; "B2"] else devices1 u.
Definition bobWorld2 : World SampleMD := sampleWorld ("bob", "bob") devices3 "B2".
Definition aliceWorld2 : World SampleMD := sampleWorld ("alice", "alice") devices3 "A1".

Definition bobCaller : rekeyCaller := {|
  username := "bob"; uid := "bob"; isWriter := false;
  resolvedHandle := handle_of ["alice"] ["bob"];
  handleChanged := false; currKeyGen := 3
|}.

(** What bob's rekey of [folderMD] finds in [bobWorld2]: his device [B2]
    is new, nothing was removed. *)
Definition bobPlan : rekeyPlan := {|
  wKeys := {[ "alice" := {[ "A1" ]} ]};
  rKeys := {[ "bob" := {[ "B1"; "B2" ]} ]};
  addNewReaderDevice := true;
  addNewWriterDevice := false;
  newReaderUsers := {[ "bob" ]};
  newWriterUsers := ∅;
  promotedReaders := ∅;
  addNewReaderDeviceForSelf := true;
  incKeyGen := false
|}.

(** The folder after alice revoked her device [A0]: the bundle still has
    the entry, [revokeRemovedDevices] will report its three server halves.
    [fin] is what [finalizeRekey] will answer. *)
Definition revokedMD (fin : option string) : SampleMD := {|
  s_id := mk_tlf_ID "priv" false; s_latest := 3; s_v3 := true;
  s_handle := handle_of ["alice"] ["bob"];
  s_writers := {[ "alice" := {[ "A1" := info 9 "hA1"; "A0" := info 8 "hA0.3" ]} ]};
  s_readers := {[ "bob" := {[ "B1" := info 10 "hB1" ]} ]};
  s_removal := [("alice", {| userRemoved := false;
                             deviceServerHalfIDs :=
                               [("A0", ["hA0.1"; "hA0.2"; "hA0.3"])] |})];
  s_finalize := fin; s_privateKey := 0%N
|}.

Definition aliceCaller : rekeyCaller := {|
  username := "alice"; uid := "alice"; isWriter := true;
  resolvedHandle := handle_of ["alice"] ["bob"];
  handleChanged := false; currKeyGen := 3
|}.

(** What alice's rekey of [revokedMD] finds: her device [A0] is gone. *)
Definition alicePlan : rekeyPlan := {|
  wKeys := {[ "alice" := {[ "A1" ]} ]};
  rKeys := {[ "bob" := {[ "B1" ]} ]};
  addNewReaderDevice := false;
  addNewWriterDevice := false;
  newReaderUsers := ∅;
  newWriterUsers := {[ "alice" ]};
  promotedReaders := ∅;
  addNewReaderDeviceForSelf := false;
  incKeyGen := true
|}.
(** * Reasoning about the embedding *)

(** ** What a computation logs, and what it leaves alone *)

Class Logged (S : Type) := theLog : S → list event.
Global Instance KM_logged : Logged KM := calls.
Global Instance Mem_logged {MD} : Logged (Mem MD) := fun s => calls (mem_km s).

(** [emits P m]: running [m] appends calls to the log, all of them in [P]. *)
Definition emits {S A} `{Logged S} (P : event → Prop) (m : M S A) : Prop :=
  ∀ s, ∃ evs, theLog (m s).2 = theLog s ++ evs ∧ Forall P evs.

(** [steady f m]: running [m] does not change the component [f] of the
    state. *)
Definition steady {S A X} (f : S → X) (m : M S A) : Prop :=
  ∀ s, f (m s).2 = f s.


(** ** Kinds of calls *)

Definition notCachePut (e : event) : Prop :=
  match e with EvCachePut _ _ _ => False | _ => True end.

(** The resolver only ever looks things up: it never calls the
    metadata's mutators nor the key server's delete. *)
Definition isLookup (e : event) : Prop :=
  match e with
  | EvCacheGet _ _ | EvCachePut _ _ _ | EvGetCurrentUserInfo
  | EvGetCryptPublicKeys _ | EvGetCurrentCryptPublicKey
  | EvDecryptClientHalfAny _ | EvDecryptClientHalf
  | EvGetServerHalf _ _ | EvGetHistoricTLFCryptKey _ => True
  | _ => False
  end.


Definition isAdd (e : event) : Prop :=
  match e with EvAddKeyGeneration _ => True | _ => False end.
Definition isDelete (e : event) : Prop :=
  match e with EvDeleteServerHalf _ _ _ => True | _ => False end.
Definition isRevoke (e : event) : Prop :=
  match e with EvRevokeRemovedDevices _ => True | _ => False end.

(** The calls that change the in-memory metadata object. *)
Definition mutates (e : event) : Prop :=
  match e with
  | EvPromoteReader _ | EvUpdateKeyGeneration _ _ _
  | EvRevokeRemovedDevices _ | EvAddKeyGeneration _
  | EvSetPrivateData | EvSetTLFPrivateKey
  | EvFinalizeRekey | EvUpdateFromTlfHandle _ => True
  | _ => False
  end.

(** A call that neither adds a generation, nor revokes, nor deletes a
    server half. *)
Definition plain (e : event) : Prop := ¬ isAdd e ∧ ¬ isDelete e ∧ ¬ isRevoke e.

(** A plain call that leaves the metadata alone. *)
Definition calm (e : event) : Prop := plain e ∧ ¬ mutates e.

(** [e] deletes one of the server halves that [info] lists. *)
Definition deletesOf (info : ServerHalfRemovalInfo) (e : event) : Prop :=
  ∃ u inf key ids id,
    (u, inf) ∈ info ∧ (key, ids) ∈ deviceServerHalfIDs inf ∧ id ∈ ids ∧
    e = EvDeleteServerHalf u (key_KID key) id.

(** The call got as far as resolving the key afresh (private folder,
    generation in range, cache miss), and lines 122-171 produced [k]. *)
Definition freshlyResolved {MD} `{KeyMetadata MD} (w : World MD) (kmd : MD)
    (keyGen : KeyGen) (flags : getTLFCryptKeyFlags) (s : KM) (k : TLFCryptKey)
    : Prop :=
  IsPublic (TlfID kmd) = false ∧
  FirstValidKeyGen ≤ keyGen ≤ LatestKeyGeneration kmd ∧
  kcache s !! (TlfID kmd, keyGen) = None ∧
  (resolveTLFCryptKey w kmd keyGen flags
     (log (EvCacheGet (TlfID kmd) keyGen) s)).1 = inr k.

(** [raises P m]: every error [m] ends with is in [P]. *)
Definition raises {S A} (P : error → Prop) (m : M S A) : Prop :=
  ∀ s e s', m s = (inl e, s') → P e.

(** The contract of the metadata view on
    [TLFCryptKeyNotPerDeviceEncrypted] (spec, metadata view): it is the
    outcome for historic generations, so never for the latest one; and it
    is the metadata's own outcome, which no other collaborator reports. *)
Record NotPerDeviceIsHistoric {MD} `{KeyMetadata MD} (w : World MD) (kmd : MD)
    : Prop := {
  latest_per_device : ∀ u k e,
    GetTLFCryptKeyParams kmd (LatestKeyGeneration kmd) u k = inl e →
    isNotPerDeviceEncrypted e = false;
  historic_walk : ∀ g key e,
    GetHistoricTLFCryptKey kmd g key = inl e → isNotPerDeviceEncrypted e = false;
  identity_user : ∀ e,
    GetCurrentUserInfo w = inl e → isNotPerDeviceEncrypted e = false;
  identity_keys : ∀ u e,
    GetCryptPublicKeys w u = inl e → isNotPerDeviceEncrypted e = false;
  identity_device : ∀ e,
    GetCurrentCryptPublicKey w = inl e → isNotPerDeviceEncrypted e = false;
  rekey_read : ∀ e g u n,
    isNotPerDeviceEncrypted (makeRekeyReadError w e kmd g u n) = false;
  crypto_any : ∀ keys pp e,
    DecryptTLFCryptKeyClientHalfAny w keys pp = inl e →
    isNotPerDeviceEncrypted e = false;
  crypto_one : ∀ p c e,
    DecryptTLFCryptKeyClientHalf w p c = inl e →
    isNotPerDeviceEncrypted e = false;
  key_server : ∀ i k e,
    GetTLFCryptKeyServerHalf w i k = inl e → isNotPerDeviceEncrypted e = false
}.

(** [RekeyIncompleteError] is the key manager's own signal: the metadata's
    re-wrapping and sealing and the key server's put do not answer with
    it. *)
Record RekeyIncompleteIsOwn {MD} `{RootMetadata MD} (w : World MD) : Prop := {
  update_not_incomplete : ∀ md g wk rk p q k e md',
    md_updateKeyGeneration md g wk rk p q k = (inl e, md') →
    isRekeyIncomplete e = false;
  put_not_incomplete : ∀ hs e,
    PutTLFCryptKeyServerHalves w hs = Some e → isRekeyIncomplete e = false;
  finalize_not_incomplete : ∀ md e md',
    finalizeRekey md = (Some e, md') → isRekeyIncomplete e = false
}.

(** ** More kinds of calls *)

(** The calls of the any-device path of [getTLFCryptKeyParams]. *)
Definition anyDeviceCall (e : event) : Prop :=
  match e with
  | EvGetCryptPublicKeys _ | EvDecryptClientHalfAny _ => True
  | _ => False
  end.


(** What [generateKeyMapForUsers] logs for one user. *)
Definition flushAndLoad (u : UID) : list event :=
  [EvFlushUser u; EvGetCryptPublicKeys u].

(** The three slices that the any-device loop of [getTLFCryptKeyParams]
    builds side by side describe the same devices: entry [j] of
    [serverHalfIDs] and of [publicKeyLookup] belong to the key of entry
    [j] of [keys]. *)
Definition aligned {MD} `{KeyMetadata MD} (kmd : MD) (keyGen : KeyGen)
    (uid : UID) (publicKeys : list CryptPublicKey)
    (keys : list EncryptedTLFCryptKeyClientAndEphemeral)
    (serverHalfIDs : list TLFCryptKeyServerHalfID)
    (publicKeyLookup : list Z) : Prop :=
  length serverHalfIDs = length keys ∧
  length publicKeyLookup = length keys ∧
  ∀ (j : nat) key, keys !! j = Some key →
    ∃ sid idx,
      serverHalfIDs !! j = Some sid ∧ publicKeyLookup !! j = Some idx ∧
      lookupZ publicKeys idx = Some (PubKey key) ∧
      GetTLFCryptKeyParams kmd keyGen uid (PubKey key)
      = inr (EPubKey key, ClientHalf key, sid, true).

(** ** The calls of [Rekey] *)

(** What the body of [Rekey] calls itself, apart from the key lookups
    it delegates to [getTLFCryptKey]. *)
Definition bodyCall (e : event) : Prop :=
  match e with
  | EvGetCurrentUserInfo | EvResolveAgain | EvResolveAgainForUser _
  | EvGetLatestHandle | EvUpdateFromTlfHandle _
  | EvFlushUser _ | EvGetCryptPublicKeys _ | EvIdentify _
  | EvMakeRandomTLFEphemeralKeys | EvPromoteReader _
  | EvUpdateKeyGeneration _ _ _ | EvPutServerHalves _
  | EvDecryptMDPrivateData | EvSetPrivateData
  | EvNotify | EvRevokeRemovedDevices _ | EvDeleteServerHalf _ _ _
  | EvMakeRandomTLFKeys | EvAddKeyGeneration _ | EvSetTLFPrivateKey => True
  | _ => False
  end.


(** All that [Rekey] calls on a public folder. *)
Definition publicRekeyCall (e : event) : Prop :=
  match e with
  | EvGetCurrentUserInfo | EvResolveAgain | EvGetLatestHandle
  | EvUpdateFromTlfHandle _ => True
  | _ => False
  end.




(** ** A metadata object whose handle update fails

    [StubbornMD] behaves as the [SampleMD] inside, except that
    [updateFromTlfHandle] answers with an error and changes nothing. *)
Record StubbornMD := { inner : SampleMD }.

Definition stubborn {A} (r : A * SampleMD) : A * StubbornMD :=
  (r.1, {| inner := r.2 |}).

Global Instance StubbornMD_KeyMetadata : KeyMetadata StubbornMD := {|
  TlfID md := TlfID (inner md);
  LatestKeyGeneration md := LatestKeyGeneration (inner md);
  GetTLFCryptKeyParams md := GetTLFCryptKeyParams (inner md);
  GetHistoricTLFCryptKey md := GetHistoricTLFCryptKey (inner md);
  StoresHistoricTLFCryptKeys md := StoresHistoricTLFCryptKeys (inner md)
|}.

Global Instance StubbornMD_RootMetadata : RootMetadata StubbornMD := {|
  rmd_KeyMetadata := StubbornMD_KeyMetadata;
  GetTlfHandle md := GetTlfHandle (inner md);
  IsReadable md := IsReadable (inner md);
  GetSerializedPrivateMetadata md := GetSerializedPrivateMetadata (inner md);
  getUserDeviceKeyInfoMaps md := getUserDeviceKeyInfoMaps (inner md);
  promoteReader md u := stubborn (promoteReader (inner md) u);
  md_updateKeyGeneration md g wKeys rKeys ePub ePriv key :=
    stubborn (md_updateKeyGeneration (inner md) g wKeys rKeys ePub ePriv key);
  AddKeyGeneration md prev curr pub :=
    stubborn (AddKeyGeneration (inner md) prev curr pub);
  revokeRemovedDevices md wKeys rKeys :=
    stubborn (revokeRemovedDevices (inner md) wKeys rKeys);
  finalizeRekey md := stubborn (finalizeRekey (inner md));
  updateFromTlfHandle md h := (Some (ErrorString "handle conflict"), md);
  set_data md pmd := {| inner := set_data (inner md) pmd |};
  set_TLFPrivateKey md pk := {| inner := set_TLFPrivateKey (inner md) pk |}
|}.

(** alice's world again, for a [StubbornMD]. *)
Definition stubbornWorld : World StubbornMD := {|
  GetCurrentUserInfo := inr ("alice", "alice");
  GetCryptPublicKeys u := inr (devices1 u);
  GetCurrentCryptPublicKey := inr "A1";
  identifyUserList _ _ := None;
  ResolveAgain h := inr h;
  ResolveAgainForUser h _ := inr h;
  makeRekeyReadError e _ _ _ _ := ErrorString "rekey needed";
  DecryptTLFCryptKeyClientHalfAny keys _ :=
    match keys with
    | [] => inl NoSecretKeyError
    | k :: _ => inr (ClientHalf k, 0)
    end;
  DecryptTLFCryptKeyClientHalf _ enc := inr enc;
  MakeRandomTLFEphemeralKeys := (1%N, 2%N);
  MakeRandomTLFKeys := inr (3%N, 4%N, 77%N);
  GetTLFCryptKeyServerHalf _ _ := inr 5%N;
  PutTLFCryptKeyServerHalves _ := None;
  DeleteTLFCryptKeyServerHalf _ _ _ := None;
  GetLatestHandleForTLF _ := None;
  handle_Equals h1 h2 := inr (bool_decide (h1 = h2));
  WithUpdatedConflictInfo h _ := inr h;
  decryptMDPrivateData _ _ _ _ := Decrypted (inr "")
|}.

(** ** A metadata object whose private data is still encrypted

    [SealedMD] behaves as the [SampleMD] inside, except that it is not
    readable and carries serialized private metadata. *)
Record SealedMD := { sealed : SampleMD }.

Definition seal {A} (r : A * SampleMD) : A * SealedMD :=
  (r.1, {| sealed := r.2 |}).

Global Instance SealedMD_KeyMetadata : KeyMetadata SealedMD := {|
  TlfID md := TlfID (sealed md);
  LatestKeyGeneration md := LatestKeyGeneration (sealed md);
  GetTLFCryptKeyParams md := GetTLFCryptKeyParams (sealed md);
  GetHistoricTLFCryptKey md := GetHistoricTLFCryptKey (sealed md);
  StoresHistoricTLFCryptKeys md := StoresHistoricTLFCryptKeys (sealed md)
|}.

Global Instance SealedMD_RootMetadata : RootMetadata SealedMD := {|
  rmd_KeyMetadata := SealedMD_KeyMetadata;
  GetTlfHandle md := GetTlfHandle (sealed md);
  IsReadable md := false;
  GetSerializedPrivateMetadata md := "ciphertext";
  getUserDeviceKeyInfoMaps md := getUserDeviceKeyInfoMaps (sealed md);
  promoteReader md u := seal (promoteReader (sealed md) u);
  md_updateKeyGeneration md g wKeys rKeys ePub ePriv key :=
    seal (md_updateKeyGeneration (sealed md) g wKeys rKeys ePub ePriv key);
  AddKeyGeneration md prev curr pub :=
    seal (AddKeyGeneration (sealed md) prev curr pub);
  revokeRemovedDevices md wKeys rKeys :=
    seal (revokeRemovedDevices (sealed md) wKeys rKeys);
  finalizeRekey md := seal (finalizeRekey (sealed md));
  updateFromTlfHandle md h := seal (updateFromTlfHandle (sealed md) h);
  set_data md pmd := {| sealed := set_data (sealed md) pmd |};
  set_TLFPrivateKey md pk := {| sealed := set_TLFPrivateKey (sealed md) pk |}
|}.

(** alice's world for a [SealedMD]; she has enrolled a second device
    [A2].  [decryptMDPrivateData] asks the key manager for the key of the
    metadata it is to decrypt, and decrypts when it gets one. *)
Definition sealedWorld : World SealedMD := {|
  GetCurrentUserInfo := inr ("alice", "alice");
  GetCryptPublicKeys u :=
    inr (if String.eqb u "alice" then ["A1"; "A2"] else devices1 u);
  GetCurrentCryptPublicKey := inr "A1";
  identifyUserList _ _ := None;
  ResolveAgain h := inr h;
  ResolveAgainForUser h _ := inr h;
  makeRekeyReadError e _ _ _ _ := ErrorString "rekey needed";
  DecryptTLFCryptKeyClientHalfAny keys _ :=
    match keys with
    | [] => inl NoSecretKeyError
    | k :: _ => inr (ClientHalf k, 0)
    end;
  DecryptTLFCryptKeyClientHalf _ enc := inr enc;
  MakeRandomTLFEphemeralKeys := (1%N, 2%N);
  MakeRandomTLFKeys := inr (3%N, 4%N, 77%N);
  GetTLFCryptKeyServerHalf _ _ := inr 5%N;
  PutTLFCryptKeyServerHalves _ := None;
  DeleteTLFCryptKeyServerHalf _ _ _ := None;
  GetLatestHandleForTLF _ := None;
  handle_Equals h1 h2 := inr (bool_decide (h1 = h2));
  WithUpdatedConflictInfo h _ := inr h;
  decryptMDPrivateData _ _ rmdToDecrypt rmdWithKeys :=
    NeedsKey rmdToDecrypt rmdWithKeys (fun k =>
      match k with
      | inr _ => Decrypted (inr "plaintext")
      | inl e => Decrypted (inl e)
      end)
|}.

(** A private folder at generation 1 with alice's first device only. *)
Definition sealedMD : SealedMD := {| sealed := {|
  s_id := mk_tlf_ID "priv" false; s_latest := 1; s_v3 := false;
  s_handle := handle_of ["alice"] [];
  s_writers := {[ "alice" := {[ "A1" := info 9 "hA1" ]} ]};
  s_readers := ∅; s_removal := []; s_finalize := None; s_privateKey := 0%N
|} |}.

(** * Block operations ([libkbfs/block_ops.go])

    [BlockOpsStandard.Ready] is the caller of
    [GetTLFCryptKeyForEncryption]: it encrypts a block under a key derived
    from the folder key.  [Delete] and [Archive] group block pointers by
    block ID for the block server.  The crypto layer, the codec and the
    block server live outside [block_ops.go] and are oracles here. *)

Definition kbfsblock_ID := string.
Definition BlockCryptKeyServerHalf := N.
Definition BlockCryptKey := N.

(** [ReadyBlockData]: the encoded block and the server half of its key. *)
Record ReadyBlockData := {
  buf : list Z;
  serverHalf : BlockCryptKeyServerHalf
}.

(** The errors [Ready] can end with: the key manager's, its own
    [TooLowByteCountError], or one of the crypto layer, the codec or the
    ID computation. *)
Inductive blockError :=
| KeyManagerError (e : error)
| TooLowByteCountError (ExpectedMinByteCount ByteCount : Z)
| BlockServiceError (msg : string).

(** What [Ready] works with besides the key manager.  A Go function
    whose first result is one of [Ready]'s named results gives that
    result also when it fails. *)
Record BlockWorld (Block EncryptedBlock : Type) := {
  MakeRandomBlockCryptKeyServerHalf : blockError + BlockCryptKeyServerHalf;
  UnmaskBlockCryptKey : BlockCryptKeyServerHalf → TLFCryptKey → BlockCryptKey;
  EncryptBlock : Block → BlockCryptKey → Z * EncryptedBlock * option blockError;
  Encode : EncryptedBlock → blockError + list Z;
  GetEncodedSize : ReadyBlockData → Z;
  MakePermanentID : list Z → kbfsblock_ID * option blockError;
  SetEncodedSize : Block → Z → Block
}.

Arguments MakeRandomBlockCryptKeyServerHalf {Block EncryptedBlock}.
Arguments UnmaskBlockCryptKey {Block EncryptedBlock}.
Arguments EncryptBlock {Block EncryptedBlock}.
Arguments Encode {Block EncryptedBlock}.
Arguments GetEncodedSize {Block EncryptedBlock}.
Arguments MakePermanentID {Block EncryptedBlock}.
Arguments SetEncodedSize {Block EncryptedBlock}.

(** The named results of [Ready]. *)
Record ReadyResult := mkReady {
  ready_id : kbfsblock_ID;
  ready_plainSize : Z;
  readyBlockData : ReadyBlockData;
  ready_err : option blockError
}.

(** The zero values [kbfsblock.ID{}] and [ReadyBlockData{}]. *)
Definition zeroID : kbfsblock_ID := "".
Definition zeroReadyBlockData : ReadyBlockData := {| buf := []; serverHalf := 0%N |}.

(** [uint32(n)] for an [int]. *)
Definition to_uint32 (n : Z) : Z := n mod 2 ^ 32.

Section BlockOps.
Context {MD : Type} `{KeyMetadata MD}.
Context {Block EncryptedBlock : Type}.
Variable w : World MD.
Variable bw : BlockWorld Block EncryptedBlock.

(** The body of [Ready], up to its [return]s: the named results as they
    stand then, the block, and the key manager's state. *)
Definition readyBody (kmd : MD) (block : Block) (s : KM)
    : ReadyResult * Block * KM :=
  match GetTLFCryptKeyForEncryption w kmd s with
  | (inl e, s') =>
      (mkReady zeroID 0 zeroReadyBlockData (Some (KeyManagerError e)), block, s')
  | (inr tlfCryptKey, s') =>
      match MakeRandomBlockCryptKeyServerHalf bw with
      | inl e => (mkReady zeroID 0 zeroReadyBlockData (Some e), block, s')
      | inr serverHalf =>
          let blockKey := UnmaskBlockCryptKey bw serverHalf tlfCryptKey in
          let '(plainSize, encryptedBlock, encErr) :=
            EncryptBlock bw block blockKey in
          match encErr with
          | Some e => (mkReady zeroID plainSize zeroReadyBlockData (Some e), block, s')
          | None =>
              match Encode bw encryptedBlock with
              | inl e =>
                  (mkReady zeroID plainSize zeroReadyBlockData (Some e), block, s')
              | inr buf =>
                  let data := {| buf := buf; serverHalf := serverHalf |} in
                  let encodedSize := GetEncodedSize bw data in
                  if encodedSize <? plainSize then
                    (mkReady zeroID plainSize data
                       (Some (TooLowByteCountError plainSize encodedSize)),
                     block, s')
                  else
                    let '(id, idErr) := MakePermanentID bw buf in
                    match idErr with
                    | Some e => (mkReady id plainSize data (Some e), block, s')
                    | None =>
                        (mkReady id plainSize data None,
                         SetEncodedSize bw block (to_uint32 encodedSize), s')
                    end
              end
          end
      end
  end.

(** The deferred function of [Ready]. *)
Definition readyDeferred (r : ReadyResult) : ReadyResult :=
  match ready_err r with
  | Some e => mkReady zeroID 0 zeroReadyBlockData (Some e)
  | None => r
  end.

Definition Ready (kmd : MD) (block : Block) (s : KM)
    : ReadyResult * Block * KM :=
  let '(r, block', s') := readyBody kmd block s in
  (readyDeferred r, block', s').

End BlockOps.

(** A block pointer; of its fields, [Delete] and [Archive] read the ID
    and the context. *)
Definition BlockContext := string.
Record BlockPointer := {
  ptr_ID : kbfsblock_ID;
  ptr_KeyGen : KeyGen;
  ptr_Context : BlockContext
}.

(** [kbfsblock.ContextMap], and the loop that [Delete] and [Archive]
    share: [contexts[ptr.ID] = append(contexts[ptr.ID], ptr.Context)]. *)
Abbreviation ContextMap := (gmap kbfsblock_ID (list BlockContext)).

Definition addContext (contexts : ContextMap) (ptr : BlockPointer) : ContextMap :=
  <[ptr_ID ptr := default [] (contexts !! ptr_ID ptr) ++ [ptr_Context ptr]]>
    contexts.

Definition makeContexts (ptrs : list BlockPointer) : ContextMap :=
  fold_left addContext ptrs ∅.

(** The block server, for one call. *)
Record BlockServer := {
  RemoveBlockReferences :
    tlf_ID → ContextMap → gmap kbfsblock_ID Z * option blockError;
  ArchiveBlockReferences : tlf_ID → ContextMap → option blockError
}.

Definition Delete (bserver : BlockServer) (tlfID : tlf_ID)
    (ptrs : list BlockPointer) : gmap kbfsblock_ID Z * option blockError :=
  RemoveBlockReferences bserver tlfID (makeContexts ptrs).

Definition Archive (bserver : BlockServer) (tlfID : tlf_ID)
    (ptrs : list BlockPointer) : option blockError :=
  ArchiveBlockReferences bserver tlfID (makeContexts ptrs).

(** A sample crypto layer and codec: a block is a list of bytes, it is
    encrypted by adding the key to every byte, and encoded with a length
    prefix; [short] makes the reported encoded size fall below the plain
    size. *)
Definition sampleBlockWorld (short : bool) : BlockWorld (list Z * Z) (list Z) := {|
  MakeRandomBlockCryptKeyServerHalf := inr 6%N;
  UnmaskBlockCryptKey half key := N.lxor half key;
  EncryptBlock block key :=
    (Z.of_nat (length block.1), map (fun b => b + Z.of_N key) block.1, None);
  Encode enc := inr (Z.of_nat (length enc) :: enc);
  GetEncodedSize data := if short then 0 else Z.of_nat (length (buf data));
  MakePermanentID buf := ("id", None);
  SetEncodedSize block n := (block.1, n)
|}.

(** * The Keybase service's user caches ([libkbfs/keybase_service_base.go])

    [generateKeyMapForUsers] flushes a user from the local cache of
    [KeybaseServiceBase] before it asks for the user's keys.  This part
    embeds that cache: the cached user infos and unverified keys, the
    functions that fill and invalidate them, and the filtering of the
    keys that come from the service.  The mutexes are left out (one
    goroutine at a time); the RPC clients and [libkb] are oracles, every
    RPC is logged. *)

Definition VerifyingKey := KID.
(** [keybase1.KeybaseTime]: Unix time and Merkle chain sequence number. *)
Definition KeybaseTime := (Z * Z)%type.

(** [keybase1.PublicKey], the fields that this file reads. *)
Record PublicKey := {
  pk_KID : KID;
  PGPFingerprint : string;
  IsSibkey : bool;
  ParentID : string;
  DeviceDescription : string
}.

Record RevokedKey := { rk_Key : PublicKey; rk_Time : KeybaseTime }.

Record UserPlusKeys := {
  upk_Uid : UID;
  upk_Username : string;
  DeviceKeys : list PublicKey;
  RevokedDeviceKeys : list RevokedKey
}.

Record UserInfo := {
  ui_Name : NormalizedUsername;
  ui_UID : UID;
  VerifyingKeys : list VerifyingKey;
  CryptPublicKeys : list CryptPublicKey;
  KIDNames : gmap KID string;
  RevokedVerifyingKeys : gmap VerifyingKey KeybaseTime;
  RevokedCryptPublicKeys : gmap CryptPublicKey KeybaseTime
}.

(** [UserInfo{}]. *)
Definition zeroUserInfo : UserInfo := {|
  ui_Name := ""; ui_UID := ""; VerifyingKeys := []; CryptPublicKeys := [];
  KIDNames := ∅; RevokedVerifyingKeys := ∅; RevokedCryptPublicKeys := ∅
|}.

Record SessionInfo := {
  si_Name : NormalizedUsername;
  si_UID : UID;
  si_CryptPublicKey : CryptPublicKey;
  si_VerifyingKey : VerifyingKey
}.

Definition zeroSessionInfo : SessionInfo :=
  {| si_Name := ""; si_UID := ""; si_CryptPublicKey := ""; si_VerifyingKey := "" |}.

(** The RPCs and calls into the rest of KBFS, as logged. *)
Inductive rpc :=
| RpcLoadUserPlusKeys (uid : UID)
| RpcLoadAllPublicKeysUnverified (uid : UID)
| RpcCheckForRekeys.

(** What is outside: [libkb]'s key import and KID parser, the username
    normalisation, the user client, and the order in which Go ranges over
    the map of parents. *)
Record ServiceWorld := {
  ImportKeypairFromKID : KID → error + KID;
  KIDFromStringChecked : string → error + KID;
  NewNormalizedUsername : string → NormalizedUsername;
  client_LoadUserPlusKeys : UID → error + UserPlusKeys;
  client_LoadAllPublicKeysUnverified : UID → error + list PublicKey;
  rangeParents : gmap KID KID → list (KID * KID)
}.

(** [len(s) > 0], [s != ""]. *)
Definition nonEmptyString (s : string) : bool := negb (String.eqb s "").

(** [processKey]: [acc] is what the two callbacks write to. *)
Definition processKey {A} (sw : ServiceWorld) (publicKey : PublicKey)
    (addVerifyingKey addCryptPublicKey : KID → A → A)
    (acc : A) (kidNames : gmap KID string) (parents : gmap KID KID)
    : error + (A * gmap KID string * gmap KID KID) :=
  if nonEmptyString (PGPFingerprint publicKey) then
    inr (acc, kidNames, parents)
  else
    match ImportKeypairFromKID sw (pk_KID publicKey) with
    | inl err => inl err
    | inr key =>
        let acc := if IsSibkey publicKey then addVerifyingKey key acc
                   else addCryptPublicKey key acc in
        let kidNames :=
          if nonEmptyString (DeviceDescription publicKey)
          then <[pk_KID publicKey := DeviceDescription publicKey]> kidNames
          else kidNames in
        if nonEmptyString (ParentID publicKey) then
          match KIDFromStringChecked sw (ParentID publicKey) with
          | inl err => inl err
          | inr parentKID =>
              inr (acc, kidNames, <[pk_KID publicKey := parentKID]> parents)
          end
        else inr (acc, kidNames, parents)
    end.

(** One step of the loop of [updateKIDNamesFromParents]. *)
Definition nameFromParent (kidNames : gmap KID string) (entry : KID * KID)
    : gmap KID string :=
  let '(kid, parent) := entry in
  match kidNames !! kid with
  | Some _ => kidNames
  | None =>
      match kidNames !! parent with
      | Some parentName => <[kid := parentName]> kidNames
      | None => kidNames
      end
  end.

(** [updateKIDNamesFromParents], ranging over [parents] in [order]. *)
Definition updateKIDNamesFromParents (order : list (KID * KID))
    (kidNames : gmap KID string) : gmap KID string :=
  fold_left nameFromParent order kidNames.

(** The loop of [filterKeys]. *)
Fixpoint filterKeysLoop (sw : ServiceWorld) (keys : list PublicKey)
    (acc : list VerifyingKey * list CryptPublicKey)
    (kidNames : gmap KID string) (parents : gmap KID KID)
    : error + (list VerifyingKey * list CryptPublicKey *
               gmap KID string * gmap KID KID) :=
  match keys with
  | [] => inr (acc, kidNames, parents)
  | publicKey :: rest =>
      match processKey sw publicKey
              (fun key a => (a.1 ++ [key], a.2))
              (fun key a => (a.1, a.2 ++ [key]))
              acc kidNames parents with
      | inl err => inl err
      | inr (acc', kidNames', parents') =>
          filterKeysLoop sw rest acc' kidNames' parents'
      end
  end.

Definition filterKeys (sw : ServiceWorld) (keys : list PublicKey)
    : error + (list VerifyingKey * list CryptPublicKey * gmap KID string) :=
  match filterKeysLoop sw keys ([], []) ∅ ∅ with
  | inl err => inl err
  | inr (verifyingKeys, cryptPublicKeys, kidNames, parents) =>
      inr (verifyingKeys, cryptPublicKeys,
           updateKIDNamesFromParents (rangeParents sw parents) kidNames)
  end.

(** The loop of [filterRevokedKeys]. *)
Fixpoint filterRevokedKeysLoop (sw : ServiceWorld) (keys : list RevokedKey)
    (acc : gmap VerifyingKey KeybaseTime * gmap CryptPublicKey KeybaseTime)
    (kidNames : gmap KID string) (parents : gmap KID KID)
    : error + (gmap VerifyingKey KeybaseTime * gmap CryptPublicKey KeybaseTime *
               gmap KID string * gmap KID KID) :=
  match keys with
  | [] => inr (acc, kidNames, parents)
  | revokedKey :: rest =>
      match processKey sw (rk_Key revokedKey)
              (fun key a => (<[key := rk_Time revokedKey]> a.1, a.2))
              (fun key a => (a.1, <[key := rk_Time revokedKey]> a.2))
              acc kidNames parents with
      | inl err => inl err
      | inr (acc', kidNames', parents') =>
          filterRevokedKeysLoop sw rest acc' kidNames' parents'
      end
  end.

Definition filterRevokedKeys (sw : ServiceWorld) (keys : list RevokedKey)
    : error + (gmap VerifyingKey KeybaseTime * gmap CryptPublicKey KeybaseTime *
               gmap KID string) :=
  match filterRevokedKeysLoop sw keys (∅, ∅) ∅ ∅ with
  | inl err => inl err
  | inr (verifyingKeys, cryptPublicKeys, kidNames, parents) =>
      inr (verifyingKeys, cryptPublicKeys,
           updateKIDNamesFromParents (rangeParents sw parents) kidNames)
  end.

(** The fields of [KeybaseServiceBase] that the caches use, and the log
    of the RPCs. *)
Record Service := mkService {
  cachedCurrentSession : SessionInfo;
  userCache : gmap UID UserInfo;
  userCacheUnverifiedKeys : gmap UID (list PublicKey);
  rpcs : list rpc
}.

Definition logRpc (r : rpc) (k : Service) : Service :=
  mkService (cachedCurrentSession k) (userCache k)
    (userCacheUnverifiedKeys k) (rpcs k ++ [r]).

Definition getCachedCurrentSession (k : Service) : SessionInfo :=
  cachedCurrentSession k.

Definition setCachedCurrentSession (s : SessionInfo) (k : Service) : Service :=
  mkService s (userCache k) (userCacheUnverifiedKeys k) (rpcs k).

(** Go's [k.userCache[uid]] is the zero value when [uid] has no entry. *)
Definition getCachedUserInfo (k : Service) (uid : UID) : UserInfo :=
  default zeroUserInfo (userCache k !! uid).

Definition setCachedUserInfo (uid : UID) (info : UserInfo) (k : Service)
    : Service :=
  mkService (cachedCurrentSession k)
    (if nonEmptyString (ui_Name info) then <[uid := info]> (userCache k)
     else delete uid (userCache k))
    (userCacheUnverifiedKeys k) (rpcs k).

Definition getCachedUnverifiedKeys (k : Service) (uid : UID)
    : option (list PublicKey) :=
  userCacheUnverifiedKeys k !! uid.

Definition setCachedUnverifiedKeys (uid : UID) (pk : list PublicKey)
    (k : Service) : Service :=
  mkService (cachedCurrentSession k) (userCache k)
    (<[uid := pk]> (userCacheUnverifiedKeys k)) (rpcs k).

Definition clearCachedUnverifiedKeys (uid : UID) (k : Service) : Service :=
  mkService (cachedCurrentSession k) (userCache k)
    (delete uid (userCacheUnverifiedKeys k)) (rpcs k).

Definition clearCaches (k : Service) : Service :=
  mkService zeroSessionInfo ∅ ∅ (rpcs k).

Definition processUserPlusKeys (sw : ServiceWorld) (upk : UserPlusKeys)
    (k : Service) : (error + UserInfo) * Service :=
  match filterKeys sw (DeviceKeys upk) with
  | inl err => (inl err, k)
  | inr (verifyingKeys, cryptPublicKeys, kidNames) =>
      match filterRevokedKeys sw (RevokedDeviceKeys upk) with
      | inl err => (inl err, k)
      | inr (revokedVerifyingKeys, revokedCryptPublicKeys, revokedKidNames) =>
          (* [kidNames[k] = v] for every revoked name *)
          let kidNames := revokedKidNames ∪ kidNames in
          let u := {|
            ui_Name := NewNormalizedUsername sw (upk_Username upk);
            ui_UID := upk_Uid upk;
            VerifyingKeys := verifyingKeys;
            CryptPublicKeys := cryptPublicKeys;
            KIDNames := kidNames;
            RevokedVerifyingKeys := revokedVerifyingKeys;
            RevokedCryptPublicKeys := revokedCryptPublicKeys
          |} in
          (inr u, setCachedUserInfo (upk_Uid upk) u k)
      end
  end.

Definition LoadUserPlusKeys (sw : ServiceWorld) (uid : UID) (k : Service)
    : (error + UserInfo) * Service :=
  let cachedUserInfo := getCachedUserInfo k uid in
  if nonEmptyString (ui_Name cachedUserInfo) then (inr cachedUserInfo, k)
  else
    let k := logRpc (RpcLoadUserPlusKeys uid) k in
    match client_LoadUserPlusKeys sw uid with
    | inl err => (inl err, k)
    | inr res => processUserPlusKeys sw res k
    end.

Definition LoadUnverifiedKeys (sw : ServiceWorld) (uid : UID) (k : Service)
    : (error + list PublicKey) * Service :=
  match getCachedUnverifiedKeys k uid with
  | Some keys => (inr keys, k)
  | None =>
      let k := logRpc (RpcLoadAllPublicKeysUnverified uid) k in
      match client_LoadAllPublicKeysUnverified sw uid with
      | inl err => (inl err, k)
      | inr keys => (inr keys, setCachedUnverifiedKeys uid keys k)
      end
  end.

Definition FlushUserFromLocalCache (uid : UID) (k : Service) : Service :=
  setCachedUserInfo uid zeroUserInfo k.

Definition FlushUserUnverifiedKeysFromLocalCache (uid : UID) (k : Service)
    : Service :=
  clearCachedUnverifiedKeys uid k.

(** [KeyfamilyChanged]; the error of [CheckForRekeys] is ignored. *)
Definition KeyfamilyChanged (uid : UID) (k : Service) : Service :=
  let k := setCachedUserInfo uid zeroUserInfo k in
  let k := clearCachedUnverifiedKeys uid k in
  if String.eqb (si_UID (getCachedCurrentSession k)) uid
  then logRpc RpcCheckForRekeys k
  else k.

(** [GetTLFCryptKeys], lines 666-671: the keys of all generations are
    numbered from [FirstValidKeyGen]. *)
Record CryptKey := { KeyGeneration : Z; ck_Key : TLFCryptKey }.

Fixpoint numberCryptKeys (i : Z) (keys : list TLFCryptKey) : list CryptKey :=
  match keys with
  | [] => []
  | key :: rest =>
      {| KeyGeneration := FirstValidKeyGen + i; ck_Key := key |}
      :: numberCryptKeys (i + 1) rest
  end.

(** ** A sample service *)

Definition deviceKey (kid : KID) (sibkey : bool) (parent name : string)
    : PublicKey :=
  {| pk_KID := kid; PGPFingerprint := ""; IsSibkey := sibkey;
     ParentID := parent; DeviceDescription := name |}.

Definition aliceKeys : UserPlusKeys := {|
  upk_Uid := "alice"; upk_Username := "Alice";
  DeviceKeys := [deviceKey "S1" true "" "laptop";
                 deviceKey "A1" false "S1" "";
                 {| pk_KID := "P1"; PGPFingerprint := "f00d"; IsSibkey := true;
                    ParentID := ""; DeviceDescription := "pgp" |}];
  RevokedDeviceKeys :=
    [{| rk_Key := deviceKey "A0" false "" "old phone"; rk_Time := (10, 3) |}]
|}.

Definition sampleService : ServiceWorld := {|
  ImportKeypairFromKID kid :=
    if String.eqb kid "bad" then inl (ErrorString "bad KID") else inr kid;
  KIDFromStringChecked s := inr s;
  NewNormalizedUsername s := if String.eqb s "Alice" then "alice" else s;
  client_LoadUserPlusKeys uid :=
    if String.eqb uid "alice" then inr aliceKeys
    else inl (ErrorString "no such user");
  client_LoadAllPublicKeysUnverified uid := inr [];
  rangeParents parents := map_to_list parents
|}.

Definition Service0 : Service := mkService zeroSessionInfo ∅ ∅ [].

(** ** Reading the keys of a user *)

(** The KID that [processKey] imports for [publicKey], if it is not a PGP
    key and the import succeeds. *)
Definition importedKID (sw : ServiceWorld) (publicKey : PublicKey)
    : option KID :=
  if nonEmptyString (PGPFingerprint publicKey) then None
  else match ImportKeypairFromKID sw (pk_KID publicKey) with
       | inr key => Some key
       | inl _ => None
       end.

Definition verifyingKeyOf (sw : ServiceWorld) (publicKey : PublicKey)
    : option VerifyingKey :=
  if IsSibkey publicKey then importedKID sw publicKey else None.

Definition cryptPublicKeyOf (sw : ServiceWorld) (publicKey : PublicKey)
    : option CryptPublicKey :=
  if IsSibkey publicKey then None else importedKID sw publicKey.

(** [processKey] fails on [publicKey] with [err]. *)
Definition keyFails (sw : ServiceWorld) (publicKey : PublicKey) (err : error)
    : Prop :=
  nonEmptyString (PGPFingerprint publicKey) = false ∧
  match ImportKeypairFromKID sw (pk_KID publicKey) with
  | inl importErr => err = importErr
  | inr _ =>
      nonEmptyString (ParentID publicKey) = true ∧
      KIDFromStringChecked sw (ParentID publicKey) = inl err
  end.

(** ** Runs of the resolver and of the diff *)

(** [keys] are what the resolver returns, one call after the other, for
    the generations from [g] upwards, started in [s] and ending in [s']:
    each call runs in the state that the call before it left. *)
Fixpoint resolvedInOrder {MD} `{KeyMetadata MD} (w : World MD) (kmd : MD)
    (g : KeyGen) (keys : list TLFCryptKey) (s s' : KM) : Prop :=
  match keys with
  | [] => s' = s
  | key :: rest =>
      ∃ s1, getTLFCryptKeyUsingCurrentDevice w kmd g true s = (inr key, s1) ∧
            resolvedInOrder w kmd (g + 1) rest s1 s'
  end.

(** A collaborator answers with the error [e] somewhere else than in the
    key parameters of a historic generation: the metadata for the latest
    generation or in the historic walk to [keyGen], the identity service,
    the crypto layer or the key server. *)
Definition answeredElsewhere {MD} `{KeyMetadata MD} (w : World MD) (kmd : MD)
    (keyGen : KeyGen) (e : error) : Prop :=
  (∃ u k, GetTLFCryptKeyParams kmd (LatestKeyGeneration kmd) u k = inl e) ∨
  (∃ latestKey, GetHistoricTLFCryptKey kmd keyGen latestKey = inl e) ∨
  GetCurrentUserInfo w = inl e ∨
  (∃ u, GetCryptPublicKeys w u = inl e) ∨
  GetCurrentCryptPublicKey w = inl e ∨
  (∃ cause g u n, makeRekeyReadError w cause kmd g u n = e) ∨
  (∃ keys promptPaper,
     DecryptTLFCryptKeyClientHalfAny w keys promptPaper = inl e) ∨
  (∃ ePublicKey half, DecryptTLFCryptKeyClientHalf w ePublicKey half = inl e) ∨
  (∃ id k, GetTLFCryptKeyServerHalf w id k = inl e).


(** What lines 443-564 of [Rekey] work out on a folder that has a valid
    generation, in the states in which the calls run: the caller and the
    handle, the expected writer and reader keys, and the key bundles of
    the latest generation. *)
Definition diffInputs {MD} `{RootMetadata MD} (w : World MD)
    (promptPaper : bool) (s : Mem MD) (c : rekeyCaller)
    (wKeys rKeys : UserDevicePublicKeys) (rDkim wDkim : UserDeviceKeyInfoMap)
    : Prop :=
  ∃ s0 k1 k2,
    rekeyResolve w promptPaper s = (inr c, s0) ∧
    generateKeyMapForUsers w (ResolvedWriters (resolvedHandle c)) (mem_km s0)
    = (inr wKeys, k1) ∧
    generateKeyMapForUsers w (ResolvedReaders (resolvedHandle c)) k1
    = (inr rKeys, k2) ∧
    getUserDeviceKeyInfoMaps (mem_md s) (LatestKeyGeneration (mem_md s))
    = inr (rDkim, wDkim).

(** [wRemoved] and [rRemoved] of lines 563-564, together. *)
Definition removedUsers (wKeys rKeys : UserDevicePublicKeys)
    (rDkim wDkim : UserDeviceKeyInfoMap) : gset UID :=
  usersWithRemovedDevices wDkim wKeys ∪ usersWithRemovedDevices rDkim rKeys.

(** ** More sample collaborators *)

(** A world like [sampleWorld], for any metadata object, in which the key
    server answers every request for a server half with [serverHalf]. *)
Definition worldOf {MD} (me : NormalizedUsername * UID)
    (devices : UID → list CryptPublicKey) (current : CryptPublicKey)
    (serverHalf : error + TLFCryptKeyServerHalf) : World MD := {|
  GetCurrentUserInfo := inr me;
  GetCryptPublicKeys u := inr (devices u);
  GetCurrentCryptPublicKey := inr current;
  identifyUserList _ _ := None;
  ResolveAgain h := inr h;
  ResolveAgainForUser h _ := inr h;
  makeRekeyReadError e _ _ _ _ := ErrorString "rekey needed";
  DecryptTLFCryptKeyClientHalfAny keys _ :=
    match keys with
    | [] => inl NoSecretKeyError
    | k :: _ => inr (ClientHalf k, 0)
    end;
  DecryptTLFCryptKeyClientHalf _ enc := inr enc;
  MakeRandomTLFEphemeralKeys := (1%N, 2%N);
  MakeRandomTLFKeys := inr (3%N, 4%N, 77%N);
  GetTLFCryptKeyServerHalf _ _ := serverHalf;
  PutTLFCryptKeyServerHalves _ := None;
  DeleteTLFCryptKeyServerHalf _ _ _ := None;
  GetLatestHandleForTLF _ := None;
  handle_Equals h1 h2 := inr (bool_decide (h1 = h2));
  WithUpdatedConflictInfo h _ := inr h;
  decryptMDPrivateData _ _ _ _ := Decrypted (inr "")
|}.

(** A metadata view without any per-device entry: it answers
    [TLFCryptKeyNotPerDeviceEncrypted] for every generation, the latest
    one included. *)
Record NoDeviceMD := { bare : SampleMD }.

Global Instance NoDeviceMD_KeyMetadata : KeyMetadata NoDeviceMD := {|
  TlfID md := s_id (bare md);
  LatestKeyGeneration md := s_latest (bare md);
  GetTLFCryptKeyParams md g u k :=
    inl (TLFCryptKeyNotPerDeviceEncrypted (s_id (bare md)) g);
  GetHistoricTLFCryptKey md := GetHistoricTLFCryptKey (bare md);
  StoresHistoricTLFCryptKeys md := true
|}.

(** A folder of alice (writer), bob and carol (readers) at generation 3.
    The bundle still has carol's device [C0], which she has revoked; it
    does not have bob's new device [B2] yet. *)
Definition revokedReaderMD : SampleMD := {|
  s_id := mk_tlf_ID "priv" false; s_latest := 3; s_v3 := false;
  s_handle := handle_of ["alice"] ["bob"; "carol"];
  s_writers := {[ "alice" := {[ "A1" := info 9 "hA1" ]} ]};
  s_readers := {[ "bob" := {[ "B1" := info 10 "hB1" ]};
                  "carol" := {[ "C1" := info 11 "hC1"; "C0" := info 12 "hC0" ]} ]};
  s_removal := []; s_finalize := None; s_privateKey := 0%N
|}.

Definition devices4 (u : UID) : list CryptPublicKey :=
  if String.eqb u "carol" then ["C1"]
  else if String.eqb u "bob" then ["B1"; "B2"] else devices1 u.

Definition carolWorldDown : World SampleMD :=
  worldOf ("carol", "carol") devices4 "C1"
    (inl (ErrorString "key server down")).

(** What carol's rekey of [revokedReaderMD] finds: bob has a new device,
    her own device [C0] is gone, and she has no new device herself. *)
Definition carolCaller : rekeyCaller := {|
  username := "carol"; uid := "carol"; isWriter := false;
  resolvedHandle := handle_of ["alice"] ["bob"; "carol"];
  handleChanged := false; currKeyGen := 3
|}.

Definition carolPlan : rekeyPlan := {|
  wKeys := {[ "alice" := {[ "A1" ]} ]};
  rKeys := {[ "bob" := {[ "B1"; "B2" ]}; "carol" := {[ "C1" ]} ]};
  addNewReaderDevice := true;
  addNewWriterDevice := false;
  newReaderUsers := {[ "bob"; "carol" ]};
  newWriterUsers := ∅;
  promotedReaders := ∅;
  addNewReaderDeviceForSelf := false;
  incKeyGen := true
|}.
Section MonadLemmas.
Context {S : Type}.

Lemma bind_run {A B} (m : M S A) (k : A → M S B) s :
  (m ≫= k) s = match m s with
               | (inl e, s') => (inl e, s')
               | (inr a, s') => k a s'
               end.
Proof. reflexivity. Qed.

Lemma steady_ret {A X} (f : S → X) (a : A) : steady f (mret a : M S A).
Proof. intros s. reflexivity. Qed.

Lemma steady_fail {A X} (f : S → X) e : steady f (fail e : M S A).
Proof. intros s. reflexivity. Qed.

Lemma steady_liftE {A X} (f : S → X) r : steady f (liftE r : M S A).
Proof. intros s. reflexivity. Qed.

Lemma steady_orFail {X} (f : S → X) o : steady f (orFail o : M S unit).
Proof. intros s. reflexivity. Qed.

Lemma steady_bind {A B X} (f : S → X) (m : M S A) (k : A → M S B) :
  steady f m → (∀ a, steady f (k a)) → steady f (m ≫= k).
Proof.
  intros Hm Hk s. rewrite bind_run. specialize (Hm s).
  destruct (m s) as [[e|a] s']; simpl in *; [done|].
  rewrite Hk. done.
Qed.

Lemma steady_try {A X} (f : S → X) (m : M S A) : steady f m → steady f (catch m).
Proof. intros Hm s. specialize (Hm s). unfold catch. by destruct (m s). Qed.

Lemma steady_forM {A X} (f : S → X) (l : list A) (body : A → M S unit) :
  (∀ x, steady f (body x)) → steady f (forM_ l body).
Proof.
  intros Hb. induction l as [|x l IH]; simpl.
  - apply steady_ret.
  - apply steady_bind; auto.
Qed.


Lemma raises_ret {A} P (a : A) : raises P (mret a : M S A).
Proof. intros s e s' Hr. discriminate Hr. Qed.

Lemma raises_fail {A} (P : error → Prop) e : P e → raises P (fail e : M S A).
Proof. intros HP s e' s' Hr. injection Hr as <- _. done. Qed.

Lemma raises_liftE {A} (P : error → Prop) (r : error + A) :
  (∀ e, r = inl e → P e) → raises P (liftE r : M S A).
Proof. intros HP s e s' Hr. injection Hr as -> _. auto. Qed.

Lemma raises_orFail (P : error → Prop) o :
  (∀ e, o = Some e → P e) → raises P (orFail o : M S unit).
Proof.
  intros HP s e s' Hr. destruct o as [e0|]; [|discriminate Hr].
  injection Hr as <- _. auto.
Qed.

Lemma raises_catch {A} P (m : M S A) : raises P (catch m).
Proof. intros s e s' Hr. unfold catch in Hr. destruct (m s). discriminate Hr. Qed.

Lemma raises_bind {A B} P (m : M S A) (k : A → M S B) :
  raises P m → (∀ a, raises P (k a)) → raises P (m ≫= k).
Proof.
  intros Hm Hk s e s' Hr. rewrite bind_run in Hr.
  destruct (m s) as [[e0|a] s1] eqn:Hms.
  - injection Hr as <- _. by eapply Hm.
  - by eapply Hk.
Qed.

Context `{Logged S}.

Lemma emits_ret {A} P (a : A) : emits P (mret a : M S A).
Proof. intros s. exists []. by rewrite app_nil_r. Qed.

Lemma emits_fail {A} P e : emits P (fail e : M S A).
Proof. intros s. exists []. by rewrite app_nil_r. Qed.

Lemma emits_liftE {A} P r : emits P (liftE r : M S A).
Proof. intros s. exists []. by rewrite app_nil_r. Qed.

Lemma emits_orFail P o : emits P (orFail o : M S unit).
Proof. intros s. exists []. by rewrite app_nil_r. Qed.

Lemma emits_bind {A B} P (m : M S A) (k : A → M S B) :
  emits P m → (∀ a, emits P (k a)) → emits P (m ≫= k).
Proof.
  intros Hm Hk s. rewrite bind_run. destruct (Hm s) as (e1 & E1 & F1).
  destruct (m s) as [[e|a] s']; simpl in *; [by exists e1|].
  destruct (Hk a s') as (e2 & E2 & F2). exists (e1 ++ e2).
  rewrite E2, E1, app_assoc. split; [done|]. by apply Forall_app.
Qed.

Lemma emits_try {A} P (m : M S A) : emits P m → emits P (catch m).
Proof.
  intros Hm s. destruct (Hm s) as (e1 & E1 & F1). exists e1.
  unfold catch. by destruct (m s).
Qed.

Lemma emits_forM {A} P (l : list A) (body : A → M S unit) :
  (∀ x, emits P (body x)) → emits P (forM_ l body).
Proof.
  intros Hb. induction l as [|x l IH]; simpl.
  - apply emits_ret.
  - apply emits_bind; auto.
Qed.

Lemma emits_mono {A} (P Q : event → Prop) (m : M S A) :
  (∀ e, P e → Q e) → emits P m → emits Q m.
Proof.
  intros HPQ Hm s. destruct (Hm s) as (evs & E & F). exists evs.
  split; [done|]. eapply Forall_impl; eauto.
Qed.
End MonadLemmas.

Lemma emits_call P e : P e → emits P (call e).
Proof. intros HP s. exists [e]. split; [done|]. by constructor. Qed.

Lemma emits_ask {A} P e (r : error + A) : P e → emits P (ask e r).
Proof. intros HP s. exists [e]. split; [done|]. by constructor. Qed.

Lemma emits_cache_get P id g :
  P (EvCacheGet id g) → emits P (KeyCache_GetTLFCryptKey id g).
Proof. intros HP s. exists [EvCacheGet id g]. split; [done|]. by constructor. Qed.

Lemma emits_cache_put P id g k :
  P (EvCachePut id g k) → emits P (KeyCache_PutTLFCryptKey id g k).
Proof. intros HP s. exists [EvCachePut id g k]. split; [done|]. by constructor. Qed.

Lemma emits_inKM {MD A} P (m : M KM A) : emits P m → emits P (inKM m : M (Mem MD) A).
Proof.
  intros Hm s. destruct (Hm (mem_km s)) as (evs & E & F). exists evs.
  unfold inKM. destruct (m (mem_km s)); simpl in *. done.
Qed.

Lemma emits_onMD {MD A} P e (f : MD → A * MD) : P e → emits P (onMD e f).
Proof.
  intros HP s. exists [e]. unfold onMD. destruct (f (mem_md s)); simpl.
  split; [done|]. by constructor.
Qed.

Lemma emits_getMD {MD} P : emits P (getMD : M (Mem MD) MD).
Proof. intros s. exists []. by rewrite app_nil_r. Qed.

Lemma steady_call e : steady kcache (call e).
Proof. intros s. reflexivity. Qed.

Lemma steady_ask {A} e (r : error + A) : steady kcache (ask e r).
Proof. intros s. reflexivity. Qed.

Lemma steady_cache_get id g : steady kcache (KeyCache_GetTLFCryptKey id g).
Proof. intros s. reflexivity. Qed.


Lemma raises_call P e : raises P (call e).
Proof. intros s e' s' Hr. discriminate Hr. Qed.

Lemma raises_ask {A} (P : error → Prop) e (r : error + A) :
  (∀ e', r = inl e' → P e') → raises P (ask e r).
Proof. intros HP s e' s' Hr. injection Hr as -> _. auto. Qed.

Lemma raises_cache_put P id g k : raises P (KeyCache_PutTLFCryptKey id g k).
Proof. intros s e' s' Hr. discriminate Hr. Qed.


Lemma raises_catch_ask {A B} P e (r : error + A) (k : error + A → M KM B) :
  raises P (k r) → raises P (catch (ask e r) ≫= k).
Proof.
  intros Hk s e' s' Hr.
  change ((catch (ask e r) ≫= k) s) with (k r (log e s)) in Hr. by eapply Hk.
Qed.

Lemma raises_catch_cache {B} P id g (k : error + TLFCryptKey → M KM B) :
  (∀ key, raises P (k (inr key))) →
  raises P (k (inl (KeyCacheMissError id g))) →
  raises P (catch (KeyCache_GetTLFCryptKey id g) ≫= k).
Proof.
  intros Hhit Hmiss s e' s' Hr. rewrite bind_run in Hr.
  unfold catch, KeyCache_GetTLFCryptKey in Hr. cbv beta iota zeta in Hr.
  destruct (kcache s !! (id, g)); [by eapply Hhit|by eapply Hmiss].
Qed.


Lemma steady_inKM_md {MD A} (m : M KM A) : steady mem_md (inKM m : M (Mem MD) A).
Proof. intros s. unfold inKM. by destruct (m (mem_km s)). Qed.

Lemma steady_getMD {MD X} (f : Mem MD → X) : steady f (getMD : M (Mem MD) MD).
Proof. intros s. reflexivity. Qed.

(** Running the monad's plumbing inside a hypothesis or the goal. *)
Ltac mred_in H :=
  cbv beta iota zeta delta
    [mbind mret M_bind M_ret ask fail liftE orFail catch call inKM onMD getMD] in H.
Ltac mred :=
  cbv beta iota zeta delta
    [mbind mret M_bind M_ret ask fail liftE orFail catch call inKM onMD getMD].

(** One step of a proof of [emits] or [steady]: follow the shape of the
    computation. *)
Ltac monad_step :=
  match goal with
  | |- emits _ (mret _) => apply emits_ret
  | |- emits _ (fail _) => apply emits_fail
  | |- emits _ (liftE _) => apply emits_liftE
  | |- emits _ (orFail _) => apply emits_orFail
  | |- emits _ (catch _) => apply emits_try
  | |- emits _ (call _) => apply emits_call
  | |- emits _ (ask _ _) => apply emits_ask
  | |- emits _ (KeyCache_GetTLFCryptKey _ _) => apply emits_cache_get
  | |- emits _ (KeyCache_PutTLFCryptKey _ _ _) => apply emits_cache_put
  | |- emits _ (inKM _) => apply emits_inKM
  | |- emits _ (onMD _ _) => apply emits_onMD
  | |- emits _ getMD => apply emits_getMD
  | |- emits _ (forM_ _ _) => apply emits_forM; intros ?
  | |- emits _ (mbind _ _) => apply emits_bind; [|intros ?]
  | |- steady _ (mret _) => apply steady_ret
  | |- steady _ (fail _) => apply steady_fail
  | |- steady _ (liftE _) => apply steady_liftE
  | |- steady _ (orFail _) => apply steady_orFail
  | |- steady _ (catch _) => apply steady_try
  | |- steady kcache (call _) => apply steady_call
  | |- steady kcache (ask _ _) => apply steady_ask
  | |- steady kcache (KeyCache_GetTLFCryptKey _ _) => apply steady_cache_get
  | |- steady mem_md (inKM _) => apply steady_inKM_md
  | |- steady _ getMD => apply steady_getMD
  | |- steady _ (forM_ _ _) => apply steady_forM; intros ?
  | |- steady _ (mbind _ _) => apply steady_bind; [|intros ?]
  | |- raises _ (mret _) => apply raises_ret
  | |- raises _ (fail _) => apply raises_fail
  | |- raises _ (liftE _) => apply raises_liftE
  | |- raises _ (orFail _) => apply raises_orFail
  | |- raises _ (catch _) => apply raises_catch
  | |- raises _ (call _) => apply raises_call
  | |- raises _ (ask _ _) => apply raises_ask
  | |- raises _ (KeyCache_PutTLFCryptKey _ _ _) => apply raises_cache_put
  | |- raises _ (mbind _ (catch (ask _ _))) => apply raises_catch_ask
  | |- raises _ (mbind _ (catch (KeyCache_GetTLFCryptKey _ _))) =>
      apply raises_catch_cache; [intros ?|]
  | |- raises _ (mbind _ _) => apply raises_bind; [|intros ?]
  | |- raises _ (match ?x with _ => _ end) => destruct x eqn:?
  | |- raises _ (let '(_, _) := ?x in _) => destruct x eqn:?
  | |- emits _ (match ?x with _ => _ end) => destruct x
  | |- steady _ (match ?x with _ => _ end) => destruct x
  | |- emits _ (let '(_, _) := ?x in _) => destruct x
  | |- steady _ (let '(_, _) := ?x in _) => destruct x
  end.
Ltac monad_auto := cbv beta zeta; repeat (monad_step; cbv beta zeta).

(** ** The resolver's log and cache *)

Section ResolverFacts.
Context {MD : Type} `{KeyMetadata MD}.
Variable w : World MD.

Lemma getTLFCryptKeyParams_steady kmd g u n flags :
  steady kcache (getTLFCryptKeyParams w kmd g u n flags).
Proof. unfold getTLFCryptKeyParams. monad_auto. Qed.

Lemma getTLFCryptKeyParams_emits kmd g u n flags :
  emits (fun e => isLookup e ∧ notCachePut e)
    (getTLFCryptKeyParams w kmd g u n flags).
Proof. unfold getTLFCryptKeyParams. monad_auto; done. Qed.

Lemma unmaskTLFCryptKey_steady i k c : steady kcache (unmaskTLFCryptKey w i k c).
Proof. unfold unmaskTLFCryptKey. monad_auto. Qed.

Lemma unmaskTLFCryptKey_emits i k c :
  emits (fun e => isLookup e ∧ notCachePut e) (unmaskTLFCryptKey w i k c).
Proof. unfold unmaskTLFCryptKey. monad_auto; done. Qed.

Lemma resolveTLFCryptKey_steady kmd g flags :
  steady kcache (resolveTLFCryptKey w kmd g flags).
Proof.
  unfold resolveTLFCryptKey.
  monad_auto;
    auto using getTLFCryptKeyParams_steady, unmaskTLFCryptKey_steady.
Qed.

Lemma resolveTLFCryptKey_emits kmd g flags :
  emits (fun e => isLookup e ∧ notCachePut e) (resolveTLFCryptKey w kmd g flags).
Proof.
  unfold resolveTLFCryptKey.
  monad_auto;
    auto using getTLFCryptKeyParams_emits, unmaskTLFCryptKey_emits; done.
Qed.

Lemma getTLFCryptKey_emits kmd g flags :
  emits isLookup (getTLFCryptKey w kmd g flags).
Proof.
  unfold getTLFCryptKey. monad_auto; try done.
  eapply emits_mono; [|apply resolveTLFCryptKey_emits]. by intros e [? _].
Qed.

(** Whatever [decryptMDPrivateData] asks of the key manager, the calls
    are those of [P], if the lookups of [GetTLFCryptKeyForMDDecryption]
    are. *)
Lemma withKeyManager_calls (P : event → Prop) :
  (∀ kmdToDecrypt kmdWithKeys,
     emits P (GetTLFCryptKeyForMDDecryption w kmdToDecrypt kmdWithKeys)) →
  ∀ d, emits P (withKeyManager w d).
Proof.
  intros HP. induction d as [r|a b next IH]; simpl.
  - apply emits_liftE.
  - apply emits_bind; [apply emits_try, HP|]. intros k. apply IH.
Qed.

Lemma withKeyManager_emits d : emits isLookup (withKeyManager w d).
Proof.
  apply withKeyManager_calls. intros a b. apply getTLFCryptKey_emits.
Qed.
End ResolverFacts.

(** ** Facts about the phases of [Rekey] *)

Section RekeyFacts.
Context {MD : Type} `{RootMetadata MD}.
Variable w : World MD.

Lemma rekeyResolve_steady promptPaper : steady mem_md (rekeyResolve w promptPaper).
Proof. unfold rekeyResolve. monad_auto. Qed.

(** What a successful resolution says about the caller. *)
Lemma rekeyResolve_inr promptPaper s c s1 :
  rekeyResolve w promptPaper s = (inr c, s1) →
  mem_md s1 = mem_md s ∧
  currKeyGen c = LatestKeyGeneration (mem_md s) ∧
  IsPublic (TlfID (mem_md s)) = (currKeyGen c =? PublicKeyGen) ∧
  ∃ h, GetCurrentUserInfo w = inr (username c, uid c) ∧
       ResolveAgain w (GetTlfHandle (mem_md s)) = inr h ∧
       isWriter c = IsWriter h (uid c).
Proof.
  intros Hr. pose proof (rekeyResolve_steady promptPaper s) as Hmd.
  rewrite Hr in Hmd. split; [exact Hmd|].
  unfold rekeyResolve in Hr. mred_in Hr.
  destruct (IsPublic (TlfID (mem_md s))) eqn:Hpub;
    destruct (LatestKeyGeneration (mem_md s) =? PublicKeyGen) eqn:Hgen;
    cbn in Hr; try discriminate Hr;
    destruct promptPaper; cbn in Hr; try discriminate Hr;
    destruct (GetCurrentUserInfo w) as [?|[n u]]; try discriminate Hr;
    destruct (ResolveAgain w (GetTlfHandle (mem_md s))) as [?|h];
    try discriminate Hr;
    repeat match type of Hr with
           | context [match ?x with _ => _ end] => destruct x eqn:?
           end;
    try discriminate Hr; injection Hr as <- <-; cbn; eauto 10.
Qed.

Lemma rekeyDiff_inr c wKeys0 rKeys0 s p s1 :
  rekeyDiff w c wKeys0 rKeys0 s = (inr p, s1) →
  mem_md s1 = mem_md s ∧
  ∃ rDkim wDkim,
    getUserDeviceKeyInfoMaps (mem_md s) (currKeyGen c) = inr (rDkim, wDkim) ∧
    p = rekeyDelta (uid c) wKeys0 rKeys0 rDkim wDkim.
Proof.
  intros Hr. unfold rekeyDiff in Hr. mred_in Hr.
  destruct (getUserDeviceKeyInfoMaps (mem_md s) (currKeyGen c))
    as [?|[rDkim wDkim]]; [discriminate Hr|].
  destruct (identifyUIDSets _ _ _ _ _) as [[?|[]] k]; [discriminate Hr|].
  injection Hr as <- <-. cbn. eauto.
Qed.

(** What is known when [rekeyDecide] finds something to rekey. *)
Lemma rekeyDecide_continue promptPaper s c p s1 :
  rekeyDecide w promptPaper s = (inr (inr (c, p)), s1) →
  mem_md s1 = mem_md s ∧
  IsPublic (TlfID (mem_md s)) = false ∧
  (∃ s0, rekeyResolve w promptPaper s = (inr c, s0)) ∧
  (isWriter c = false → FirstValidKeyGen ≤ currKeyGen c) ∧
  (currKeyGen c < FirstValidKeyGen ∧ p = firstGeneration (wKeys p) (rKeys p) ∨
   FirstValidKeyGen ≤ currKeyGen c ∧
   ∃ rDkim wDkim,
     getUserDeviceKeyInfoMaps (mem_md s) (currKeyGen c) = inr (rDkim, wDkim) ∧
     p = rekeyDelta (uid c) (wKeys p) (rKeys p) rDkim wDkim) ∧
  addNewReaderDevice p || addNewWriterDevice p || incKeyGen p
    || handleChanged c = true.
Proof.
  intros Hr. unfold rekeyDecide in Hr. rewrite bind_run in Hr.
  pose proof (rekeyResolve_steady promptPaper s) as Hmd.
  destruct (rekeyResolve w promptPaper s) as [[?|c0] s0] eqn:Hres;
    [discriminate Hr|]. cbn in Hmd.
  rewrite bind_run in Hr. unfold getMD at 1 in Hr. cbv beta iota in Hr.
  rewrite Hmd in Hr.
  destruct (IsPublic (TlfID (mem_md s))) eqn:Hpub.
  { destruct (negb (handleChanged c0)); mred_in Hr;
      [discriminate Hr|].
    destruct (updateFromTlfHandle _ _). discriminate Hr. }
  destruct (negb (isWriter c0) && (currKeyGen c0 <? FirstValidKeyGen)) eqn:Hra;
    [discriminate Hr|].
  rewrite bind_run in Hr.
  pose proof (steady_inKM_md (MD:=MD)
                (generateKeyMapForUsers w (ResolvedWriters (resolvedHandle c0))) s0)
    as Hw.
  destruct (inKM (generateKeyMapForUsers w _) s0) as [[?|wKeys0] sw];
    [discriminate Hr|]. cbn in Hw.
  rewrite bind_run in Hr.
  pose proof (steady_inKM_md (MD:=MD)
                (generateKeyMapForUsers w (ResolvedReaders (resolvedHandle c0))) sw)
    as Hrd.
  destruct (inKM (generateKeyMapForUsers w _) sw) as [[?|rKeys0] sr];
    [discriminate Hr|]. cbn in Hrd.
  rewrite bind_run in Hr.
  destruct (currKeyGen c0 <? FirstValidKeyGen) eqn:Hfirst; cbn [negb] in Hr.
  - change ((mret (firstGeneration wKeys0 rKeys0) : M (Mem MD) rekeyPlan) sr)
      with (inr (firstGeneration wKeys0 rKeys0) : error + rekeyPlan, sr) in Hr.
    cbn in Hr. injection Hr as <- <- <-.
    apply Z.ltb_lt in Hfirst. rewrite andb_true_r in Hra.
    apply negb_false_iff in Hra.
    split_and!.
    + congruence.
    + done.
    + eauto.
    + intros Hnw. rewrite Hnw in Hra. discriminate Hra.
    + left. done.
    + cbn. done.
  - destruct (rekeyDiff w c0 wKeys0 rKeys0 sr) as [[?|p0] sd] eqn:Hd;
      [discriminate Hr|].
    apply rekeyDiff_inr in Hd as (Hmd' & rDkim & wDkim & Hmaps & ->).
    apply Z.ltb_ge in Hfirst.
    destruct (negb _ && negb _ && negb _ && negb (handleChanged c0)) eqn:Hno;
      mred_in Hr; [discriminate Hr|].
    injection Hr as <- <- <-.
    split_and!.
    + congruence.
    + done.
    + eauto.
    + intros _. done.
    + right. split; [done|]. exists rDkim, wDkim. split; [congruence|done].
    + revert Hno. generalize (addNewReaderDevice
                (rekeyDelta (uid c0) wKeys0 rKeys0 rDkim wDkim)),
        (addNewWriterDevice (rekeyDelta (uid c0) wKeys0 rKeys0 rDkim wDkim)),
        (incKeyGen (rekeyDelta (uid c0) wKeys0 rKeys0 rDkim wDkim)),
        (handleChanged c0). intros [] [] [] []; cbn; congruence.
Qed.

(** A loop logs, for every element it has visited, the calls its body
    logs. *)
Lemma forM_covers {A} (l : list A) (body : A → M KM unit)
    (P : event → Prop) (need : A → event → Prop) :
  (∀ x s, ∃ D, calls (body x s).2 = calls s ++ D ∧ Forall P D ∧
               ((body x s).1 = inr tt → ∀ e, need x e → e ∈ D)) →
  ∀ s, ∃ D, calls (forM_ l body s).2 = calls s ++ D ∧ Forall P D ∧
            ((forM_ l body s).1 = inr tt →
             ∀ x e, x ∈ l → need x e → e ∈ D).
Proof.
  intros Hb. induction l as [|x l IH]; intros s; simpl.
  - exists []. rewrite app_nil_r. split_and!; [done..|].
    intros _ x e Hx. by apply elem_of_nil in Hx.
  - rewrite bind_run. destruct (Hb x s) as (D1 & E1 & F1 & N1).
    destruct (body x s) as [[e0|[]] s1]; cbn [fst snd] in *.
    + exists D1. split_and!; [done..|]. intros Hx. discriminate Hx.
    + destruct (IH s1) as (D2 & E2 & F2 & N2).
      exists (D1 ++ D2). rewrite E2, E1, app_assoc.
      split_and!; [done|by apply Forall_app|].
      intros Hok y e Hy Hn. apply elem_of_app.
      apply elem_of_cons in Hy as [->|Hy]; [left|right]; eauto.
Qed.

Lemma deleteServerHalves_spec info s :
  ∃ D, calls (deleteServerHalves w info s).2 = calls s ++ D ∧
       Forall isDelete D ∧
       ((deleteServerHalves w info s).1 = inr tt →
        ∀ e, deletesOf info e → e ∈ D).
Proof.
  unfold deleteServerHalves.
  destruct (forM_covers info
    (fun '(u, userRemovalInfo) =>
       forM_ (deviceServerHalfIDs userRemovalInfo) (fun '(key, serverHalfIDs) =>
         forM_ serverHalfIDs (fun serverHalfID =>
           call (EvDeleteServerHalf u (key_KID key) serverHalfID);;
           orFail (DeleteTLFCryptKeyServerHalf w u (key_KID key) serverHalfID))))
    isDelete
    (fun x e => ∃ key ids id, (key, ids) ∈ deviceServerHalfIDs x.2 ∧ id ∈ ids ∧
                              e = EvDeleteServerHalf x.1 (key_KID key) id)) with s
    as (D & E & F & N).
  - intros [u inf] s0.
    destruct (forM_covers (deviceServerHalfIDs inf)
      (fun '(key, serverHalfIDs) =>
         forM_ serverHalfIDs (fun serverHalfID =>
           call (EvDeleteServerHalf u (key_KID key) serverHalfID);;
           orFail (DeleteTLFCryptKeyServerHalf w u (key_KID key) serverHalfID)))
      isDelete
      (fun x e => ∃ id, id ∈ x.2 ∧ e = EvDeleteServerHalf u (key_KID x.1) id))
      with s0 as (D & E & F & N).
    + intros [key ids] s1.
      destruct (forM_covers ids
        (fun serverHalfID =>
           call (EvDeleteServerHalf u (key_KID key) serverHalfID);;
           orFail (DeleteTLFCryptKeyServerHalf w u (key_KID key) serverHalfID))
        isDelete
        (fun x e => e = EvDeleteServerHalf u (key_KID key) x)) with s1
        as (D & E & F & N).
      * intros id s2. exists [EvDeleteServerHalf u (key_KID key) id].
        split_and!.
        -- mred. by destruct (DeleteTLFCryptKeyServerHalf w u (key_KID key) id).
        -- by constructor.
        -- intros _ e ->. by apply list_elem_of_singleton.
      * exists D. split_and!; [done..|].
        intros Hok e (id & Hid & ->). eauto.
    + exists D. split_and!; [done..|].
      intros Hok e (key & ids & id & Hk & Hid & ->). cbn in *.
      eapply (N Hok (key, ids)); [done|]. eauto.
  - exists D. split_and!; [done..|].
    intros Hok e (u & inf & key & ids & id & Hu & Hk & Hid & ->).
    eapply (N Hok (u, inf)); [done|]. cbn. eauto 10.
Qed.

Lemma revokeAndDelete_spec c p s res s' :
  revokeAndDelete w c p s = (res, s') →
  ∃ R, calls (mem_km s') = calls (mem_km s) ++ R ∧
       Forall (fun e => ¬ isAdd e) R ∧
       (res = inr tt →
        (∀ info e, EvRevokeRemovedDevices info ∈ R → deletesOf info e → e ∈ R) ∧
        (FirstValidKeyGen ≤ currKeyGen c →
         ∃ info, EvRevokeRemovedDevices info ∈ R)).
Proof.
  intros Hrun. unfold revokeAndDelete in Hrun.
  destruct (FirstValidKeyGen <=? currKeyGen c) eqn:Hc.
  - rewrite bind_run in Hrun. unfold revoke in Hrun.
    destruct (revokeRemovedDevices (mem_md s) (wKeys p) (rKeys p))
      as [[e|info] md'].
    + injection Hrun as <- <-.
      exists [EvRevokeRemovedDevices []]. cbn. split_and!; [done| |done].
      constructor; [|done]. by intros [].
    + unfold inKM in Hrun. cbn [mem_km] in Hrun.
      destruct (deleteServerHalves_spec info
                  (log (EvRevokeRemovedDevices info) (mem_km s)))
        as (D & E & F & N).
      destruct (deleteServerHalves w info _) as [res0 k].
      cbn [fst snd] in *. injection Hrun as <- <-.
      exists (EvRevokeRemovedDevices info :: D). cbn [mem_km]. rewrite E. cbn.
      rewrite <- app_assoc. split_and!; [done| |].
      * constructor; [by intros []|].
        eapply Forall_impl; [exact F|]. by intros [] ? ?.
      * intros Hok. split; [|intros _; exists info; by left].
        intros info' e Hin Hd. apply elem_of_cons in Hin as [Heq|Hin].
        -- injection Heq as ->. right. auto.
        -- rewrite Forall_forall in F. by apply F in Hin.
  - injection Hrun as <- <-.
    exists []. rewrite app_nil_r. split_and!; [done..|].
    intros _. split.
    + intros info e Hin. by apply elem_of_nil in Hin.
    + apply Z.leb_gt in Hc. lia.
Qed.

Lemma updateKeyGeneration_spec g wk rk pk sk k s res s' :
  updateKeyGeneration w g wk rk pk sk k s = (res, s') →
  ∃ U, calls (mem_km s') = calls (mem_km s) ++ U ∧
       Forall plain U ∧
       ∀ e, res = inl e → RekeyIncompleteIsOwn w → isRekeyIncomplete e = false.
Proof.
  intros Hrun. unfold updateKeyGeneration in Hrun. mred_in Hrun.
  destruct (md_updateKeyGeneration (mem_md s) g wk rk pk sk k)
    as [[e|hs] md'] eqn:Hu; cbn in Hrun.
  - injection Hrun as <- <-.
    exists [EvUpdateKeyGeneration g wk rk]. split_and!; [done| |].
    + constructor; [|done]. split_and!; by intros [].
    + intros e' [= <-] Own. eapply update_not_incomplete; eauto.
  - assert (Forall plain [EvUpdateKeyGeneration g wk rk; EvPutServerHalves hs])
      as HF by (repeat constructor; by intros []).
    destruct (PutTLFCryptKeyServerHalves w hs) as [e|] eqn:Hp;
      injection Hrun as <- <-;
      exists [EvUpdateKeyGeneration g wk rk; EvPutServerHalves hs];
      cbn; rewrite <- app_assoc; (split_and!; [done|exact HF|]).
    + intros e' [= <-] Own. eapply put_not_incomplete; eauto.
    + intros e' He. discriminate He.
Qed.

Lemma isLookup_plain e : isLookup e → plain e.
Proof. destruct e; cbn; try done; intros _; split_and!; by intros []. Qed.

Lemma historicKeys_emits promptPaper c k :
  emits isLookup (historicKeys w promptPaper c k).
Proof. unfold historicKeys. monad_auto. apply getTLFCryptKey_emits. Qed.

Lemma addGeneration_spec promptPaper c p pk sk s res s' :
  addGeneration w promptPaper c p pk sk s = (res, s') →
  ∃ G, calls (mem_km s') = calls (mem_km s) ++ G ∧
       Forall (fun e => ¬ isDelete e ∧ ¬ isRevoke e) G ∧
       match res with
       | inr r => ∃ k pub priv,
           r = mkResult true (Some k) None ∧
           MakeRandomTLFKeys w = inr (pub, priv, k) ∧
           EvAddKeyGeneration true ∈ G
       | inl e =>
           EvAddKeyGeneration true ∈ G → RekeyIncompleteIsOwn w →
           isRekeyIncomplete e = false
       end.
Proof.
  intros Hrun. unfold addGeneration in Hrun. rewrite bind_run in Hrun.
  unfold inKM at 1, ask at 1 in Hrun.
  destruct (MakeRandomTLFKeys w) as [e|[[pub priv] k]] eqn:Hmk.
  { injection Hrun as <- <-. exists [EvMakeRandomTLFKeys].
    split_and!; [done|repeat constructor; by intros []|].
    intros Hin. apply list_elem_of_singleton in Hin. discriminate Hin. }
  cbv beta iota zeta in Hrun. rewrite bind_run in Hrun.
  set (s1 := mkMem (mem_md s) (log EvMakeRandomTLFKeys (mem_km s))) in *.
  destruct (historicKeys_emits promptPaper c k s1) as (L & EL & FL).
  unfold theLog, Mem_logged in EL.
  destruct (historicKeys w promptPaper c k s1) as [[e|[prev curr]] s2];
    cbn [fst snd] in EL.
  { injection Hrun as <- <-. exists (EvMakeRandomTLFKeys :: L).
    rewrite EL. subst s1. cbn. rewrite <- app_assoc.
    split_and!; [done| |].
    - constructor; [split; by intros []|].
      eapply Forall_impl; [exact FL|]. intros x Hx.
      apply isLookup_plain in Hx. split; apply Hx.
    - intros Hin. apply elem_of_cons in Hin as [Hin|Hin]; [discriminate Hin|].
      rewrite Forall_forall in FL. apply FL in Hin. destruct Hin. }
  rewrite bind_run in Hrun. unfold addKeyGeneration at 1 in Hrun.
  destruct (AddKeyGeneration (mem_md s2) prev curr pub) as [[e|] md3].
  { rewrite (bool_decide_eq_false_2 (Some e = None)) in Hrun by done.
    injection Hrun as <- <-.
    exists (EvMakeRandomTLFKeys :: L ++ [EvAddKeyGeneration false]).
    cbn. rewrite EL. subst s1. cbn. rewrite <- !app_assoc.
    split_and!; [done| |].
    - constructor; [split; by intros []|]. apply Forall_app. split.
      + eapply Forall_impl; [exact FL|]. intros x Hx.
        apply isLookup_plain in Hx. split; apply Hx.
      + repeat constructor; by intros [].
    - intros Hin. apply elem_of_cons in Hin as [Hin|Hin]; [discriminate Hin|].
      apply elem_of_app in Hin as [Hin|Hin].
      + rewrite Forall_forall in FL. apply FL in Hin. destruct Hin.
      + apply list_elem_of_singleton in Hin. discriminate Hin. }
  rewrite (bool_decide_eq_true_2 (@None error = None)) in Hrun by done.
  cbv beta iota zeta in Hrun. rewrite bind_run in Hrun.
  unfold getMD at 1 in Hrun. cbv beta iota zeta in Hrun.
  rewrite bind_run in Hrun. cbn [mem_md mem_km] in Hrun.
  set (s3 := mkMem md3 (log (EvAddKeyGeneration true) (mem_km s2))) in *.
  destruct (updateKeyGeneration w _ _ _ _ _ _ s3) as [ru s4] eqn:Hu.
  apply updateKeyGeneration_spec in Hu as (U & EU & FU & RU).
  assert (Forall (fun e => ¬ isDelete e ∧ ¬ isRevoke e)
            (EvMakeRandomTLFKeys :: L ++ EvAddKeyGeneration true :: U)) as HF.
  { constructor; [split; by intros []|]. apply Forall_app. split.
    - eapply Forall_impl; [exact FL|]. intros x Hx.
      apply isLookup_plain in Hx. split; apply Hx.
    - constructor; [split; by intros []|].
      eapply Forall_impl; [exact FU|]. intros x Hx. split; apply Hx. }
  destruct ru as [e|[]].
  { injection Hrun as <- <-.
    exists (EvMakeRandomTLFKeys :: L ++ EvAddKeyGeneration true :: U).
    rewrite EU. subst s3. cbn. rewrite EL. subst s1. cbn.
    rewrite <- !app_assoc. cbn. split_and!; [done|exact HF|].
    intros _ Own. by apply RU. }
  mred_in Hrun. injection Hrun as <- <-.
  exists (EvMakeRandomTLFKeys :: L ++ EvAddKeyGeneration true :: U
            ++ [EvSetTLFPrivateKey]).
  cbn. rewrite EU. subst s3. cbn. rewrite EL. subst s1. cbn.
  rewrite <- !app_assoc. cbn. split_and!; [done| |].
  - replace (EvMakeRandomTLFKeys
               :: L ++ EvAddKeyGeneration true :: U ++ [EvSetTLFPrivateKey])
      with ((EvMakeRandomTLFKeys :: L ++ EvAddKeyGeneration true :: U)
              ++ [EvSetTLFPrivateKey])
      by (cbn; by rewrite <- app_assoc).
    apply Forall_app. split; [exact HF|].
    repeat constructor; by intros [].
  - exists k, pub, priv. split_and!; [done..|].
    right. apply elem_of_app. right. by left.
Qed.

(** [rekeyFinish] either returns at once, without a new generation, or
    (a writer whose plan says [incKeyGen]) it notifies, revokes and
    deletes, and then adds the generation: [X] is logged before the
    generation is attempted, [G] from then on. *)
Lemma rekeyFinish_spec promptPaper c p pk sk s res s' :
  rekeyFinish w promptPaper c p pk sk s = (res, s') →
  (s' = s ∧
   ∃ r, res = inr r ∧ cryptKey r = None ∧
        (err r = None ∧ mdChanged r = true ∧ incKeyGen p = false ∨
         err r = Some RekeyIncompleteError ∧ isWriter c = false ∧
         mdChanged r = addNewReaderDeviceForSelf p))
  ∨
  (isWriter c = true ∧ incKeyGen p = true ∧
   ∃ X G, calls (mem_km s') = calls (mem_km s) ++ X ++ G ∧
     Forall (fun e => ¬ isAdd e) X ∧
     Forall (fun e => ¬ isDelete e ∧ ¬ isRevoke e) G ∧
     (G ≠ [] →
      (∀ info e, EvRevokeRemovedDevices info ∈ X → deletesOf info e → e ∈ X) ∧
      (FirstValidKeyGen ≤ currKeyGen c →
       ∃ info, EvRevokeRemovedDevices info ∈ X)) ∧
     match res with
     | inr r => ∃ k pub priv,
         r = mkResult true (Some k) None ∧
         MakeRandomTLFKeys w = inr (pub, priv, k) ∧
         EvAddKeyGeneration true ∈ G
     | inl e =>
         EvAddKeyGeneration true ∈ G → RekeyIncompleteIsOwn w →
         isRekeyIncomplete e = false
     end).
Proof.
  intros Hrun. unfold rekeyFinish in Hrun.
  destruct (isWriter c) eqn:Hw; cbn [negb] in Hrun.
  2: { left. destruct (nonEmpty (newReaderUsers p) || addNewWriterDevice p
                       || incKeyGen p) eqn:Hcond;
         injection Hrun as <- <-; (split; [done|]);
         eexists; (split; [reflexivity|]); (split; [reflexivity|]); cbn.
       - right. done.
       - left. apply orb_false_iff in Hcond as [_ ->]. done. }
  destruct (incKeyGen p) eqn:Hinc; cbn [negb] in Hrun.
  2: { left. injection Hrun as <- <-. split; [done|].
       eexists; (split; [reflexivity|]); (split; [reflexivity|]); cbn.
       left. done. }
  right. split; [done|]. split; [done|].
  rewrite bind_run in Hrun. unfold inKM at 1, call at 1 in Hrun.
  cbv beta iota zeta in Hrun. rewrite bind_run in Hrun.
  set (s0 := mkMem (mem_md s) (log EvNotify (mem_km s))) in *.
  destruct (revokeAndDelete w c p s0) as [rr s1] eqn:Hrd.
  apply revokeAndDelete_spec in Hrd as (R & ER & FR & NR).
  assert (Forall (fun e => ¬ isAdd e) (EvNotify :: R)) as HX
    by (constructor; [by intros []|exact FR]).
  destruct rr as [e|[]].
  { injection Hrun as <- <-. exists (EvNotify :: R), [].
    rewrite ER. subst s0. cbn. rewrite <- app_assoc, app_nil_r.
    split_and!; [done|exact HX|done|done|].
    intros Hin. by apply elem_of_nil in Hin. }
  apply addGeneration_spec in Hrun as (G & EG & FG & HG).
  exists (EvNotify :: R), G. rewrite EG, ER. subst s0. cbn.
  rewrite <- !app_assoc. cbn. split_and!; [done|exact HX|exact FG| |exact HG].
  intros _. destruct (NR eq_refl) as [Hdel Hrev]. split.
  - intros info e Hin Hd. apply elem_of_cons in Hin as [Hin|Hin];
      [discriminate Hin|]. right. eauto.
  - intros Hc. destruct (Hrev Hc) as [info Hin]. exists info. by right.
Qed.

Lemma updateKeyGeneration_emits g wk rk pk sk k :
  emits plain (updateKeyGeneration w g wk rk pk sk k).
Proof.
  unfold updateKeyGeneration. monad_auto; split_and!; by intros [].
Qed.

Lemma rekeyApply_emits promptPaper c p : emits plain (rekeyApply w promptPaper c p).
Proof.
  unfold rekeyApply, rekeyRewrap, decryptPrivateData, rewrapGeneration.
  monad_auto; try (split_and!; by intros []).
  - eapply emits_mono; [apply isLookup_plain|apply getTLFCryptKey_emits].
  - apply updateKeyGeneration_emits.
  - eapply emits_mono; [apply isLookup_plain|apply withKeyManager_emits].
Qed.

Ltac solve_calm := repeat split; by intros [].

Lemma generateKeyMapLoop_emits users keyMap :
  emits calm (generateKeyMapLoop w users keyMap).
Proof.
  revert keyMap. induction users as [|u users IH]; intros keyMap; simpl.
  - apply emits_ret.
  - monad_auto; try solve_calm. apply IH.
Qed.

Lemma rekeyResolve_emits promptPaper : emits calm (rekeyResolve w promptPaper).
Proof. unfold rekeyResolve. monad_auto; solve_calm. Qed.

Lemma rekeyDiff_emits c wk rk : emits calm (rekeyDiff w c wk rk).
Proof. unfold rekeyDiff, identifyUIDSets. monad_auto; solve_calm. Qed.

Lemma calm_plain e : calm e → plain e.
Proof. by intros [? _]. Qed.

Lemma calm_quiet e : calm e → ¬ mutates e.
Proof. by intros [_ ?]. Qed.

(** [rekeyDecide] logs plain calls only; it touches the metadata in one
    case, the changed handle of a public folder, where it returns
    [(true, nil)] with whatever the update answered. *)
Lemma rekeyDecide_spec promptPaper s res s1 :
  rekeyDecide w promptPaper s = (res, s1) →
  ∃ evs, calls (mem_km s1) = calls (mem_km s) ++ evs ∧ Forall plain evs ∧
    (Forall (fun e => ¬ mutates e) evs ∧
     (∀ r, res = inr (inl r) → r = mkResult false None None) ∨
     ∃ updateErr, res = inr (inl (mkResult true None updateErr)) ∧
                  Exists mutates evs).
Proof.
  intros Hrun. unfold rekeyDecide in Hrun. rewrite bind_run in Hrun.
  destruct (rekeyResolve_emits promptPaper s) as (E1 & EQ1 & F1).
  unfold theLog, Mem_logged in EQ1.
  destruct (rekeyResolve w promptPaper s) as [[e|c] s0]; cbn [fst snd] in EQ1.
  { injection Hrun as <- <-. exists E1. split_and!; [done| |left].
    - eapply Forall_impl; [exact F1|apply calm_plain].
    - split; [eapply Forall_impl; [exact F1|apply calm_quiet]|done]. }
  rewrite bind_run in Hrun. unfold getMD at 1 in Hrun.
  cbv beta iota zeta in Hrun.
  destruct (IsPublic (TlfID (mem_md s0))).
  { destruct (negb (handleChanged c)).
    - injection Hrun as <- <-. exists E1. split_and!; [done| |left].
      + eapply Forall_impl; [exact F1|apply calm_plain].
      + split; [eapply Forall_impl; [exact F1|apply calm_quiet]|].
        by intros r [= <-].
    - mred_in Hrun. destruct (updateFromTlfHandle _ _) as [ue md'].
      injection Hrun as <- <-.
      exists (E1 ++ [EvUpdateFromTlfHandle (resolvedHandle c)]).
      cbn. rewrite EQ1, <- app_assoc. split_and!; [done| |right].
      + apply Forall_app. split.
        * eapply Forall_impl; [exact F1|apply calm_plain].
        * repeat constructor; by intros [].
      + exists ue. split; [done|]. apply Exists_app. right. by left. }
  destruct (negb (isWriter c) && (currKeyGen c <? FirstValidKeyGen)).
  { injection Hrun as <- <-. exists E1. split_and!; [done| |left].
    - eapply Forall_impl; [exact F1|apply calm_plain].
    - split; [eapply Forall_impl; [exact F1|apply calm_quiet]|done]. }
  assert (emits calm
    (wKeys0 ← inKM (generateKeyMapForUsers w (ResolvedWriters (resolvedHandle c)));
     rKeys0 ← inKM (generateKeyMapForUsers w (ResolvedReaders (resolvedHandle c)));
     p ← (if negb (currKeyGen c <? FirstValidKeyGen)
          then rekeyDiff w c wKeys0 rKeys0
          else mret (firstGeneration wKeys0 rKeys0));
     if negb (addNewReaderDevice p) && negb (addNewWriterDevice p) &&
        negb (incKeyGen p) && negb (handleChanged c)
     then mret (inl (mkResult false None None))
     else (mret (inr (c, p)) : M (Mem MD) (RekeyResult + rekeyCaller * rekeyPlan))))
    as Hem.
  { unfold generateKeyMapForUsers. monad_auto;
      auto using generateKeyMapLoop_emits, rekeyDiff_emits. }
  destruct (Hem s0) as (E2 & EQ2 & F2). unfold theLog, Mem_logged in EQ2.
  match type of Hrun with ?lhs = _ =>
    match type of EQ2 with context [(?m s0).2] => change lhs with (m s0) in Hrun
    end end.
  rewrite Hrun in EQ2. cbn [snd] in EQ2.
  exists (E1 ++ E2). rewrite EQ2, EQ1, <- app_assoc. split_and!; [done| |left].
  - apply Forall_app. split; (eapply Forall_impl; [eassumption|apply calm_plain]).
  - split.
    + apply Forall_app.
      split; (eapply Forall_impl; [eassumption|apply calm_quiet]).
    + intros r ->. clear EQ2 Hem.
      repeat (rewrite bind_run in Hrun;
              match type of Hrun with
              | context [match ?m ?st with _ => _ end] =>
                  destruct (m st) as [[?|?] ?]; [discriminate Hrun|]
              end).
      destruct (negb _ && _ && _ && _) in Hrun;
        [by injection Hrun as <- _|discriminate Hrun].
Qed.

(** What the two deferred functions make of the body's results. *)
Lemma runDeferred_spec h r0 s3 r s' :
  runDeferred (inr (h, r0), s3) = (r, s') →
  ∃ D, calls (mem_km s') = calls (mem_km s3) ++ D ∧ Forall plain D ∧
    (err r = None → r = r0) ∧
    (nilOrIncomplete (err r) = true → EvUpdateFromTlfHandle h ∈ D) ∧
    (∀ k, cryptKey r = Some k →
          cryptKey r0 = Some k ∧ mdChanged r = mdChanged r0) ∧
    (RekeyIncompleteIsOwn w → nilOrIncomplete (err r) = true →
     cryptKey r = cryptKey r0 ∧ nilOrIncomplete (err r0) = true).
Proof.
  intros Hrun. unfold runDeferred, deferFinalize, deferUpdateHandle in Hrun.
  assert (Forall plain [EvFinalizeRekey; EvUpdateFromTlfHandle h]) as HF2
    by (repeat constructor; by intros []).
  assert (Forall plain [EvFinalizeRekey]) as HF1
    by (repeat constructor; by intros []).
  assert (Forall plain [EvUpdateFromTlfHandle h]) as HU
    by (repeat constructor; by intros []).
  destruct r0 as [ch ck er].
  destruct ch; cbn [mdChanged err cryptKey andb] in Hrun.
  - destruct (nilOrIncomplete er) eqn:Her.
    + destruct (finalizeRekey (mem_md s3)) as [[fe|] md1] eqn:Hfin;
        cbn [err mdChanged cryptKey mem_md mem_km] in Hrun.
      * destruct (isRekeyIncomplete fe) eqn:Hfe; cbn [nilOrIncomplete] in Hrun;
          rewrite Hfe in Hrun.
        -- destruct (updateFromTlfHandle md1 h) as [[ue|] md2];
             injection Hrun as <- <-;
             exists [EvFinalizeRekey; EvUpdateFromTlfHandle h];
             cbn; rewrite <- app_assoc;
             (split_and!; [done|exact HF2|done|set_solver|done|]);
             intros Own; apply (finalize_not_incomplete _ Own) in Hfin;
             congruence.
        -- injection Hrun as <- <-. exists [EvFinalizeRekey]. cbn.
           rewrite Hfe. split_and!; [done|exact HF1|done|done|done|done].
      * cbn in Hrun; try rewrite Her in Hrun.
        destruct (updateFromTlfHandle md1 h) as [[ue|] md2];
          injection Hrun as <- <-;
          exists [EvFinalizeRekey; EvUpdateFromTlfHandle h];
          cbn; rewrite <- app_assoc;
          (split_and!; [done|exact HF2|done|set_solver| |done]);
          by intros k ->.
    + cbn in Hrun; try rewrite Her in Hrun. injection Hrun as <- <-. exists [].
      rewrite app_nil_r. cbn. rewrite Her.
      split_and!; [done|done|done|done| |done]. by intros k ->.
  - destruct (nilOrIncomplete er) eqn:Her.
    + cbn in Hrun; try rewrite Her in Hrun.
      destruct (updateFromTlfHandle (mem_md s3) h) as [[ue|] md2];
        injection Hrun as <- <-;
        exists [EvUpdateFromTlfHandle h]; cbn;
        (split_and!; [done|exact HU|done|set_solver| |done]);
        by intros k ->.
    + injection Hrun as <- <-. exists [].
      rewrite app_nil_r. cbn. rewrite Her.
      split_and!; [done|done|done|done| |done]. by intros k ->.
Qed.

Lemma readerScope_inr u p p' :
  readerScope u p = inr p' → incKeyGen p' = incKeyGen p.
Proof.
  unfold readerScope. destruct (_ && _); [|discriminate].
  by intros [= <-].
Qed.

Lemma plain_not_add l : Forall plain l → Forall (fun e => ¬ isAdd e) l.
Proof. intros Hl. eapply Forall_impl; [exact Hl|]. by intros e (? & _). Qed.

Lemma plain_not_delete l :
  Forall plain l → Forall (fun e => ¬ isDelete e ∧ ¬ isRevoke e) l.
Proof. intros Hl. eapply Forall_impl; [exact Hl|]. by intros e (_ & ? & ?). Qed.

Lemma plain_no_generation l b : Forall plain l → EvAddKeyGeneration b ∉ l.
Proof.
  intros Hl Hin. rewrite Forall_forall in Hl. apply Hl in Hin as (Hn & _).
  by apply Hn.
Qed.

Lemma plain_no_revoke l info : Forall plain l → EvRevokeRemovedDevices info ∉ l.
Proof.
  intros Hl Hin. rewrite Forall_forall in Hl. apply Hl in Hin as (_ & _ & Hn).
  by apply Hn.
Qed.

Lemma Exists_not_Forall (P : event → Prop) l :
  Exists P l → Forall (fun e => ¬ P e) l → False.
Proof.
  intros He Hf. apply Exists_exists in He as (x & Hin & Hx).
  rewrite Forall_forall in Hf. by apply (Hf x).
Qed.

Lemma update_handle_mutates h l :
  EvUpdateFromTlfHandle h ∈ l → Forall (fun e => ¬ mutates e) l → False.
Proof.
  intros Hin Hf. rewrite Forall_forall in Hf. by apply (Hf _ Hin).
Qed.

(** The summary of a whole call: [X] is what was logged before a new
    generation was attempted, [G] what was logged from then on. *)
Lemma Rekey_summary promptPaper s r s' :
  Rekey w promptPaper s = (r, s') →
  ∃ X G, calls (mem_km s') = calls (mem_km s) ++ X ++ G ∧
    Forall (fun e => ¬ isAdd e) X ∧
    Forall (fun e => ¬ isDelete e ∧ ¬ isRevoke e) G ∧
    (Exists isAdd G →
       (∀ info e, EvRevokeRemovedDevices info ∈ X → deletesOf info e → e ∈ X) ∧
       ∃ c p s1, rekeyDecide w promptPaper s = (inr (inr (c, p)), s1) ∧
         isWriter c = true ∧ incKeyGen p = true ∧
         (FirstValidKeyGen ≤ currKeyGen c →
          ∃ info, EvRevokeRemovedDevices info ∈ X)) ∧
    (RekeyIncompleteIsOwn w → nilOrIncomplete (err r) = true →
       (is_Some (cryptKey r) ↔ EvAddKeyGeneration true ∈ G)) ∧
    (∀ k, cryptKey r = Some k →
       mdChanged r = true ∧
       ∃ pub priv, MakeRandomTLFKeys w = inr (pub, priv, k)) ∧
    (err r = None → Exists mutates (X ++ G) → mdChanged r = true) ∧
    (nilOrIncomplete (err r) = true →
       Forall (fun e => ¬ mutates e) (X ++ G) →
       mdChanged r = false ∧ cryptKey r = None) ∧
    (∀ c p s1, rekeyDecide w promptPaper s = (inr (inr (c, p)), s1) →
       incKeyGen p = true → err r = None → EvAddKeyGeneration true ∈ G).
Proof.
  intros Hrun. unfold Rekey, rekeyBody in Hrun.
  destruct (rekeyDecide w promptPaper s) as [res s1] eqn:Hd.
  destruct (rekeyDecide_spec _ _ _ _ Hd) as (E1 & EQ1 & F1 & Hmut).
  (* the three ways of stopping without a deferred function *)
  assert (∀ r0, (∀ k, cryptKey r0 ≠ Some k) →
            (err r0 = None → Exists mutates E1 → mdChanged r0 = true) →
            (nilOrIncomplete (err r0) = true →
             Forall (fun e => ¬ mutates e) E1 →
             mdChanged r0 = false ∧ cryptKey r0 = None) →
            (∀ c p, res = inr (inr (c, p)) → err r0 ≠ None) →
            (r0 : RekeyResult, s1) = (r, s') → ∃ X G,
    calls (mem_km s') = calls (mem_km s) ++ X ++ G ∧
    Forall (fun e => ¬ isAdd e) X ∧
    Forall (fun e => ¬ isDelete e ∧ ¬ isRevoke e) G ∧
    (Exists isAdd G →
       (∀ info e, EvRevokeRemovedDevices info ∈ X → deletesOf info e → e ∈ X) ∧
       ∃ c p s0, (res, s1) = (inr (inr (c, p)), s0) ∧
         isWriter c = true ∧ incKeyGen p = true ∧
         (FirstValidKeyGen ≤ currKeyGen c →
          ∃ info, EvRevokeRemovedDevices info ∈ X)) ∧
    (RekeyIncompleteIsOwn w → nilOrIncomplete (err r) = true →
       (is_Some (cryptKey r) ↔ EvAddKeyGeneration true ∈ G)) ∧
    (∀ k, cryptKey r = Some k →
       mdChanged r = true ∧
       ∃ pub priv, MakeRandomTLFKeys w = inr (pub, priv, k)) ∧
    (err r = None → Exists mutates (X ++ G) → mdChanged r = true) ∧
    (nilOrIncomplete (err r) = true →
       Forall (fun e => ¬ mutates e) (X ++ G) →
       mdChanged r = false ∧ cryptKey r = None) ∧
    (∀ c p s2, (res, s1) = (inr (inr (c, p)), s2) →
       incKeyGen p = true → err r = None → EvAddKeyGeneration true ∈ G))
    as Hstop.
  { intros r0 Hk Hm Hq Hc [= <- <-]. exists E1, [].
    rewrite !app_nil_r. split_and!.
    - done.
    - by apply plain_not_add.
    - done.
    - intros Hx. inversion Hx.
    - intros _ _. split.
      + intros [k Hk']. by apply Hk in Hk'.
      + intros Hin. by apply elem_of_nil in Hin.
    - intros k Hk'. by apply Hk in Hk'.
    - done.
    - done.
    - intros c p s2 [= -> _] _ He. by eapply Hc in He. }
  destruct res as [e|[r0|[c p]]].
  - refine (Hstop (failed e) _ _ _ _ Hrun); done.
  - destruct Hmut as [[Hq Hr0]|(ue & Hr0 & Hm)].
    + pose proof (Hr0 r0 eq_refl) as ->.
      refine (Hstop _ _ _ _ _ Hrun); try done.
      intros _ Hm. by destruct (Exists_not_Forall _ _ Hm Hq).
    + injection Hr0 as ->.
      refine (Hstop _ _ _ _ _ Hrun); try done.
      intros _ Hq. by destruct (Exists_not_Forall _ _ Hm Hq).
  - destruct Hmut as [[Hq _]|(ue & Hr0 & _)]; [|discriminate Hr0].
    assert ((r = failed RekeyIncompleteError ∧ s' = s1) ∨
            ∃ p', runDeferred (rekeyFromBody w promptPaper c p' s1) = (r, s') ∧
                  incKeyGen p' = incKeyGen p ∧ (isWriter c = true → p' = p))
      as [[-> ->]|(p' & Hfrom & Hinc & Hsame)].
    { destruct (isWriter c); [right; eauto|].
      destruct (readerScope (uid c) p) as [e|p'] eqn:Hsc.
      - left. unfold readerScope in Hsc. destruct (_ && _); [discriminate Hsc|].
        injection Hsc as <-. by injection Hrun as <- <-.
      - right. exists p'. split_and!; [done| |done].
        by eapply readerScope_inr. }
    { refine (Hstop (failed RekeyIncompleteError) _ _ _ _ eq_refl); done. }
    clear Hrun Hstop. unfold rekeyFromBody in Hfrom.
    destruct (rekeyApply_emits promptPaper c p' s1) as (E2 & EQ2 & F2).
    unfold theLog, Mem_logged in EQ2.
    destruct (rekeyApply w promptPaper c p' s1) as [[e|[pk sk]] s2];
      cbn [fst snd] in EQ2.
    { injection Hfrom as <- <-. exists (E1 ++ E2), [].
      rewrite EQ2, EQ1, !app_nil_r, <- app_assoc. cbn. split_and!.
      - done.
      - apply plain_not_add, Forall_app. done.
      - done.
      - intros Hx. inversion Hx.
      - intros _ _. split; [by intros [k Hk']|].
        intros Hin. by apply elem_of_nil in Hin.
      - intros k Hk'. discriminate Hk'.
      - done.
      - done.
      - intros c0 p0 s0 _ _ He. discriminate He. }
    destruct (rekeyFinish w promptPaper c p' pk sk s2) as [res3 s3] eqn:Hf.
    apply runDeferred_spec in Hfrom as (D & EQD & FD & R1 & R2 & R3 & R4).
    apply rekeyFinish_spec in Hf
      as [(-> & r3 & -> & Hk3 & Hr3)
         |(Hw & Hinc' & X3 & G3 & EQ3 & FX3 & FG3 & HG3 & Hres3)].
    + (* no new generation *)
      cbn [toResult] in *. exists (E1 ++ E2 ++ D), [].
      rewrite EQD, EQ2, EQ1, !app_nil_r, <- !app_assoc. split_and!.
      * done.
      * apply plain_not_add. rewrite !Forall_app. done.
      * done.
      * intros Hx. inversion Hx.
      * intros Own Hn. destruct (R4 Own Hn) as [Hk _]. split.
        -- intros [k Hk']. congruence.
        -- intros Hin. by apply elem_of_nil in Hin.
      * intros k Hk'. apply R3 in Hk' as [Hk' _]. congruence.
      * intros He _. pose proof (R1 He); subst r.
        destruct Hr3 as [(_ & ? & _)|(? & _)]; congruence.
      * intros Hn Hqq. apply R2 in Hn.
        exfalso. eapply (update_handle_mutates (resolvedHandle c)); [|exact Hqq].
        rewrite !elem_of_app. tauto.
      * intros c0 p0 s0 [= <- <- _] Hp He. pose proof (R1 He); subst r.
        destruct Hr3 as [(_ & _ & ?)|(? & _)]; congruence.
    + (* a new generation is attempted *)
      exists (E1 ++ E2 ++ X3), (G3 ++ D).
      rewrite EQD, EQ3, EQ2, EQ1, <- !app_assoc.
      assert (∀ b, EvAddKeyGeneration b ∈ G3 ++ D → EvAddKeyGeneration b ∈ G3)
        as HaddG.
      { intros b Hin. apply elem_of_app in Hin as [Hin|Hin]; [done|].
        by destruct (plain_no_generation _ b FD). }
      split_and!.
      * done.
      * rewrite !Forall_app. split_and!; [by apply plain_not_add..|done].
      * apply Forall_app. split; [done|by apply plain_not_delete].
      * intros Hx. assert (G3 ≠ []) as Hne.
        { intros ->. cbn in Hx.
          destruct (Exists_not_Forall _ _ Hx (plain_not_add _ FD)). }
        destruct (HG3 Hne) as [Hdel Hrev]. split.
        -- intros info e Hin Hde. rewrite !elem_of_app in Hin |- *.
           destruct Hin as [Hin|[Hin|Hin]].
           ++ by destruct (plain_no_revoke _ info F1).
           ++ by destruct (plain_no_revoke _ info F2).
           ++ right. right. eauto.
        -- exists c, p, s1.
           split_and!; [done|done|congruence|]. intros Hc. destruct (Hrev Hc) as [info Hin].
           exists info. rewrite !elem_of_app. auto.
      * intros Own Hn. destruct (R4 Own Hn) as [Hk Hn0].
        destruct res3 as [e|r3]; cbn [toResult failed cryptKey err] in *.
        -- split; [intros [k Hk']; congruence|].
           intros Hin. apply HaddG in Hin.
           pose proof (Hres3 Hin Own). cbn in Hn0. congruence.
        -- destruct Hres3 as (k & pub & priv & -> & _ & Hadd).
           cbn in Hk. rewrite Hk. split; [intros _|eauto].
           apply elem_of_app. by left.
      * intros k Hk'. apply R3 in Hk' as [Hk' Hch].
        destruct res3 as [e|r3]; cbn [toResult failed cryptKey err] in *;
          [discriminate Hk'|].
        destruct Hres3 as (k0 & pub & priv & -> & Hmk & _).
        cbn in Hk', Hch. injection Hk' as ->. split; [done|eauto].
      * intros He _. pose proof (R1 He); subst r.
        destruct res3 as [e|r3]; cbn [toResult failed cryptKey err] in *;
          [discriminate He|].
        by destruct Hres3 as (k0 & pub & priv & -> & _).
      * intros Hn Hqq. apply R2 in Hn.
        exfalso. eapply (update_handle_mutates (resolvedHandle c)); [|exact Hqq].
        rewrite !elem_of_app. tauto.
      * intros c0 p0 s0 _ _ He. pose proof (R1 He); subst r.
        destruct res3 as [e|r3]; cbn [toResult failed cryptKey err] in *;
          [discriminate He|].
        destruct Hres3 as (k0 & pub & priv & _ & _ & Hadd).
        apply elem_of_app. by left.
Qed.
End RekeyFacts.

(** * The claims *)

Example sample_block_key :
  getTLFCryptKey aliceWorld (folderMD false) 2 getTLFCryptKeyDoCache KM0
  = (inr 12%N,
     mkKM {[ (mk_tlf_ID "priv" false, 2) := 12%N ]}
       [EvCacheGet (mk_tlf_ID "priv" false) 2; EvGetCurrentUserInfo;
        EvGetCurrentCryptPublicKey; EvDecryptClientHalf;
        EvGetServerHalf "hA1" "A1";
        EvCachePut (mk_tlf_ID "priv" false) 2 12%N]).
Proof. vm_compute. reflexivity. Qed.

(** C7: on a public folder [getTLFCryptKey] returns the public sentinel
    key without error, whatever the generation and the flags, and leaves
    the state as it was: the log gains no call, so neither the key cache
    nor the identity service (nor anything else) was consulted. *)
Theorem public_folder_sentinel {MD} `{KeyMetadata MD} (w : World MD)
    (kmd : MD) (keyGen : KeyGen) (flags : getTLFCryptKeyFlags) (s : KM) :
  IsPublic (TlfID kmd) = true →
  getTLFCryptKey w kmd keyGen flags s = (inr PublicTLFCryptKey, s).
Proof. intros Hpub. unfold getTLFCryptKey. rewrite Hpub. reflexivity. Qed.

Lemma public_folder_sentinel_witness :
  IsPublic (TlfID publicMD) = true ∧
  getTLFCryptKey aliceWorld publicMD (-5) 7 KM0 = (inr PublicTLFCryptKey, KM0) ∧
  getTLFCryptKey aliceWorld publicMD 40 0 KM0 = (inr PublicTLFCryptKey, KM0).
Proof.
  split; [reflexivity|].
  split; apply (public_folder_sentinel aliceWorld publicMD); reflexivity.
Defined.

(** C6: [getTLFCryptKey] writes to the key cache exactly when DO_CACHE is
    set and the key was resolved afresh (by unmasking or by historic
    recovery); what it then writes is the resolved key under the requested
    (TLF, generation).  On every error return, and whenever nothing is
    written, the cache is as it was before the call. *)
Theorem cache_written_iff_resolved {MD} `{KeyMetadata MD} (w : World MD)
    (kmd : MD) (keyGen : KeyGen) (flags : getTLFCryptKeyFlags) (s : KM) :
  let r := (getTLFCryptKey w kmd keyGen flags s).1 in
  let s' := (getTLFCryptKey w kmd keyGen flags s).2 in
  ∃ evs, calls s' = calls s ++ evs ∧
    (∀ e, r = inl e → kcache s' = kcache s ∧ Forall notCachePut evs) ∧
    (Exists (fun e => ¬ notCachePut e) evs ↔
       hasFlag flags getTLFCryptKeyDoCache = true ∧
       ∃ k, freshlyResolved w kmd keyGen flags s k) ∧
    (∀ k, hasFlag flags getTLFCryptKeyDoCache = true →
          freshlyResolved w kmd keyGen flags s k →
          r = inr k ∧
          kcache s' = <[(TlfID kmd, keyGen) := k]> (kcache s) ∧
          EvCachePut (TlfID kmd) keyGen k ∈ evs) ∧
    (Forall notCachePut evs → kcache s' = kcache s).
Proof.
  intros r s'. subst r s'. unfold freshlyResolved.
  destruct (getTLFCryptKey w kmd keyGen flags s) as [r s'] eqn:Hrun.
  cbn [fst snd]. unfold getTLFCryptKey in Hrun.
  destruct (IsPublic (TlfID kmd)) eqn:Hpub.
  { injection Hrun as <- <-. exists []. rewrite app_nil_r. split_and!; try done.
    - split; [intros Hx; inversion Hx | intros [_ (k & ? & _)]; done].
    - intros k _ (? & _); done. }
  destruct (keyGen <? FirstValidKeyGen) eqn:Hlo.
  { apply Z.ltb_lt in Hlo. injection Hrun as <- <-.
    exists []. rewrite app_nil_r. split_and!; try done.
    - split; [intros Hx; inversion Hx | intros [_ (k & _ & ? & _)]; lia].
    - intros k _ (_ & ? & _); lia. }
  destruct (LatestKeyGeneration kmd <? keyGen) eqn:Hhi.
  { apply Z.ltb_lt in Hhi. injection Hrun as <- <-.
    exists []. rewrite app_nil_r. split_and!; try done.
    - split; [intros Hx; inversion Hx | intros [_ (k & _ & ? & _)]; lia].
    - intros k _ (_ & ? & _); lia. }
  apply Z.ltb_ge in Hlo, Hhi.
  rewrite bind_run in Hrun. unfold catch, KeyCache_GetTLFCryptKey in Hrun.
  cbv beta iota zeta in Hrun.
  destruct (kcache s !! (TlfID kmd, keyGen)) as [k0|] eqn:Hc.
  { injection Hrun as <- <-.
    exists [EvCacheGet (TlfID kmd) keyGen]. split_and!; try done.
    - split; [|intros [_ (k & _ & _ & ? & _)]; done].
      intros Hx. inversion Hx as [? ? Hh|? ? Hh]; [by destruct Hh|inversion Hh].
    - intros k _ (_ & _ & ? & _); done. }
  rewrite bind_run in Hrun.
  set (s0 := log (EvCacheGet (TlfID kmd) keyGen) s) in *.
  pose proof (resolveTLFCryptKey_steady w kmd keyGen flags s0) as Hst.
  destruct (resolveTLFCryptKey_emits w kmd keyGen flags s0) as (e1 & E1 & F1).
  unfold theLog, KM_logged in E1.
  assert (Forall notCachePut e1) as F1'
    by (eapply Forall_impl; [exact F1|by intros ? [_ ?]]).
  destruct (resolveTLFCryptKey w kmd keyGen flags s0) as [[e|k] s1] eqn:Hres;
    cbn [fst snd] in Hst, E1 |- *.
  { injection Hrun as <- <-.
    exists (EvCacheGet (TlfID kmd) keyGen :: e1).
    rewrite E1, Hst. subst s0. simpl. rewrite <- app_assoc. simpl.
    split_and!; try done.
    - intros e' _. split; [done|]. by constructor.
    - split; [|intros [_ (k & _ & _ & _ & ?)]; done].
      intros Hx. apply Exists_cons in Hx as [Hx|Hx]; [by destruct Hx|].
      apply Exists_exists in Hx as (x & Hin & Hx).
      rewrite Forall_forall in F1'. destruct Hx. auto.
    - intros k _ (_ & _ & _ & ?); done. }
  destruct (hasFlag flags getTLFCryptKeyDoCache) eqn:Hdo.
  - rewrite bind_run in Hrun. cbn in Hrun. injection Hrun as <- <-.
    exists (EvCacheGet (TlfID kmd) keyGen :: e1 ++ [EvCachePut (TlfID kmd) keyGen k]).
    cbn. rewrite E1, Hst. subst s0. cbn.
    rewrite <- !app_assoc. cbn. split_and!; try done.
    + split; [intros _; split; [done|]; exists k; done|].
      intros _. apply Exists_cons. right. apply Exists_app. right.
      apply Exists_cons. left. simpl. tauto.
    + intros k' _ (_ & _ & _ & Hk). injection Hk as <-.
      split_and!; [done..|]. set_solver.
    + intros Hx. apply Forall_cons in Hx as [_ Hx].
      apply Forall_app in Hx as [_ Hx]. apply Forall_cons in Hx as [Hx _].
      destruct Hx.
  - injection Hrun as <- <-.
    exists (EvCacheGet (TlfID kmd) keyGen :: e1).
    rewrite E1, Hst. subst s0. simpl. rewrite <- app_assoc. simpl.
    split_and!; try done.
    split; [|intros [? _]; done].
    intros Hx. apply Exists_cons in Hx as [Hx|Hx]; [by destruct Hx|].
    apply Exists_exists in Hx as (x & Hin & Hx).
    rewrite Forall_forall in F1'. destruct Hx. auto.
Qed.

(** The loop over the user's keys stops with an error only when the
    metadata reports [TLFCryptKeyNotPerDeviceEncrypted] for one of them. *)
Lemma collectKeyParams_error {MD} `{KeyMetadata MD} (kmd : MD) g u pks :
  ∀ i ks ids lk e,
    collectKeyParams kmd g u pks i ks ids lk = inl e →
    isNotPerDeviceEncrypted e = true ∧
    ∃ k, GetTLFCryptKeyParams kmd g u k = inl e.
Proof.
  induction pks as [|k pks IH]; intros i ks ids lk e Hc; simpl in Hc.
  - discriminate Hc.
  - destruct (GetTLFCryptKeyParams kmd g u k) as [e0|[[[p c] sid] found]] eqn:Hk.
    + destruct (isNotPerDeviceEncrypted e0) eqn:Hn.
      * injection Hc as <-. eauto.
      * eauto.
    + destruct (negb found); eauto.
Qed.

(** ** Historic recovery *)

Section HistoricRecovery.
Context {MD : Type} `{KeyMetadata MD}.
Variable w : World MD.
Variable kmd : MD.
Variable keyGen : KeyGen.

(** A [TLFCryptKeyNotPerDeviceEncrypted] that surfaces was answered
    somewhere else than in the key parameters of a historic generation. *)
Let surfaced (e : error) : Prop :=
  isNotPerDeviceEncrypted e = true → answeredElsewhere w kmd keyGen e.

Ltac elsewhere :=
  try (intros; discriminate);
  try (intros Hn; discriminate Hn);
  intros; unfold surfaced, answeredElsewhere; intros; eauto 14.

Lemma getTLFCryptKeyParams_latest_surfaced u n flags :
  raises surfaced
    (getTLFCryptKeyParams w kmd (LatestKeyGeneration kmd) u n flags).
Proof.
  unfold getTLFCryptKeyParams. monad_auto; try (by elsewhere).
  intros e He Hn. apply collectKeyParams_error in He as (_ & k & Hk).
  left. eauto.
Qed.

Lemma unmaskTLFCryptKey_surfaced sid pk c :
  raises surfaced (unmaskTLFCryptKey w sid pk c).
Proof. unfold unmaskTLFCryptKey. monad_auto. elsewhere. Qed.

Lemma getTLFCryptKey_surfaced flags :
  raises surfaced (getTLFCryptKey w kmd keyGen flags).
Proof.
  unfold getTLFCryptKey, resolveTLFCryptKey. monad_auto;
    auto using getTLFCryptKeyParams_latest_surfaced, unmaskTLFCryptKey_surfaced;
    try (by elsewhere).
Qed.


End HistoricRecovery.




(** Under the metadata view's contract (the error is reported for
    historic generations only, and by nobody else), no call ends with
    it. *)
Lemma not_per_device_under_contract {MD} `{KeyMetadata MD} (w : World MD)
    (kmd : MD) (keyGen : KeyGen) (flags : getTLFCryptKeyFlags) :
  NotPerDeviceIsHistoric w kmd →
  raises (fun e => isNotPerDeviceEncrypted e = false)
    (getTLFCryptKey w kmd keyGen flags).
Proof.
  intros C s e s' Hrun.
  destruct (isNotPerDeviceEncrypted e) eqn:Hn; [|done].
  destruct (getTLFCryptKey_surfaced w kmd keyGen flags s e s' Hrun Hn)
    as [(u & k & He)|[(key & He)|[He|[(u & He)|[He|[(c & g & u & n & He)
       |[(keys & pp & He)|[(p & c & He)|(i & k & He)]]]]]]]].
  - by rewrite (latest_per_device _ _ C _ _ _ He) in Hn.
  - by rewrite (historic_walk _ _ C _ _ _ He) in Hn.
  - by rewrite (identity_user _ _ C _ He) in Hn.
  - by rewrite (identity_keys _ _ C _ _ He) in Hn.
  - by rewrite (identity_device _ _ C _ He) in Hn.
  - subst e. by rewrite (rekey_read _ _ C) in Hn.
  - by rewrite (crypto_any _ _ C _ _ _ He) in Hn.
  - by rewrite (crypto_one _ _ C _ _ _ He) in Hn.
  - by rewrite (key_server _ _ C _ _ _ He) in Hn.
Qed.

(** Historic recovery at work: generation 1 of a V3 folder is answered
    from the latest generation's key (9 xor 5 = 12) through the chain. *)
Example sample_historic_key :
  getTLFCryptKey aliceWorld (folderMD true) 1 0 KM0
  = (inr 14%N,
     mkKM ∅ [EvCacheGet (mk_tlf_ID "priv" false) 1; EvGetCurrentUserInfo;
             EvGetCurrentCryptPublicKey;
             EvCacheGet (mk_tlf_ID "priv" false) 3;
             EvGetCurrentCryptPublicKey; EvDecryptClientHalf;
             EvGetServerHalf "hA1" "A1"; EvGetHistoricTLFCryptKey 1]).
Proof. vm_compute. reflexivity. Qed.

(** ** All generations *)

(** The loop over [n] generations from [g] on: the keys it appends are
    resolved in order, each in the state the one before left; it stops
    at the first generation that fails. *)
Lemma allGenerationsLoop_inorder {MD} `{KeyMetadata MD} (w : World MD)
    (kmd : MD) (n : nat) :
  ∀ g keys0 s keys err s',
    allGenerationsLoop w kmd (seqZ g (Z.of_nat n)) keys0 s = ((keys, err), s') →
    ∃ new, keys = keys0 ++ new ∧
      match err with
      | None => length new = n ∧ resolvedInOrder w kmd g new s s'
      | Some e =>
          (length new < n)%nat ∧
          ∃ sg, resolvedInOrder w kmd g new s sg ∧
                getTLFCryptKeyUsingCurrentDevice w kmd
                  (g + Z.of_nat (length new)) true sg = (inl e, s')
      end.
Proof.
  induction n as [|n IH]; intros g keys0 s keys err s' Hl.
  - cbn in Hl. injection Hl as <- <- <-. exists []. by rewrite app_nil_r.
  - rewrite seqZ_cons in Hl by lia.
    replace (Z.pred (Z.of_nat (S n))) with (Z.of_nat n) in Hl by lia.
    replace (Z.succ g) with (g + 1) in Hl by lia.
    cbn [allGenerationsLoop] in Hl.
    destruct (getTLFCryptKeyUsingCurrentDevice w kmd g true s)
      as [[e|key] s1] eqn:Hg.
    + injection Hl as <- <- <-. exists []. rewrite app_nil_r.
      split; [done|]. split; [cbn; lia|]. exists s. cbn.
      by rewrite Z.add_0_r.
    + apply IH in Hl as (new & -> & Hnew).
      exists (key :: new). rewrite <- app_assoc. split; [done|].
      destruct err as [e|].
      * destruct Hnew as (Hlen & sg & Hin & Hfail).
        split; [cbn; lia|]. exists sg. split; [cbn; eauto|].
        replace (g + Z.of_nat (length (key :: new)))
          with (g + 1 + Z.of_nat (length new)) by (cbn [length]; lia).
        done.
      * destruct Hnew as (Hlen & Hin). split; [cbn; lia|]. cbn. eauto.
Qed.

(** C10: when [GetTLFCryptKeyOfAllGenerations] succeeds it returns exactly
    one key per generation from [FirstValidKeyGen] to the latest one, in
    ascending order: the i-th key is what the resolver returned for
    generation [FirstValidKeyGen + i], called in the state that the
    calls for the generations below it left, the first one in the state
    of the call.  When it fails, it has failed at the first generation
    [g] whose resolution fails; it returns the keys of the generations
    below [g], resolved in the same way, with that error.  For a public
    folder at [PublicKeyGen] it returns no key, no error, and does
    nothing. *)
Theorem all_generations_keys {MD} `{KeyMetadata MD} (w : World MD)
    (kmd : MD) (s s' : KM) (keys : list TLFCryptKey) (err : option error) :
  GetTLFCryptKeyOfAllGenerations w kmd s = ((keys, err), s') →
  let latest := LatestKeyGeneration kmd in
  let g := FirstValidKeyGen + Z.of_nat (length keys) in
  match err with
  | None =>
      g = Z.max FirstValidKeyGen (latest + 1) ∧
      resolvedInOrder w kmd FirstValidKeyGen keys s s'
  | Some e =>
      g ≤ latest ∧
      ∃ sg, resolvedInOrder w kmd FirstValidKeyGen keys s sg ∧
            getTLFCryptKeyUsingCurrentDevice w kmd g true sg = (inl e, s')
  end ∧
  (IsPublic (TlfID kmd) = true → latest = PublicKeyGen →
   keys = [] ∧ err = None ∧ s' = s).
Proof.
  intros Hrun latest g. subst latest g. split.
  - unfold GetTLFCryptKeyOfAllGenerations, generationsUpTo in Hrun.
    set (n := Z.to_nat (LatestKeyGeneration kmd - FirstValidKeyGen + 1)) in *.
    assert (seqZ FirstValidKeyGen
              (LatestKeyGeneration kmd - FirstValidKeyGen + 1)
            = seqZ FirstValidKeyGen (Z.of_nat n)) as Hseq.
    { unfold seqZ. by rewrite Nat2Z.id. }
    rewrite Hseq in Hrun.
    apply allGenerationsLoop_inorder in Hrun as (new & -> & Hnew).
    cbn [app]. destruct err as [e|].
    + destruct Hnew as (Hlen & sg & Hin & Hfail). split; [lia|eauto].
    + destruct Hnew as (Hlen & Hin). split; [lia|done].
  - intros Hpub Hlatest. unfold GetTLFCryptKeyOfAllGenerations in Hrun.
    rewrite Hlatest in Hrun. vm_compute in Hrun. by injection Hrun as <- <- <-.
Qed.

(** The three generations of a V3 folder have different keys (14, 13 and
    12 in alice's world): they come back in the order of the
    generations. *)
Lemma all_generations_keys_witness :
  let run := GetTLFCryptKeyOfAllGenerations aliceWorld (folderMD true) KM0 in
  run.1 = ([14%N; 13%N; 12%N], None) ∧
  resolvedInOrder aliceWorld (folderMD true) FirstValidKeyGen
    [14%N; 13%N; 12%N] KM0 run.2 ∧
  (getTLFCryptKeyUsingCurrentDevice aliceWorld (folderMD true) 1 true KM0).1
  = inr 14%N.
Proof.
  intros run.
  assert (run.1 = ([14%N; 13%N; 12%N], None)) as Hr by (vm_compute; reflexivity).
  split; [exact Hr|]. split; [|vm_compute; reflexivity].
  assert (run = (([14%N; 13%N; 12%N], None), run.2)) as Hrun
    by (rewrite <- Hr; apply surjective_pairing).
  destruct (all_generations_keys aliceWorld (folderMD true) KM0 run.2
              [14%N; 13%N; 12%N] None Hrun) as [[_ Hin] _].
  exact Hin.
Defined.

(** On a folder of three generations the keys come back in order; for
    carol, who has no entry, the first generation already fails and no key
    is returned with the error. *)
Example sample_all_generations :
  (GetTLFCryptKeyOfAllGenerations aliceWorld (folderMD false) KM0).1
  = ([12%N; 12%N; 12%N], None) ∧
  (GetTLFCryptKeyOfAllGenerations aliceWorld (folderMD true) KM0).1
  = ([14%N; 13%N; 12%N], None) ∧
  (GetTLFCryptKeyOfAllGenerations carolWorld (folderMD false) KM0).1
  = ([], Some (ErrorString "rekey needed")) ∧
  GetTLFCryptKeyOfAllGenerations aliceWorld publicMD KM0 = ([], None, KM0).
Proof.
  split; [vm_compute; reflexivity|]. split; [vm_compute; reflexivity|].
  split; vm_compute; reflexivity.
Qed.

(** ** Rekey *)

(** C8: on a private folder without a valid key generation, a caller who
    is not a writer of the handle resolved again gets [(false, nil)] and an
    error, and the metadata is left as it was; the error is
    [ReadAccessError] whenever lines 443-504 (the consistency check of
    [currKeyGen], the identity lookups and the handle comparison) did not
    fail first. *)
Theorem reader_cannot_create_first_generation {MD} `{RootMetadata MD}
    (w : World MD) (promptPaper : bool) (s : Mem MD) :
  IsPublic (TlfID (mem_md s)) = false →
  LatestKeyGeneration (mem_md s) < FirstValidKeyGen →
  (∀ n u h, GetCurrentUserInfo w = inr (n, u) →
            ResolveAgain w (GetTlfHandle (mem_md s)) = inr h →
            IsWriter h u = false) →
  let r := (Rekey w promptPaper s).1 in
  let s' := (Rekey w promptPaper s).2 in
  mdChanged r = false ∧ cryptKey r = None ∧ is_Some (err r) ∧
  mem_md s' = mem_md s ∧
  ∀ c s1, rekeyResolve w promptPaper s = (inr c, s1) →
    err r = Some (ReadAccessError (username c)
                    (GetCanonicalPath (resolvedHandle c))).
Proof.
  intros Hpub Hgen Hrd r s'. subst r s'.
  destruct (Rekey w promptPaper s) as [r s'] eqn:Hrun. cbn [fst snd].
  unfold Rekey, rekeyBody, rekeyDecide in Hrun. rewrite bind_run in Hrun.
  pose proof (rekeyResolve_steady w promptPaper s) as Hmd.
  destruct (rekeyResolve w promptPaper s) as [[e|c] s1] eqn:Hres.
  - injection Hrun as <- <-. cbn. split_and!; done.
  - apply rekeyResolve_inr in Hres as (_ & Hcur & _ & h & Hu & Hh & Hw).
    cbn in Hmd. rewrite (Hrd _ _ _ Hu Hh) in Hw.
    apply Z.ltb_lt in Hgen. rewrite <- Hcur in Hgen.
    mred_in Hrun. rewrite Hmd, Hpub, Hw, Hgen in Hrun. cbn in Hrun.
    injection Hrun as <- <-. cbn.
    split_and!; try done. intros c' s2 [= <- <-]. done.
Qed.

Lemma reader_cannot_create_first_generation_witness :
  IsPublic (TlfID newFolderMD) = false ∧
  LatestKeyGeneration newFolderMD < FirstValidKeyGen ∧
  Rekey bobWorld false (mkMem newFolderMD KM0)
  = (failed (ReadAccessError "bob" "/keybase/private/folder"),
     mkMem newFolderMD (mkKM ∅ [EvGetCurrentUserInfo; EvResolveAgain])).
Proof.
  split; [reflexivity|]. split; [reflexivity|].
  pose proof (reader_cannot_create_first_generation bobWorld false
                (mkMem newFolderMD KM0) eq_refl eq_refl) as Hthm.
  destruct Hthm as (_ & _ & _ & _ & Herr).
  - intros n u h [= <- <-] [= <-]. reflexivity.
  - specialize (Herr _ _ eq_refl). vm_compute. reflexivity.
Defined.

(** Lines 605-618 as they are written: when there is something to rekey
    and the caller is not a writer, the test is on [newReaderUsers] as
    that set stands at line 606, with the readers who have a removed
    device merged in by lines 575-580.  A caller in that set who is not
    a promoted reader has the rest of [Rekey] run on the caller's own
    reader entry ([rKeys] the singleton of the caller's keys, [wKeys]
    empty, the caller taken out of [newReaderUsers]); any other caller
    gets [(false, nil, RekeyIncompleteError)] at once, with the metadata
    untouched. *)
Lemma reader_rekeys_only_self {MD} `{RootMetadata MD} (w : World MD)
    (promptPaper : bool) (s s1 : Mem MD) (c : rekeyCaller) (p : rekeyPlan) :
  rekeyDecide w promptPaper s = (inr (inr (c, p)), s1) →
  isWriter c = false →
  GetCurrentUserInfo w = inr (username c, uid c) ∧
  (uid c ∈ newReaderUsers p ∧ uid c ∉ promotedReaders p →
   Rekey w promptPaper s =
   rekeyFrom w promptPaper c
     {| wKeys := ∅;
        rKeys := {[ uid c := default ∅ (rKeys p !! uid c) ]};
        addNewReaderDevice := addNewReaderDevice p;
        addNewWriterDevice := addNewWriterDevice p;
        newReaderUsers := newReaderUsers p ∖ {[ uid c ]};
        newWriterUsers := newWriterUsers p;
        promotedReaders := promotedReaders p;
        addNewReaderDeviceForSelf := addNewReaderDeviceForSelf p;
        incKeyGen := incKeyGen p |} s1) ∧
  (¬ (uid c ∈ newReaderUsers p ∧ uid c ∉ promotedReaders p) →
   Rekey w promptPaper s = (mkResult false None (Some RekeyIncompleteError), s1) ∧
   mem_md s1 = mem_md s).
Proof.
  intros Hd Hw. pose proof (rekeyDecide_continue w _ _ _ _ _ Hd)
    as (Hmd & _ & [s0 Hres] & _).
  apply rekeyResolve_inr in Hres as (_ & _ & _ & h & Hu & _).
  split; [exact Hu|].
  unfold Rekey, rekeyFrom, rekeyBody. rewrite Hd, Hw. unfold readerScope. split.
  - intros [Hin Hnp]. rewrite (bool_decide_eq_true_2 _ Hin).
    rewrite (bool_decide_eq_false_2 _ Hnp). reflexivity.
  - intros Hn. split; [|exact Hmd].
    destruct (bool_decide (uid c ∈ newReaderUsers p)) eqn:Hin; [|done].
    destruct (bool_decide (uid c ∈ promotedReaders p)) eqn:Hp; [done|].
    apply bool_decide_eq_true_1 in Hin. apply bool_decide_eq_false_1 in Hp.
    destruct Hn. done.
Qed.

Lemma reader_rekeys_only_self_witness :
  let s := mkMem (folderMD false) KM0 in
  let d := rekeyDecide bobWorld2 false s in
  d.1 = inr (inr (bobCaller, bobPlan)) ∧
  Rekey bobWorld2 false s
  = rekeyFrom bobWorld2 false bobCaller
      {| wKeys := ∅;
         rKeys := {[ "bob" := default ∅ (rKeys bobPlan !! "bob") ]};
         addNewReaderDevice := true;
         addNewWriterDevice := false;
         newReaderUsers := newReaderUsers bobPlan ∖ {[ "bob" ]};
         newWriterUsers := ∅;
         promotedReaders := ∅;
         addNewReaderDeviceForSelf := true;
         incKeyGen := false |} d.2 ∧
  (Rekey bobWorld2 false s).1 = mkResult true None None.
Proof.
  intros s d.
  assert (d.1 = inr (inr (bobCaller, bobPlan))) as Hd1
    by (vm_compute; reflexivity).
  split; [exact Hd1|]. split; [|vm_compute; reflexivity].
  assert (d = (inr (inr (bobCaller, bobPlan)), d.2)) as Hd
    by (rewrite <- Hd1; apply surjective_pairing).
  destruct (reader_rekeys_only_self bobWorld2 false s d.2 bobCaller bobPlan
              Hd eq_refl) as (_ & Hyes & _).
  apply Hyes. split.
  - apply (bool_decide_unpack _). vm_compute. exact I.
  - apply (bool_decide_unpack _). vm_compute. exact I.
Defined.

(** C2: carol, a reader of the folder, has revoked her device [C0] and has
    no new device; bob, another reader, has one.  carol calls [Rekey]
    with the key server down.  She is not among the users with a new
    reader device ([addNewReaderDeviceForSelf] is false) and is not
    promoted, the case in which the comment at lines 614-615 and the
    specification have [Rekey] return [RekeyIncompleteError] (a reader
    without a new device of her own can do nothing).  But lines 575-580
    have put her into [newReaderUsers] as a user with a removed device:
    the test at line 606 passes, the scope is restricted to her entry,
    the re-wrap loop asks for the key of generation 1, and [Rekey]
    returns the error of the key server. *)
Lemma revoked_reader_is_not_stopped :
  let md := revokedReaderMD in
  let s := mkMem md KM0 in
  (rekeyDecide carolWorldDown false s).1 = inr (inr (carolCaller, carolPlan)) ∧
  usersWithNewDevices (s_readers md) (rKeys carolPlan) = {[ "bob" ]} ∧
  usersWithRemovedDevices (s_readers md) (rKeys carolPlan) = {[ "carol" ]} ∧
  readerScope "carol" carolPlan
  = inr {| wKeys := ∅;
           rKeys := {[ "carol" := {[ "C1" ]} ]};
           addNewReaderDevice := true;
           addNewWriterDevice := false;
           newReaderUsers := {[ "bob" ]};
           newWriterUsers := ∅;
           promotedReaders := ∅;
           addNewReaderDeviceForSelf := false;
           incKeyGen := true |} ∧
  Rekey carolWorldDown false s
  = (failed (ErrorString "key server down"),
     mkMem md
       (mkKM ∅
          [EvGetCurrentUserInfo; EvResolveAgain;
           EvFlushUser "alice"; EvGetCryptPublicKeys "alice";
           EvFlushUser "bob"; EvGetCryptPublicKeys "bob";
           EvFlushUser "carol"; EvGetCryptPublicKeys "carol";
           EvIdentify ["carol"; "bob"];
           EvMakeRandomTLFEphemeralKeys;
           EvCacheGet (mk_tlf_ID "priv" false) 1; EvGetCurrentUserInfo;
           EvGetCryptPublicKeys "carol"; EvDecryptClientHalfAny false;
           EvGetServerHalf "hC1" "C1"])).
Proof.
  intros md s. split; [vm_compute; reflexivity|].
  split; [vm_compute; reflexivity|]. split; [vm_compute; reflexivity|].
  split; vm_compute; reflexivity.
Qed.

(** C9: when the body of [Rekey] has ended well (with [mdChanged] set and
    no error other than [RekeyIncompleteError]) and [finalizeRekey] then
    fails, [Rekey] returns [(false, nil)] with the error of
    [finalizeRekey]; the metadata it leaves behind is the one the body
    mutated (and [finalizeRekey] worked on), not the one it was called
    with.  The error of [finalizeRekey] is taken not to be a
    [RekeyIncompleteError] itself. *)
Theorem finalize_failure_reported {MD} `{RootMetadata MD} (w : World MD)
    (promptPaper : bool) (s s3 : Mem MD) (h : TlfHandle) (r : RekeyResult)
    (finalizeErr : error) (md' : MD) :
  rekeyBody w promptPaper s = (inr (h, r), s3) →
  mdChanged r = true →
  nilOrIncomplete (err r) = true →
  finalizeRekey (mem_md s3) = (Some finalizeErr, md') →
  isRekeyIncomplete finalizeErr = false →
  Rekey w promptPaper s
  = (mkResult false None (Some finalizeErr),
     mkMem md' (log EvFinalizeRekey (mem_km s3))).
Proof.
  intros Hb Hc He Hf Hn. unfold Rekey, runDeferred. rewrite Hb.
  unfold deferFinalize. rewrite Hc, He, Hf. cbn [andb].
  unfold deferUpdateHandle. cbn. rewrite Hn. reflexivity.
Qed.

Lemma finalize_failure_reported_witness :
  let fe := ErrorString "seal failed" in
  let s := mkMem (revokedMD (Some "seal failed")) KM0 in
  let b := rekeyBody aliceWorld false s in
  b.1 = inr (handle_of ["alice"] ["bob"], mkResult true (Some 77%N) None) ∧
  (Rekey aliceWorld false s).1 = mkResult false None (Some fe) ∧
  LatestKeyGeneration (mem_md s) = 3 ∧
  LatestKeyGeneration (mem_md (Rekey aliceWorld false s).2) = 4.
Proof.
  intros fe s b.
  assert (b.1 = inr (handle_of ["alice"] ["bob"], mkResult true (Some 77%N) None))
    as Hb1 by (vm_compute; reflexivity).
  split; [exact Hb1|].
  assert (b = (inr (handle_of ["alice"] ["bob"], mkResult true (Some 77%N) None),
               b.2)) as Hb by (rewrite <- Hb1; apply surjective_pairing).
  rewrite (finalize_failure_reported aliceWorld false s b.2 _ _ fe
             (mem_md b.2) Hb eq_refl eq_refl eq_refl eq_refl).
  split; [reflexivity|]. split; [reflexivity|]. vm_compute. reflexivity.
Defined.


(** alice rekeys after revoking [A0]: the three server halves are deleted
    before the generation is added. *)
Example sample_revocation_log :
  calls (mem_km (Rekey aliceWorld false (mkMem (revokedMD None) KM0)).2)
  = [EvGetCurrentUserInfo; EvResolveAgain;
     EvFlushUser "alice"; EvGetCryptPublicKeys "alice";
     EvFlushUser "bob"; EvGetCryptPublicKeys "bob";
     EvIdentify ["alice"];
     EvMakeRandomTLFEphemeralKeys; EvNotify;
     EvRevokeRemovedDevices (s_removal (revokedMD None));
     EvDeleteServerHalf "alice" "A0" "hA0.1";
     EvDeleteServerHalf "alice" "A0" "hA0.2";
     EvDeleteServerHalf "alice" "A0" "hA0.3";
     EvMakeRandomTLFKeys;
     EvCacheGet (mk_tlf_ID "priv" false) 3; EvGetCurrentUserInfo;
     EvGetCryptPublicKeys "alice"; EvDecryptClientHalfAny false;
     EvGetServerHalf "hA1" "A1";
     EvAddKeyGeneration true;
     EvUpdateKeyGeneration 4 {[ "alice" := {[ "A1" ]} ]} {[ "bob" := {[ "B1" ]} ]};
     EvPutServerHalves ∅; EvSetTLFPrivateKey;
     EvFinalizeRekey; EvUpdateFromTlfHandle (handle_of ["alice"] ["bob"])].
Proof. vm_compute. reflexivity. Qed.

Lemma sample_incomplete_is_own (w : World SampleMD) :
  (∀ hs, PutTLFCryptKeyServerHalves w hs = None) →
  RekeyIncompleteIsOwn w.
Proof.
  intros Hput. constructor.
  - intros md g wk rk p q k e md' He. discriminate He.
  - intros hs e He. rewrite Hput in He. discriminate He.
  - intros md e md' He. cbn in He. destruct (s_finalize md); [|discriminate He].
    by injection He as <- _.
Defined.


(** What holds of the results on every path: for a call of [Rekey] that
    returns without error or with [RekeyIncompleteError] (the
    collaborators not answering with that error themselves), the key
    returned is the new folder key if and only if a new generation was
    added in the call; a call that returns without error, has changed the
    metadata and has not added a generation returns [(true, nil)]; a call
    that has not touched the metadata returns [(false, nil)]. *)
Lemma rekey_results {MD} `{RootMetadata MD} (w : World MD)
    (promptPaper : bool) (s : Mem MD) :
  RekeyIncompleteIsOwn w →
  let r := (Rekey w promptPaper s).1 in
  ∃ evs,
    calls (mem_km (Rekey w promptPaper s).2) = calls (mem_km s) ++ evs ∧
    (nilOrIncomplete (err r) = true →
     (is_Some (cryptKey r) ↔ EvAddKeyGeneration true ∈ evs) ∧
     (∀ k, cryptKey r = Some k →
        mdChanged r = true ∧
        ∃ pub priv, MakeRandomTLFKeys w = inr (pub, priv, k)) ∧
     (err r = None → Exists mutates evs → EvAddKeyGeneration true ∉ evs →
        mdChanged r = true ∧ cryptKey r = None) ∧
     (Forall (fun e => ¬ mutates e) evs →
        mdChanged r = false ∧ cryptKey r = None)).
Proof.
  intros Own r. subst r.
  destruct (Rekey w promptPaper s) as [r s'] eqn:Hrun. cbn [fst snd].
  apply Rekey_summary in Hrun
    as (X & G & EQ & FX & FG & _ & Hkey & Hnew & Hchg & Hnone & _).
  exists (X ++ G). split; [done|]. intros Hn.
  assert (EvAddKeyGeneration true ∈ X ++ G ↔ EvAddKeyGeneration true ∈ G)
    as Hadd.
  { rewrite elem_of_app. split; [|by right]. intros [Hin|Hin]; [|done].
    rewrite Forall_forall in FX. by destruct (FX _ Hin). }
  split_and!.
  - rewrite Hadd. by apply Hkey.
  - exact Hnew.
  - intros He Hm Hna. split; [by apply Hchg|].
    destruct (cryptKey r) as [k|] eqn:Hk; [|done].
    destruct Hna. apply Hadd, (Hkey Own Hn). by exists k.
  - by apply Hnone.
Qed.

Lemma rekey_results_witness :
  let run := Rekey aliceWorld false (mkMem (revokedMD None) KM0) in
  RekeyIncompleteIsOwn aliceWorld ∧
  run.1 = mkResult true (Some 77%N) None ∧
  EvAddKeyGeneration true ∈ calls (mem_km run.2).
Proof.
  intros run.
  assert (RekeyIncompleteIsOwn aliceWorld) as Own
    by (apply sample_incomplete_is_own; reflexivity).
  split; [exact Own|].
  assert (run.1 = mkResult true (Some 77%N) None) as Hr
    by (vm_compute; reflexivity).
  split; [exact Hr|].
  destruct (rekey_results aliceWorld false (mkMem (revokedMD None) KM0) Own)
    as (evs & Hevs & Hres).
  fold run in Hevs, Hres. rewrite Hevs. rewrite Hr in Hres.
  destruct (Hres eq_refl) as (Hkey & _). cbn in Hkey.
  apply elem_of_app. right. apply Hkey. by exists 77%N.
Defined.

Lemma nonEmpty_true (X : gset UID) : nonEmpty X = true ↔ X ≠ ∅.
Proof.
  unfold nonEmpty. rewrite bool_decide_eq_true.
  rewrite <- (leibniz_equiv_iff X ∅), <- size_non_empty_iff. lia.
Qed.

Lemma rekeyDelta_incKeyGen u wk rk rDkim wDkim :
  incKeyGen (rekeyDelta u wk rk rDkim wDkim) = true ↔
  usersWithRemovedDevices wDkim wk ∪ usersWithRemovedDevices rDkim rk ≠ ∅.
Proof.
  cbn. rewrite orb_true_iff, !nonEmpty_true, empty_union_L.
  split.
  - intros [Hw|Hr] [? ?]; done.
  - intros Hne.
    destruct (decide (usersWithRemovedDevices wDkim wk = ∅)) as [Hw|]; [|by left].
    right. intros Hr. by apply Hne.
Qed.

(** C1, as the code has it: bob, a reader, calls [Rekey] after alice
    revoked her device [A0].  The set of users with removed devices is
    not empty, and no generation is added: the call stops at line 616
    with [RekeyIncompleteError]. *)
Lemma reader_adds_no_generation :
  let md := revokedMD None in
  let run := Rekey bobWorld false (mkMem md KM0) in
  usersWithRemovedDevices (s_writers md) {[ "alice" := {[ "A1" ]} ]}
    ∪ usersWithRemovedDevices (s_readers md) {[ "bob" := {[ "B1" ]} ]}
  = {[ "alice" ]} ∧
  run.1 = mkResult false None (Some RekeyIncompleteError) ∧
  calls (mem_km run.2)
  = [EvGetCurrentUserInfo; EvResolveAgain;
     EvFlushUser "alice"; EvGetCryptPublicKeys "alice";
     EvFlushUser "bob"; EvGetCryptPublicKeys "bob";
     EvIdentify ["alice"]] ∧
  LatestKeyGeneration (mem_md run.2) = 3.
Proof.
  intros md run. split; [vm_compute; reflexivity|].
  split; [vm_compute; reflexivity|].
  split; vm_compute; reflexivity.
Qed.

Lemma diffInputs_unique {MD} `{RootMetadata MD} (w : World MD)
    (promptPaper : bool) (s : Mem MD) c wk rk rDkim wDkim c' wk' rk' rDkim' wDkim' :
  diffInputs w promptPaper s c wk rk rDkim wDkim →
  diffInputs w promptPaper s c' wk' rk' rDkim' wDkim' →
  c' = c ∧ wk' = wk ∧ rk' = rk ∧ rDkim' = rDkim ∧ wDkim' = wDkim.
Proof.
  intros (s0 & k1 & k2 & Hc & Hw & Hr & Hm)
         (s0' & k1' & k2' & Hc' & Hw' & Hr' & Hm').
  rewrite Hc in Hc'. injection Hc' as <- <-.
  rewrite Hw in Hw'. injection Hw' as <- <-.
  rewrite Hr in Hr'. injection Hr' as <- <-.
  rewrite Hm in Hm'. injection Hm' as <- <-. done.
Qed.

(** On a folder that has a valid generation, [rekeyDecide] does not fail
    only if the diff of lines 549-595 was computed; it then goes on with
    the plan of the diff, or stops at line 597 with nothing to do, which
    it does only if [incKeyGen] is not set. *)
Lemma rekeyDecide_diff {MD} `{RootMetadata MD} (w : World MD)
    (promptPaper : bool) (s : Mem MD) x s1 :
  FirstValidKeyGen ≤ LatestKeyGeneration (mem_md s) →
  rekeyDecide w promptPaper s = (inr x, s1) →
  ∃ c wk rk rDkim wDkim,
    diffInputs w promptPaper s c wk rk rDkim wDkim ∧
    (x = inr (c, rekeyDelta (uid c) wk rk rDkim wDkim) ∨
     x = inl (mkResult false None None) ∧
     incKeyGen (rekeyDelta (uid c) wk rk rDkim wDkim) = false).
Proof.
  intros Hgen Hr. unfold rekeyDecide in Hr. rewrite bind_run in Hr.
  pose proof (rekeyResolve_steady w promptPaper s) as Hmd.
  destruct (rekeyResolve w promptPaper s) as [[?|c] s0] eqn:Hres;
    [discriminate Hr|]. cbn in Hmd.
  pose proof (rekeyResolve_inr _ _ _ _ _ Hres) as (_ & Hcur & Hpub & _).
  rewrite bind_run in Hr. unfold getMD at 1 in Hr. cbv beta iota in Hr.
  rewrite Hmd in Hr.
  assert (IsPublic (TlfID (mem_md s)) = false) as Hp.
  { rewrite Hpub. apply Z.eqb_neq. unfold PublicKeyGen, FirstValidKeyGen in *.
    lia. }
  assert ((currKeyGen c <? FirstValidKeyGen) = false) as Hfirst
    by (apply Z.ltb_ge; lia).
  rewrite Hp, Hfirst, andb_false_r in Hr. cbn [negb] in Hr.
  rewrite bind_run in Hr. unfold inKM at 1 in Hr.
  destruct (generateKeyMapForUsers w (ResolvedWriters (resolvedHandle c))
              (mem_km s0)) as [[?|wk] k1] eqn:Hw; [discriminate Hr|].
  rewrite bind_run in Hr. unfold inKM at 1 in Hr. cbn [mem_km mem_md] in Hr.
  destruct (generateKeyMapForUsers w (ResolvedReaders (resolvedHandle c)) k1)
    as [[?|rk] k2] eqn:Hrd; [discriminate Hr|].
  rewrite bind_run in Hr.
  destruct (rekeyDiff w c wk rk (mkMem (mem_md s0) k2)) as [[?|p] sd] eqn:Hd;
    [discriminate Hr|].
  apply rekeyDiff_inr in Hd as (_ & rDkim & wDkim & Hmaps & ->).
  cbn [mem_md] in Hmaps. rewrite Hmd, Hcur in Hmaps.
  exists c, wk, rk, rDkim, wDkim. split.
  { exists s0, k1, k2. done. }
  destruct (negb _ && negb _ && negb _ && negb (handleChanged c)) eqn:Hno;
    mred_in Hr; injection Hr as <- <-.
  - right. split; [done|].
    apply andb_prop in Hno as [Hno _]. apply andb_prop in Hno as [_ Hno].
    by apply negb_true_iff.
  - by left.
Qed.

(** C1, amended: on a folder that has a valid generation, with [removed]
    the set of users with removed devices (writers or readers) that
    lines 563-564 work out: [Rekey] sets [incKeyGen] if and only if
    [removed] is not empty, so also when the only change is a promotion
    (the promoted readers are among [removed]), and stops at line 597
    with nothing to do only if [removed] is empty; a generation is added
    only by a writer and only if [removed] is not empty; a call that
    returns without error has added a generation if and only if
    [removed] is not empty; a caller who is not a writer, with [removed]
    not empty, gets an error.  Whenever a generation is added or the
    call returns without error, [removed] was worked out. *)
Theorem new_generation_iff_removed {MD} `{RootMetadata MD} (w : World MD)
    (promptPaper : bool) (s : Mem MD) :
  FirstValidKeyGen ≤ LatestKeyGeneration (mem_md s) →
  let r := (Rekey w promptPaper s).1 in
  ∃ evs,
    calls (mem_km (Rekey w promptPaper s).2) = calls (mem_km s) ++ evs ∧
    ((∃ b, EvAddKeyGeneration b ∈ evs) ∨ err r = None →
     ∃ c wk rk rDkim wDkim,
       diffInputs w promptPaper s c wk rk rDkim wDkim) ∧
    ∀ c wk rk rDkim wDkim,
      diffInputs w promptPaper s c wk rk rDkim wDkim →
      let p := rekeyDelta (uid c) wk rk rDkim wDkim in
      let removed := removedUsers wk rk rDkim wDkim in
      (incKeyGen p = true ↔ removed ≠ ∅) ∧
      promotedReaders p ⊆ removed ∧
      (∀ x s1, rekeyDecide w promptPaper s = (inr x, s1) →
         x = inr (c, p) ∨ x = inl (mkResult false None None) ∧ removed = ∅) ∧
      (∀ b, EvAddKeyGeneration b ∈ evs → isWriter c = true ∧ removed ≠ ∅) ∧
      (err r = None → (EvAddKeyGeneration true ∈ evs ↔ removed ≠ ∅)) ∧
      (isWriter c = false → removed ≠ ∅ → is_Some (err r)).
Proof.
  intros Hgen r. subst r.
  destruct (Rekey w promptPaper s) as [r s'] eqn:Hrun. cbn [fst snd].
  pose proof Hrun as Hsum.
  apply Rekey_summary in Hsum
    as (X & G & EQ & FX & FG & Hadd & _ & _ & _ & _ & Hinc).
  exists (X ++ G). split; [done|].
  assert (∀ b, EvAddKeyGeneration b ∈ X ++ G →
            ∃ c p s1, rekeyDecide w promptPaper s = (inr (inr (c, p)), s1) ∧
                      isWriter c = true ∧ incKeyGen p = true) as Hwho.
  { intros b Hin. apply elem_of_app in Hin as [Hin|Hin].
    - rewrite Forall_forall in FX. by destruct (FX _ Hin).
    - destruct Hadd as (_ & c & p & s1 & ? & ? & ? & _).
      + apply Exists_exists. by exists (EvAddKeyGeneration b).
      + eauto 10. }
  assert (err r = None → ∃ x s1, rekeyDecide w promptPaper s = (inr x, s1))
    as Hok.
  { intros He. destruct (rekeyDecide w promptPaper s) as [[e|x] s1] eqn:Hd;
      [|eauto].
    unfold Rekey, rekeyBody in Hrun. rewrite Hd in Hrun. cbn in Hrun.
    injection Hrun as <- _. discriminate He. }
  assert (∀ c wk rk rDkim wDkim,
            diffInputs w promptPaper s c wk rk rDkim wDkim →
            ∀ x s1, rekeyDecide w promptPaper s = (inr x, s1) →
              x = inr (c, rekeyDelta (uid c) wk rk rDkim wDkim) ∨
              x = inl (mkResult false None None) ∧
              incKeyGen (rekeyDelta (uid c) wk rk rDkim wDkim) = false)
    as Hplan.
  { intros c wk rk rDkim wDkim Hdi x s1 Hd.
    destruct (rekeyDecide_diff _ _ _ _ _ Hgen Hd)
      as (c' & wk' & rk' & rDkim' & wDkim' & Hdi' & Hx).
    by destruct (diffInputs_unique _ _ _ _ _ _ _ _ _ _ _ _ _ Hdi Hdi')
      as (-> & -> & -> & -> & ->). }
  split.
  { intros [[b Hin]|He].
    - destruct (Hwho b Hin) as (c & p & s1 & Hd & _).
      destruct (rekeyDecide_diff _ _ _ _ _ Hgen Hd)
        as (c' & wk & rk & rDkim & wDkim & Hdi & _). eauto 10.
    - destruct (Hok He) as (x & s1 & Hd).
      destruct (rekeyDecide_diff _ _ _ _ _ Hgen Hd)
        as (c' & wk & rk & rDkim & wDkim & Hdi & _). eauto 10. }
  intros c wk rk rDkim wDkim Hdi. cbv zeta. unfold removedUsers.
  pose proof (rekeyDelta_incKeyGen (uid c) wk rk rDkim wDkim) as Hiff.
  assert (∀ b, EvAddKeyGeneration b ∈ X ++ G →
            isWriter c = true ∧
            incKeyGen (rekeyDelta (uid c) wk rk rDkim wDkim) = true) as Hwho'.
  { intros b Hin. destruct (Hwho b Hin) as (c' & p' & s1 & Hd & Hw & Hi).
    destruct (Hplan _ _ _ _ _ Hdi _ _ Hd) as [[= -> ->]|[[=] _]]. done. }
  assert (err r = None →
          (EvAddKeyGeneration true ∈ X ++ G ↔
           incKeyGen (rekeyDelta (uid c) wk rk rDkim wDkim) = true)) as Hnew.
  { intros He. split; [intros Hin; by destruct (Hwho' _ Hin)|].
    intros Hi. destruct (Hok He) as (x & s1 & Hd).
    destruct (Hplan _ _ _ _ _ Hdi _ _ Hd) as [->|[_ Hno]]; [|congruence].
    apply elem_of_app. right. by eapply Hinc. }
  split_and!.
  - exact Hiff.
  - cbn. intros u Hu. apply elem_of_intersection in Hu as [Hu _].
    apply elem_of_union. by right.
  - intros x s1 Hd. destruct (Hplan _ _ _ _ _ Hdi _ _ Hd) as [->|[-> Hno]];
      [by left|right]. split; [done|].
    destruct (decide (usersWithRemovedDevices wDkim wk
                        ∪ usersWithRemovedDevices rDkim rk = ∅)) as [|Hne];
      [done|]. apply Hiff in Hne. congruence.
  - intros b Hin. destruct (Hwho' b Hin) as [Hw Hi]. split; [done|].
    by apply Hiff.
  - intros He. rewrite (Hnew He). exact Hiff.
  - intros Hw Hne. destruct (err r) as [e|] eqn:He; [by eexists|].
    apply Hiff, (Hnew eq_refl), Hwho' in Hne as [Hw' _]. congruence.
Qed.

Lemma new_generation_iff_removed_witness :
  let s := mkMem (revokedMD None) KM0 in
  FirstValidKeyGen ≤ LatestKeyGeneration (mem_md s) ∧
  removedUsers (wKeys alicePlan) (rKeys alicePlan)
    (s_readers (revokedMD None)) (s_writers (revokedMD None)) = {[ "alice" ]} ∧
  (Rekey aliceWorld false s).1 = mkResult true (Some 77%N) None ∧
  ∃ evs, calls (mem_km (Rekey aliceWorld false s).2) = [] ++ evs ∧
         EvAddKeyGeneration true ∈ evs.
Proof.
  intros s.
  assert (FirstValidKeyGen ≤ LatestKeyGeneration (mem_md s)) as Hgen
    by (vm_compute; discriminate).
  split; [exact Hgen|].
  assert (removedUsers (wKeys alicePlan) (rKeys alicePlan)
            (s_readers (revokedMD None)) (s_writers (revokedMD None))
          = {[ "alice" ]}) as Hrem by (vm_compute; reflexivity).
  split; [exact Hrem|].
  assert ((Rekey aliceWorld false s).1 = mkResult true (Some 77%N) None) as Hr
    by (vm_compute; reflexivity).
  split; [exact Hr|].
  destruct (new_generation_iff_removed (H:=SampleMD_RootMetadata)
              aliceWorld false s Hgen)
    as (evs & Hlog & _ & Hplan).
  exists evs. split; [exact Hlog|].
  destruct (Hplan aliceCaller (wKeys alicePlan) (rKeys alicePlan)
              (s_readers (revokedMD None)) (s_writers (revokedMD None)))
    as (_ & _ & _ & _ & Hnew & _).
  { exists (rekeyResolve aliceWorld false s).2,
      (generateKeyMapForUsers aliceWorld ["alice"]
         (mem_km (rekeyResolve aliceWorld false s).2)).2,
      (generateKeyMapForUsers aliceWorld ["bob"]
         (generateKeyMapForUsers aliceWorld ["alice"]
            (mem_km (rekeyResolve aliceWorld false s).2)).2).2.
    split_and!.
    - transitivity ((rekeyResolve aliceWorld false s).1,
                    (rekeyResolve aliceWorld false s).2);
        [apply surjective_pairing|]. f_equal.
    - match goal with |- ?f = _ =>
        transitivity (f.1, f.2); [apply surjective_pairing|] end. f_equal.
    - match goal with |- ?f = _ =>
        transitivity (f.1, f.2); [apply surjective_pairing|] end. f_equal.
    - reflexivity. }
  cbv zeta in Hnew. rewrite Hr in Hnew. apply (Hnew eq_refl).
  rewrite Hrem. done.
Defined.
(** * Further properties of the key manager *)

(** ** The resolver: generation bounds and the key cache *)

Lemma getTLFCryptKey_hit {MD} `{KeyMetadata MD} (w : World MD)
    (kmd : MD) (keyGen : KeyGen) (flags : getTLFCryptKeyFlags) (s : KM)
    (k : TLFCryptKey) :
  IsPublic (TlfID kmd) = false →
  FirstValidKeyGen ≤ keyGen ≤ LatestKeyGeneration kmd →
  kcache s !! (TlfID kmd, keyGen) = Some k →
  getTLFCryptKey w kmd keyGen flags s
  = (inr k, log (EvCacheGet (TlfID kmd) keyGen) s).
Proof.
  intros Hpub [Hlo Hhi] Hc. unfold getTLFCryptKey. rewrite Hpub.
  apply Z.ltb_ge in Hlo, Hhi. rewrite Hlo, Hhi.
  rewrite bind_run. unfold catch, KeyCache_GetTLFCryptKey.
  cbv beta iota zeta. rewrite Hc. reflexivity.
Qed.

Lemma getTLFCryptKey_in_range {MD} `{KeyMetadata MD} (w : World MD)
    (kmd : MD) (keyGen : KeyGen) (flags : getTLFCryptKeyFlags) (s s' : KM)
    (k : TLFCryptKey) :
  IsPublic (TlfID kmd) = false →
  getTLFCryptKey w kmd keyGen flags s = (inr k, s') →
  FirstValidKeyGen ≤ keyGen ≤ LatestKeyGeneration kmd.
Proof.
  intros Hpub Hrun. unfold getTLFCryptKey in Hrun. rewrite Hpub in Hrun.
  destruct (keyGen <? FirstValidKeyGen) eqn:Hlo; [discriminate Hrun|].
  destruct (LatestKeyGeneration kmd <? keyGen) eqn:Hhi; [discriminate Hrun|].
  apply Z.ltb_ge in Hlo, Hhi. lia.
Qed.

(** After a successful call with DO_CACHE the cache is the old one with
    the returned key stored under the requested (TLF, generation). *)
Lemma getTLFCryptKey_caches {MD} `{KeyMetadata MD} (w : World MD)
    (kmd : MD) (keyGen : KeyGen) (flags : getTLFCryptKeyFlags) (s s' : KM)
    (k : TLFCryptKey) :
  IsPublic (TlfID kmd) = false →
  hasFlag flags getTLFCryptKeyDoCache = true →
  getTLFCryptKey w kmd keyGen flags s = (inr k, s') →
  kcache s' = <[(TlfID kmd, keyGen) := k]> (kcache s).
Proof.
  intros Hpub Hdo Hrun. unfold getTLFCryptKey in Hrun. rewrite Hpub in Hrun.
  destruct (keyGen <? FirstValidKeyGen); [discriminate Hrun|].
  destruct (LatestKeyGeneration kmd <? keyGen); [discriminate Hrun|].
  rewrite bind_run in Hrun. unfold catch, KeyCache_GetTLFCryptKey in Hrun.
  cbv beta iota zeta in Hrun.
  destruct (kcache s !! (TlfID kmd, keyGen)) as [k0|] eqn:Hc.
  { injection Hrun as <- <-. cbn. by rewrite insert_id. }
  rewrite bind_run in Hrun.
  set (s0 := log (EvCacheGet (TlfID kmd) keyGen) s) in *.
  pose proof (resolveTLFCryptKey_steady w kmd keyGen flags s0) as Hst.
  destruct (resolveTLFCryptKey w kmd keyGen flags s0) as [[e|k1] s1];
    [discriminate Hrun|]. cbn [snd] in Hst.
  rewrite Hdo, bind_run in Hrun. cbn in Hrun. injection Hrun as <- <-.
  cbn. by rewrite Hst.
Qed.

(** X1: on a private folder [getTLFCryptKey] answers a generation below
    [FirstValidKeyGen] with [InvalidKeyGenerationError] and a generation
    above the latest one with [NewKeyGenerationError] (the first test
    wins when both apply), in both cases before the key cache or any
    service is consulted; so a key is only ever returned for a
    generation between [FirstValidKeyGen] and the latest one, and
    [GetTLFCryptKeyForEncryption] fails on a folder that has no valid
    generation yet. *)
Theorem generation_out_of_range {MD} `{KeyMetadata MD} (w : World MD)
    (kmd : MD) (keyGen : KeyGen) (flags : getTLFCryptKeyFlags) (s : KM) :
  IsPublic (TlfID kmd) = false →
  (keyGen < FirstValidKeyGen →
   getTLFCryptKey w kmd keyGen flags s
   = (inl (InvalidKeyGenerationError (TlfID kmd) keyGen), s)) ∧
  (FirstValidKeyGen ≤ keyGen → LatestKeyGeneration kmd < keyGen →
   getTLFCryptKey w kmd keyGen flags s
   = (inl (NewKeyGenerationError (TlfID kmd) keyGen), s)) ∧
  (∀ k, (getTLFCryptKey w kmd keyGen flags s).1 = inr k →
        FirstValidKeyGen ≤ keyGen ≤ LatestKeyGeneration kmd) ∧
  (LatestKeyGeneration kmd < FirstValidKeyGen →
   GetTLFCryptKeyForEncryption w kmd s
   = (inl (InvalidKeyGenerationError (TlfID kmd) (LatestKeyGeneration kmd)),
      s)).
Proof.
  intros Hpub. split_and!.
  - intros Hlo. unfold getTLFCryptKey. rewrite Hpub.
    apply Z.ltb_lt in Hlo. by rewrite Hlo.
  - intros Hlo Hhi. unfold getTLFCryptKey. rewrite Hpub.
    apply Z.ltb_ge in Hlo. apply Z.ltb_lt in Hhi. by rewrite Hlo, Hhi.
  - intros k Hk.
    destruct (getTLFCryptKey w kmd keyGen flags s) as [r s'] eqn:Hrun.
    cbn in Hk. subst r. by eapply getTLFCryptKey_in_range.
  - intros Hlo. unfold GetTLFCryptKeyForEncryption,
      getTLFCryptKeyUsingCurrentDevice, getTLFCryptKey. rewrite Hpub.
    apply Z.ltb_lt in Hlo. by rewrite Hlo.
Qed.

Lemma generation_out_of_range_witness :
  IsPublic (TlfID (folderMD false)) = false ∧
  getTLFCryptKey aliceWorld (folderMD false) 0 getTLFCryptKeyDoCache KM0
  = (inl (InvalidKeyGenerationError (mk_tlf_ID "priv" false) 0), KM0) ∧
  getTLFCryptKey aliceWorld (folderMD false) 4 getTLFCryptKeyDoCache KM0
  = (inl (NewKeyGenerationError (mk_tlf_ID "priv" false) 4), KM0).
Proof.
  assert (IsPublic (TlfID (folderMD false)) = false) as Hp by reflexivity.
  split; [exact Hp|].
  destruct (generation_out_of_range aliceWorld (folderMD false) 0
              getTLFCryptKeyDoCache KM0 Hp) as (Hlo & _).
  destruct (generation_out_of_range aliceWorld (folderMD false) 4
              getTLFCryptKeyDoCache KM0 Hp) as (_ & Hhi & _).
  split; [apply Hlo; reflexivity|apply Hhi; [discriminate|reflexivity]].
Defined.

(** X2: a folder key that [getTLFCryptKey] returned under DO_CACHE is in
    the key cache afterwards (the other entries are as before), and the
    next request for the same folder and generation is answered from the
    cache alone: whatever the flags, and whatever the identity service,
    the crypto layer and the key server would answer, the same key comes
    back and the only call logged is the cache lookup. *)
Theorem cached_key_is_served {MD} `{KeyMetadata MD} (w w' : World MD)
    (kmd : MD) (keyGen : KeyGen) (flags flags' : getTLFCryptKeyFlags)
    (s s' : KM) (k : TLFCryptKey) :
  IsPublic (TlfID kmd) = false →
  hasFlag flags getTLFCryptKeyDoCache = true →
  getTLFCryptKey w kmd keyGen flags s = (inr k, s') →
  kcache s' = <[(TlfID kmd, keyGen) := k]> (kcache s) ∧
  getTLFCryptKey w' kmd keyGen flags' s'
  = (inr k, log (EvCacheGet (TlfID kmd) keyGen) s').
Proof.
  intros Hpub Hdo Hrun.
  pose proof (getTLFCryptKey_caches _ _ _ _ _ _ _ Hpub Hdo Hrun) as Hc.
  split; [exact Hc|].
  apply getTLFCryptKey_hit; [done|by eapply getTLFCryptKey_in_range|].
  rewrite Hc. apply lookup_insert_eq.
Qed.

Lemma cached_key_is_served_witness :
  let s' := (getTLFCryptKey aliceWorld (folderMD false) 2
               getTLFCryptKeyDoCache KM0).2 in
  (getTLFCryptKey aliceWorld (folderMD false) 2 getTLFCryptKeyDoCache KM0).1
  = inr 12%N ∧
  getTLFCryptKey carolWorld (folderMD false) 2 0 s'
  = (inr 12%N, log (EvCacheGet (mk_tlf_ID "priv" false) 2) s').
Proof.
  intros s'. split; [vm_compute; reflexivity|].
  refine (proj2 (cached_key_is_served aliceWorld carolWorld (folderMD false) 2
                   getTLFCryptKeyDoCache 0 KM0 s' 12%N _ _ _));
    [reflexivity|reflexivity|vm_compute; reflexivity].
Defined.

(** ** Which device's key is used *)

Section DeviceFacts.
Context {MD : Type} `{KeyMetadata MD}.
Variable w : World MD.

Lemma getTLFCryptKeyParams_current kmd g u n flags :
  hasFlag flags getTLFCryptKeyAnyDevice = false →
  emits (fun e => isLookup e ∧ ¬ anyDeviceCall e ∧ notCachePut e)
    (getTLFCryptKeyParams w kmd g u n flags).
Proof.
  intros Hany. unfold getTLFCryptKeyParams. rewrite Hany.
  monad_auto; split_and!; try done; by intros [].
Qed.

Lemma unmaskTLFCryptKey_current i k c :
  emits (fun e => isLookup e ∧ ¬ anyDeviceCall e ∧ notCachePut e)
    (unmaskTLFCryptKey w i k c).
Proof.
  unfold unmaskTLFCryptKey. monad_auto; split_and!; try done; by intros [].
Qed.

Lemma resolveTLFCryptKey_current kmd g flags :
  hasFlag flags getTLFCryptKeyAnyDevice = false →
  emits (fun e => isLookup e ∧ ¬ anyDeviceCall e ∧ notCachePut e)
    (resolveTLFCryptKey w kmd g flags).
Proof.
  intros Hany. unfold resolveTLFCryptKey.
  monad_auto;
    auto using getTLFCryptKeyParams_current, unmaskTLFCryptKey_current;
    split_and!; try done; by intros [].
Qed.

Lemma getTLFCryptKey_current kmd g flags :
  hasFlag flags getTLFCryptKeyAnyDevice = false →
  emits (fun e => isLookup e ∧ ¬ anyDeviceCall e) (getTLFCryptKey w kmd g flags).
Proof.
  intros Hany. unfold getTLFCryptKey. monad_auto;
    try (split_and!; try done; by intros []).
  eapply emits_mono; [|by apply resolveTLFCryptKey_current].
  by intros e (? & ? & _).
Qed.

Lemma getTLFCryptKey_no_cache kmd g flags :
  hasFlag flags getTLFCryptKeyDoCache = false →
  emits notCachePut (getTLFCryptKey w kmd g flags) ∧
  steady kcache (getTLFCryptKey w kmd g flags).
Proof.
  intros Hdo. unfold getTLFCryptKey. rewrite Hdo. split.
  - monad_auto; try done.
    eapply emits_mono; [|apply resolveTLFCryptKey_emits]. by intros e [_ ?].
  - monad_auto; auto using resolveTLFCryptKey_steady.
Qed.

End DeviceFacts.

(** X3: the entry points that work with the current device
    ([GetTLFCryptKeyForEncryption], [GetTLFCryptKeyForBlockDecryption])
    only ever look things up, and never go through the any-device path:
    they neither list the user's device keys nor ask the crypto layer to
    try several keys (so they cannot prompt for a paper key).
    [GetTLFCryptKeyForEncryption] moreover passes no DO_CACHE: it never
    writes the key cache. *)
Theorem current_device_entry_points {MD} `{KeyMetadata MD} (w : World MD)
    (kmd : MD) (blockPtrKeyGen : KeyGen) (s : KM) :
  (∃ evs,
     calls (GetTLFCryptKeyForEncryption w kmd s).2 = calls s ++ evs ∧
     Forall (fun e => isLookup e ∧ ¬ anyDeviceCall e ∧ notCachePut e) evs) ∧
  kcache (GetTLFCryptKeyForEncryption w kmd s).2 = kcache s ∧
  (∃ evs,
     calls (GetTLFCryptKeyForBlockDecryption w kmd blockPtrKeyGen s).2
     = calls s ++ evs ∧
     Forall (fun e => isLookup e ∧ ¬ anyDeviceCall e) evs).
Proof.
  unfold GetTLFCryptKeyForEncryption, GetTLFCryptKeyForBlockDecryption,
    getTLFCryptKeyUsingCurrentDevice.
  destruct (getTLFCryptKey_no_cache w kmd (LatestKeyGeneration kmd) 0 eq_refl)
    as [Hnc Hst].
  split_and!.
  - destruct (getTLFCryptKey_current w kmd (LatestKeyGeneration kmd) 0 eq_refl s)
      as (evs & Hevs & Hall).
    destruct (Hnc s) as (evs' & Hevs' & Hall').
    rewrite Hevs in Hevs'. apply app_inv_head in Hevs'. subst evs'.
    exists evs. split; [exact Hevs|].
    rewrite Forall_forall in Hall, Hall' |- *. intros e He.
    destruct (Hall e He). split_and!; auto.
  - apply Hst.
  - apply (getTLFCryptKey_current w kmd blockPtrKeyGen getTLFCryptKeyDoCache).
    reflexivity.
Qed.

(** ** The any-device path picks matching entries *)

Lemma collectKeyParams_aligned {MD} `{KeyMetadata MD} (kmd : MD) g u :
  ∀ pks pre keys ids lk keys' ids' lk',
    aligned kmd g u (pre ++ pks) keys ids lk →
    collectKeyParams kmd g u pks (Z.of_nat (length pre)) keys ids lk
    = inr (keys', ids', lk') →
    aligned kmd g u (pre ++ pks) keys' ids' lk'.
Proof.
  induction pks as [|k pks IH]; intros pre keys ids lk keys' ids' lk' Hal Hc;
    simpl in Hc.
  - by injection Hc as <- <- <-.
  - assert (Z.of_nat (length pre) + 1 = Z.of_nat (length (pre ++ [k]))) as Hi
      by (rewrite length_app; simpl; lia).
    rewrite Hi in Hc. rewrite (cons_middle k pre pks), app_assoc in Hal |- *.
    destruct (GetTLFCryptKeyParams kmd g u k)
      as [e0|[[[p c] sid] found]] eqn:Hk.
    + destruct (isNotPerDeviceEncrypted e0); [discriminate Hc|]. eauto.
    + destruct found; cbn [negb] in Hc; [|eauto].
      eapply IH; [|exact Hc].
      destruct Hal as (Hl1 & Hl2 & Hal). split_and!.
      * rewrite !length_app. simpl. lia.
      * rewrite !length_app. simpl. lia.
      * intros j key Hj. apply lookup_app_Some in Hj as [Hj|[Hge Hj]].
        -- destruct (Hal j key Hj) as (sid' & idx & ? & ? & ? & ?).
           exists sid', idx. split_and!; [| |done|done];
             by apply lookup_app_l_Some.
        -- apply list_lookup_singleton_Some in Hj as [Hj0 <-]. cbn.
           exists sid, (Z.of_nat (length pre)).
           assert (j = length keys) as -> by lia.
           split_and!.
           ++ rewrite <- Hl1. apply list_lookup_middle. done.
           ++ rewrite <- Hl2. apply list_lookup_middle. done.
           ++ unfold lookupZ.
              destruct (Z.of_nat (length pre) <? 0) eqn:Hneg;
                [apply Z.ltb_lt in Hneg; lia|].
              rewrite Nat2Z.id, <- app_assoc. simpl.
              by apply list_lookup_middle.
           ++ exact Hk.
Qed.

(** X4: when [getTLFCryptKeyParams] succeeds on the any-device path, the
    three results belong to one and the same device: the returned public
    key is one of the user's device keys, the returned server-half ID is
    the one the metadata stores for that key in the requested generation,
    and the client half is what the crypto layer decrypted, having
    pointed at the entry that holds this key's encrypted client half and
    ephemeral key. *)
Theorem any_device_params_aligned {MD} `{KeyMetadata MD} (w : World MD)
    (kmd : MD) (keyGen : KeyGen) (uid : UID) (username : NormalizedUsername)
    (flags : getTLFCryptKeyFlags) (s s' : KM)
    (clientHalf : TLFCryptKeyClientHalf) (serverHalfID : TLFCryptKeyServerHalfID)
    (cryptPublicKey : CryptPublicKey) :
  hasFlag flags getTLFCryptKeyAnyDevice = true →
  getTLFCryptKeyParams w kmd keyGen uid username flags s
  = (inr (clientHalf, serverHalfID, cryptPublicKey), s') →
  ∃ publicKeys keys index key,
    GetCryptPublicKeys w uid = inr publicKeys ∧
    cryptPublicKey ∈ publicKeys ∧
    DecryptTLFCryptKeyClientHalfAny w keys
      (hasFlag flags getTLFCryptKeyPromptPaper) = inr (clientHalf, index) ∧
    lookupZ keys index = Some key ∧
    PubKey key = cryptPublicKey ∧
    GetTLFCryptKeyParams kmd keyGen uid cryptPublicKey
    = inr (EPubKey key, ClientHalf key, serverHalfID, true).
Proof.
  intros Hany Hrun. unfold getTLFCryptKeyParams in Hrun. rewrite Hany in Hrun.
  mred_in Hrun.
  destruct (GetCryptPublicKeys w uid) as [?|pks] eqn:Hpks; [discriminate Hrun|].
  destruct (collectKeyParams kmd keyGen uid pks 0 [] [] [])
    as [?|[[keys ids] lk]] eqn:Hc; [discriminate Hrun|].
  apply (collectKeyParams_aligned kmd keyGen uid pks [] [] [] []) in Hc
    as (Hl1 & Hl2 & Hal).
  2: { split_and!; [done|done|]. intros j key Hj. by rewrite lookup_nil in Hj. }
  simpl in Hal.
  destruct (bool_decide (length keys = 0%nat)); [discriminate Hrun|].
  cbv beta iota in Hrun.
  destruct (DecryptTLFCryptKeyClientHalfAny w keys _)
    as [e|[ch index]] eqn:Hdec.
  { destruct e; discriminate Hrun. }
  destruct (lookupZ ids index) as [sid|] eqn:Hsid; [|discriminate Hrun].
  destruct (lookupZ lk index) as [idx|] eqn:Hidx; [|discriminate Hrun].
  cbn [option_bind] in Hrun.
  destruct (lookupZ pks idx) as [cpk|] eqn:Hcpk; [|discriminate Hrun].
  injection Hrun as <- <- <- <-.
  unfold lookupZ in Hsid, Hidx.
  destruct (index <? 0) eqn:Hneg; [discriminate Hsid|].
  assert (is_Some (keys !! Z.to_nat index)) as [key Hkey].
  { apply lookup_lt_is_Some. rewrite <- Hl1. by eapply lookup_lt_Some. }
  destruct (Hal _ _ Hkey) as (sid' & idx' & Hs' & Hi' & Hpk & Hparams).
  rewrite Hsid in Hs'. injection Hs' as <-.
  rewrite Hidx in Hi'. injection Hi' as <-.
  rewrite Hcpk in Hpk. injection Hpk as ->.
  exists pks, keys, index, key. split_and!; try done.
  - unfold lookupZ in Hcpk. destruct (idx <? 0); [discriminate Hcpk|].
    by eapply list_elem_of_lookup_2.
  - unfold lookupZ. by rewrite Hneg.
Qed.

Lemma any_device_params_aligned_witness :
  hasFlag getTLFCryptKeyAnyDevice getTLFCryptKeyAnyDevice = true ∧
  (getTLFCryptKeyParams aliceWorld (folderMD false) 3 "alice" "alice"
     getTLFCryptKeyAnyDevice KM0).1 = inr (9%N, "hA1", "A1") ∧
  ∃ publicKeys keys index key,
    GetCryptPublicKeys aliceWorld "alice" = inr publicKeys ∧
    "A1" ∈ publicKeys ∧
    DecryptTLFCryptKeyClientHalfAny aliceWorld keys
      (hasFlag getTLFCryptKeyAnyDevice getTLFCryptKeyPromptPaper)
    = inr (9%N, index) ∧
    lookupZ keys index = Some key ∧
    PubKey key = "A1" ∧
    GetTLFCryptKeyParams (folderMD false) 3 "alice" "A1"
    = inr (EPubKey key, ClientHalf key, "hA1", true).
Proof.
  split; [reflexivity|]. split; [vm_compute; reflexivity|].
  eapply (any_device_params_aligned aliceWorld (folderMD false) 3
            "alice" "alice" getTLFCryptKeyAnyDevice KM0);
    [reflexivity|vm_compute; reflexivity].
Defined.

(** ** All generations, and the cache afterwards *)

Lemma generationsUpTo_lookup latest (i : nat) g :
  generationsUpTo latest !! i = Some g →
  g = FirstValidKeyGen + Z.of_nat i ∧ FirstValidKeyGen ≤ g ≤ latest.
Proof.
  unfold generationsUpTo. intros Hl. apply lookup_seqZ in Hl as [-> Hi].
  split; [done|]. lia.
Qed.

Lemma allGenerationsLoop_cached {MD} `{KeyMetadata MD} (w : World MD)
    (kmd : MD) :
  IsPublic (TlfID kmd) = false →
  ∀ gens acc s keys s',
    allGenerationsLoop w kmd gens acc s = ((keys, None), s') →
    ∃ ks, keys = acc ++ ks ∧ length ks = length gens ∧
      (∀ key, (∀ g, g ∈ gens → key ≠ (TlfID kmd, g)) →
              kcache s' !! key = kcache s !! key) ∧
      (NoDup gens → ∀ (i : nat) g k, gens !! i = Some g → ks !! i = Some k →
                    kcache s' !! (TlfID kmd, g) = Some k).
Proof.
  intros Hpub. induction gens as [|g rest IH]; intros acc s keys s' Hrun;
    simpl in Hrun.
  - injection Hrun as <- <-. exists []. rewrite app_nil_r.
    split_and!; done.
  - unfold getTLFCryptKeyUsingCurrentDevice in Hrun.
    destruct (getTLFCryptKey w kmd g getTLFCryptKeyDoCache s)
      as [[e|k0] s1] eqn:H1; [discriminate Hrun|].
    apply getTLFCryptKey_caches in H1 as Hc; [|done|reflexivity].
    apply IH in Hrun as (ks & -> & Hlen & Hkeep & Hget).
    exists (k0 :: ks). split_and!.
    + by rewrite <- app_assoc.
    + simpl. lia.
    + intros key Hne. rewrite Hkeep, Hc.
      * apply lookup_insert_ne. intros Heq. apply (Hne g); [by left|done].
      * intros g' Hin. apply Hne. by right.
    + intros Hnd i g' k Hg Hk. apply NoDup_cons in Hnd as [Hnotin Hnd].
      destruct i as [|i]; simpl in Hg, Hk.
      * injection Hg as <-. injection Hk as <-. rewrite Hkeep, Hc.
        -- apply lookup_insert_eq.
        -- intros g' Hin [= <-]. done.
      * eauto.
Qed.

Lemma allGenerationsLoop_hits {MD} `{KeyMetadata MD} (w : World MD)
    (kmd : MD) :
  IsPublic (TlfID kmd) = false →
  ∀ gens ks acc s,
    length ks = length gens →
    (∀ g, g ∈ gens → FirstValidKeyGen ≤ g ≤ LatestKeyGeneration kmd) →
    (∀ (i : nat) g k, gens !! i = Some g → ks !! i = Some k →
                      kcache s !! (TlfID kmd, g) = Some k) →
    allGenerationsLoop w kmd gens acc s
    = ((acc ++ ks, None),
       mkKM (kcache s) (calls s ++ map (EvCacheGet (TlfID kmd)) gens)).
Proof.
  intros Hpub. induction gens as [|g rest IH]; intros ks acc s Hlen Hrange Hc.
  - destruct ks; [|discriminate Hlen]. simpl. rewrite !app_nil_r.
    by destruct s.
  - destruct ks as [|k0 ks]; [discriminate Hlen|]. simpl.
    unfold getTLFCryptKeyUsingCurrentDevice.
    rewrite (getTLFCryptKey_hit w kmd g getTLFCryptKeyDoCache s k0);
      [|done|apply Hrange; by left|by apply (Hc 0%nat)].
    rewrite (IH ks).
    + cbn. by rewrite <- !app_assoc.
    + simpl in Hlen. lia.
    + intros g' Hin. apply Hrange. by right.
    + intros i g' k Hg Hk. cbn. by apply (Hc (S i)).
Qed.

(** X5: after [GetTLFCryptKeyOfAllGenerations] has succeeded on a private
    folder, the key cache holds every returned key under its generation
    ([FirstValidKeyGen + i] for the key at index [i]); a second call then
    returns the same keys from the cache alone, whatever the services
    would answer: it logs one cache lookup per generation and nothing
    else, and leaves the cache as it is. *)
Theorem all_generations_cached {MD} `{KeyMetadata MD} (w w' : World MD)
    (kmd : MD) (s s' : KM) (keys : list TLFCryptKey) :
  IsPublic (TlfID kmd) = false →
  GetTLFCryptKeyOfAllGenerations w kmd s = ((keys, None), s') →
  (∀ (i : nat) k, keys !! i = Some k →
     kcache s' !! (TlfID kmd, FirstValidKeyGen + Z.of_nat i) = Some k) ∧
  GetTLFCryptKeyOfAllGenerations w' kmd s'
  = ((keys, None),
     mkKM (kcache s')
       (calls s' ++ map (EvCacheGet (TlfID kmd))
                      (generationsUpTo (LatestKeyGeneration kmd)))).
Proof.
  intros Hpub Hrun. unfold GetTLFCryptKeyOfAllGenerations in Hrun |- *.
  apply (allGenerationsLoop_cached w kmd Hpub) in Hrun
    as (ks & -> & Hlen & _ & Hget).
  simpl. specialize (Hget (NoDup_seqZ _ _)).
  assert (∀ (i : nat) g k,
            generationsUpTo (LatestKeyGeneration kmd) !! i = Some g →
            ks !! i = Some k → kcache s' !! (TlfID kmd, g) = Some k) as Hall
    by exact Hget.
  split.
  - intros i k Hk.
    assert (is_Some (generationsUpTo (LatestKeyGeneration kmd) !! i))
      as [g Hg].
    { apply lookup_lt_is_Some. rewrite <- Hlen. by eapply lookup_lt_Some. }
    pose proof (generationsUpTo_lookup _ _ _ Hg) as [<- _]. eauto.
  - apply (allGenerationsLoop_hits w' kmd Hpub _ ks [] s'); [done| |done].
    intros g Hin. apply list_elem_of_lookup_1 in Hin as [i Hg].
    by apply generationsUpTo_lookup in Hg as [_ ?].
Qed.

Lemma all_generations_cached_witness :
  let run := GetTLFCryptKeyOfAllGenerations aliceWorld (folderMD false) KM0 in
  run.1 = ([12%N; 12%N; 12%N], None) ∧
  (GetTLFCryptKeyOfAllGenerations carolWorld (folderMD false) run.2).1
  = ([12%N; 12%N; 12%N], None).
Proof.
  intros run.
  assert (run.1 = ([12%N; 12%N; 12%N], None)) as Hr by (vm_compute; reflexivity).
  split; [exact Hr|].
  assert (IsPublic (TlfID (folderMD false)) = false) as Hp by reflexivity.
  destruct (all_generations_cached aliceWorld carolWorld (folderMD false)
              KM0 run.2 [12%N; 12%N; 12%N] Hp) as [_ Hagain].
  - rewrite (surjective_pairing
               (GetTLFCryptKeyOfAllGenerations aliceWorld (folderMD false) KM0)).
    fold run. by rewrite Hr.
  - by rewrite Hagain.
Defined.

(** ** The expected keys against the key bundle *)

Lemma elem_of_usersWithNewDevices (keyInfoMap : UserDeviceKeyInfoMap)
    (expectedKeys : UserDevicePublicKeys) (u : UID) :
  u ∈ usersWithNewDevices keyInfoMap expectedKeys ↔
  ∃ keys, expectedKeys !! u = Some keys ∧ hasNewDevice keyInfoMap u keys = true.
Proof.
  unfold usersWithNewDevices. rewrite elem_of_dom. unfold is_Some.
  setoid_rewrite map_lookup_filter_Some. done.
Qed.

Lemma elem_of_usersWithRemovedDevices (keyInfoMap : UserDeviceKeyInfoMap)
    (expectedKeys : UserDevicePublicKeys) (u : UID) :
  u ∈ usersWithRemovedDevices keyInfoMap expectedKeys ↔
  ∃ keyInfos, keyInfoMap !! u = Some keyInfos ∧
              hasRemovedDevice expectedKeys u keyInfos = true.
Proof.
  unfold usersWithRemovedDevices. rewrite elem_of_dom. unfold is_Some.
  setoid_rewrite map_lookup_filter_Some. done.
Qed.

Lemma hasNewDevice_false (keyInfoMap : UserDeviceKeyInfoMap) (u : UID)
    (keys : gset CryptPublicKey) :
  hasNewDevice keyInfoMap u keys = false ↔
  ∃ kids, keyInfoMap !! u = Some kids ∧ keys ⊆ dom kids.
Proof.
  unfold hasNewDevice. destruct (keyInfoMap !! u) as [kids|].
  - rewrite bool_decide_eq_false. split.
    + intros Hno. exists kids. split; [done|]. intros k Hk.
      apply elem_of_dom. destruct (kids !! k) eqn:Hl; [done|].
      destruct Hno. by exists k.
    + intros (kids' & [= <-] & Hsub) (k & Hk & Hnone).
      apply Hsub, elem_of_dom in Hk as [? Hk]. congruence.
  - split; [done|]. by intros (? & ? & _).
Qed.

Lemma hasRemovedDevice_false (expectedKeys : UserDevicePublicKeys) (u : UID)
    (keyInfos : DeviceKeyInfoMap) :
  hasRemovedDevice expectedKeys u keyInfos = false ↔
  ∃ keys, expectedKeys !! u = Some keys ∧ dom keyInfos ⊆ keys.
Proof.
  unfold hasRemovedDevice. destruct (expectedKeys !! u) as [keys|].
  - cbv zeta. rewrite bool_decide_eq_false. split.
    + intros Hno. exists keys. split; [done|]. intros k Hk.
      destruct (decide (k ∈ keys)) as [|Hnk]; [done|].
      destruct Hno. exists k. split; [done|].
      rewrite elem_of_map. intros (k' & Heq & ?).
      unfold key_KID in Heq. by subst k'.
    + intros (keys' & [= <-] & Hsub) (k & Hk & Hnot).
      apply Hnot, elem_of_map. exists k. split; [done|]. by apply Hsub.
  - split; [done|]. by intros (? & ? & _).
Qed.

(** X6: [usersWithNewDevices] and [usersWithRemovedDevices] are both
    empty exactly when the key bundle and the expected keys agree: they
    list the same users, and for every user the devices with key info
    are exactly the expected device keys.  (A user of the expected keys
    who is missing in the bundle counts as new even with no device at
    all, a user of the bundle who is not expected any more as removed.) *)
Theorem nothing_new_nothing_removed (keyInfoMap : UserDeviceKeyInfoMap)
    (expectedKeys : UserDevicePublicKeys) :
  usersWithNewDevices keyInfoMap expectedKeys = ∅ ∧
  usersWithRemovedDevices keyInfoMap expectedKeys = ∅
  ↔ ∀ u, (dom <$> keyInfoMap !! u : option (gset CryptPublicKey))
         = expectedKeys !! u.
Proof.
  split.
  - intros [Hnew Hrem] u.
    assert (u ∉ usersWithNewDevices keyInfoMap expectedKeys) as Hn
      by (rewrite Hnew; set_solver).
    assert (u ∉ usersWithRemovedDevices keyInfoMap expectedKeys) as Hr
      by (rewrite Hrem; set_solver).
    rewrite elem_of_usersWithNewDevices in Hn.
    rewrite elem_of_usersWithRemovedDevices in Hr.
    destruct (keyInfoMap !! u) as [keyInfos|] eqn:Hk; simpl.
    + destruct (hasRemovedDevice expectedKeys u keyInfos) eqn:Hh;
        [destruct Hr; eauto|].
      apply hasRemovedDevice_false in Hh as (keys & He & Hsub).
      rewrite He. f_equal.
      destruct (hasNewDevice keyInfoMap u keys) eqn:Hh';
        [destruct Hn; eauto|].
      apply hasNewDevice_false in Hh' as (kids & Hk' & Hsub').
      rewrite Hk in Hk'. injection Hk' as <-. set_solver.
    + destruct (expectedKeys !! u) as [keys|] eqn:He; [|done].
      destruct Hn. exists keys. split; [done|].
      unfold hasNewDevice. by rewrite Hk.
  - intros Hsame. split; apply leibniz_equiv, elem_of_equiv_empty; intros u.
    + rewrite elem_of_usersWithNewDevices. intros (keys & He & Hh).
      specialize (Hsame u). rewrite He in Hsame.
      destruct (keyInfoMap !! u) as [keyInfos|] eqn:Hk; [|done].
      injection Hsame as <-.
      assert (hasNewDevice keyInfoMap u (dom keyInfos) = false) as Hf
        by (apply hasNewDevice_false; eauto).
      congruence.
    + rewrite elem_of_usersWithRemovedDevices. intros (keyInfos & Hk & Hh).
      specialize (Hsame u). rewrite Hk in Hsame. simpl in Hsame.
      assert (hasRemovedDevice expectedKeys u keyInfos = false) as Hf
        by (apply hasRemovedDevice_false; eauto).
      congruence.
Qed.

(** ** The map of the users' device keys *)

Lemma generateKeyMapLoop_spec {MD} (w : World MD) :
  ∀ users keyMap0 s,
    let run := generateKeyMapLoop w users keyMap0 s in
    kcache run.2 = kcache s ∧
    match run.1 with
    | inr keyMap =>
        calls run.2 = calls s ++ flat_map flushAndLoad users ∧
        (∀ u, u ∈ users →
           ∃ publicKeys, GetCryptPublicKeys w u = inr publicKeys ∧
                         keyMap !! u = Some (list_to_set publicKeys)) ∧
        (∀ u, u ∉ users → keyMap !! u = keyMap0 !! u)
    | inl e =>
        ∃ visited u rest,
          users = visited ++ u :: rest ∧ GetCryptPublicKeys w u = inl e ∧
          (∀ v, v ∈ visited → ∃ pks, GetCryptPublicKeys w v = inr pks) ∧
          calls run.2 = calls s ++ flat_map flushAndLoad (visited ++ [u])
    end.
Proof.
  induction users as [|u users IH]; intros keyMap0 s; cbv zeta.
  - simpl. rewrite app_nil_r. split_and!; try done. intros u Hu.
    by apply elem_of_nil in Hu.
  - assert (generateKeyMapLoop w (u :: users) keyMap0 s
            = match GetCryptPublicKeys w u with
              | inl e =>
                  (inl e, log (EvGetCryptPublicKeys u) (log (EvFlushUser u) s))
              | inr pks =>
                  generateKeyMapLoop w users (<[u := list_to_set pks]> keyMap0)
                    (log (EvGetCryptPublicKeys u) (log (EvFlushUser u) s))
              end) as ->.
    { cbn [generateKeyMapLoop]. mred.
      by destruct (GetCryptPublicKeys w u). }
    destruct (GetCryptPublicKeys w u) as [e|pks] eqn:Hu.
    + cbn. split; [done|]. exists [], u, users. simpl.
      rewrite <- app_assoc. split_and!; try done.
      intros v Hv. by apply elem_of_nil in Hv.
    + specialize (IH (<[u := list_to_set pks]> keyMap0)
                     (log (EvGetCryptPublicKeys u) (log (EvFlushUser u) s))).
      cbv zeta in IH. destruct IH as [Hc IH]. split; [by rewrite Hc|].
      destruct (generateKeyMapLoop w users _ _) as [[e|keyMap] s1];
        cbn [fst snd] in IH |- *.
      * destruct IH as (visited & v & rest & -> & He & Hok & Hlog).
        exists (u :: visited), v, rest. split_and!; [done|done| |].
        -- intros x Hx. apply elem_of_cons in Hx as [->|Hx]; eauto.
        -- rewrite Hlog. cbn. by rewrite <- !app_assoc.
      * destruct IH as (Hlog & Hin & Hout). split_and!.
        -- rewrite Hlog. cbn. by rewrite <- !app_assoc.
        -- intros x Hx. destruct (decide (x ∈ users)) as [|Hnx]; [eauto|].
           apply elem_of_cons in Hx as [->|Hx]; [|done].
           exists pks. split; [done|]. rewrite (Hout _ Hnx).
           apply lookup_insert_eq.
        -- intros x Hx. apply not_elem_of_cons in Hx as [Hne Hx].
           rewrite (Hout _ Hx). by apply lookup_insert_ne.
Qed.

(** X7: [generateKeyMapForUsers] visits the users in order; for each it
    first flushes the user from the local cache and then asks for the
    device keys.  On success the map has exactly the given users as
    keys, each with the set of the keys the identity service listed (the
    empty set for a user without devices), and the log is one
    flush-and-load pair per user; the first failing lookup ends the loop
    with that error, after the pairs of the users up to the failing one.
    For the empty list nothing is called and the map is empty.  The key
    cache is never touched. *)
Theorem key_map_for_users {MD} (w : World MD) (users : list UID) (s : KM) :
  let run := generateKeyMapForUsers w users s in
  kcache run.2 = kcache s ∧
  match run.1 with
  | inr keyMap =>
      calls run.2 = calls s ++ flat_map flushAndLoad users ∧
      dom keyMap = list_to_set users ∧
      ∀ u, u ∈ users →
        ∃ publicKeys, GetCryptPublicKeys w u = inr publicKeys ∧
                      keyMap !! u = Some (list_to_set publicKeys)
  | inl e =>
      ∃ visited u rest,
        users = visited ++ u :: rest ∧ GetCryptPublicKeys w u = inl e ∧
        (∀ v, v ∈ visited → ∃ pks, GetCryptPublicKeys w v = inr pks) ∧
        calls run.2 = calls s ++ flat_map flushAndLoad (visited ++ [u])
  end.
Proof.
  intros run. subst run. unfold generateKeyMapForUsers.
  pose proof (generateKeyMapLoop_spec w users ∅ s) as Hspec.
  cbv zeta in Hspec. destruct Hspec as [Hc Hspec]. split; [exact Hc|].
  destruct (generateKeyMapLoop w users ∅ s) as [[e|keyMap] s1];
    cbn [fst snd] in Hspec |- *; [exact Hspec|].
  destruct Hspec as (Hlog & Hin & Hout). split_and!; [done| |done].
  apply set_eq. intros u. rewrite elem_of_dom, elem_of_list_to_set.
  split.
  - intros [x Hx]. destruct (decide (u ∈ users)) as [|Hnu]; [done|].
    rewrite (Hout _ Hnu), lookup_empty in Hx. done.
  - intros Hu. destruct (Hin _ Hu) as (pks & _ & ->). eauto.
Qed.

(** ** How a call of [Rekey] runs *)

Section RekeyRuns.
Context {MD : Type} `{RootMetadata MD}.
Variable w : World MD.

(** The ways through the body of [Rekey]. *)
Lemma Rekey_cases promptPaper s r s' :
  Rekey w promptPaper s = (r, s') →
  (∃ e, rekeyDecide w promptPaper s = (inl e, s') ∧ r = failed e) ∨
  rekeyDecide w promptPaper s = (inr (inl r), s') ∨
  ∃ c p s1, rekeyDecide w promptPaper s = (inr (inr (c, p)), s1) ∧
    ((isWriter c = false ∧ readerScope (uid c) p = inl RekeyIncompleteError ∧
      r = failed RekeyIncompleteError ∧ s' = s1) ∨
     ∃ p', (if isWriter c then p' = p else readerScope (uid c) p = inr p') ∧
           rekeyFrom w promptPaper c p' s1 = (r, s')).
Proof.
  intros Hrun. unfold Rekey, rekeyBody in Hrun.
  destruct (rekeyDecide w promptPaper s) as [[e|[r0|[c p]]] s1] eqn:Hd.
  - left. cbn in Hrun. injection Hrun as <- <-. eauto.
  - right. left. cbn in Hrun. by injection Hrun as <- <-.
  - right. right. exists c, p, s1. split; [done|].
    destruct (isWriter c) eqn:Hw.
    + right. exists p. split; [done|]. exact Hrun.
    + destruct (readerScope (uid c) p) as [e|p'] eqn:Hsc.
      * left. cbn in Hrun. injection Hrun as <- <-.
        unfold readerScope in Hsc. destruct (_ && _); [discriminate Hsc|].
        by injection Hsc as <-.
      * right. exists p'. split; [done|]. exact Hrun.
Qed.

Lemma rekeyFrom_cases promptPaper c p s1 r s' :
  rekeyFrom w promptPaper c p s1 = (r, s') →
  (∃ e, rekeyApply w promptPaper c p s1 = (inl e, s') ∧ r = failed e) ∨
  ∃ pk sk s2 res s3,
    rekeyApply w promptPaper c p s1 = (inr (pk, sk), s2) ∧
    rekeyFinish w promptPaper c p pk sk s2 = (res, s3) ∧
    runDeferred (inr (resolvedHandle c, toResult res), s3) = (r, s').
Proof.
  intros Hrun. unfold rekeyFrom, rekeyFromBody in Hrun.
  destruct (rekeyApply w promptPaper c p s1) as [[e|[pk sk]] s2] eqn:Ha.
  - left. cbn in Hrun. injection Hrun as <- <-. eauto.
  - right. destruct (rekeyFinish w promptPaper c p pk sk s2) as [res s3] eqn:Hf.
    exists pk, sk, s2, res, s3. done.
Qed.


Lemma rekeyDiff_steady c wk rk : steady mem_md (rekeyDiff w c wk rk).
Proof. unfold rekeyDiff. monad_auto. Qed.

(** [rekeyDecide] leaves the metadata alone, except when it updates the
    handle of a public folder. *)
Lemma rekeyDecide_early promptPaper s res s1 :
  rekeyDecide w promptPaper s = (res, s1) →
  (mem_md s1 = mem_md s ∧
   ∀ r0, res = inr (inl r0) → r0 = mkResult false None None) ∨
  (IsPublic (TlfID (mem_md s)) = true ∧
   ∃ c ue, res = inr (inl (mkResult true None ue)) ∧
           updateFromTlfHandle (mem_md s) (resolvedHandle c)
           = (ue, mem_md s1)).
Proof.
  intros Hrun. unfold rekeyDecide in Hrun. rewrite bind_run in Hrun.
  pose proof (rekeyResolve_steady w promptPaper s) as Hmd.
  destruct (rekeyResolve w promptPaper s) as [[e|c] s0]; cbn [snd] in Hmd.
  { injection Hrun as <- <-. left. split; [done|]. by intros r0 [=]. }
  rewrite bind_run in Hrun. unfold getMD at 1 in Hrun.
  cbv beta iota zeta in Hrun. rewrite Hmd in Hrun.
  destruct (IsPublic (TlfID (mem_md s))) eqn:Hpub.
  { destruct (negb (handleChanged c)).
    - injection Hrun as <- <-. left. split; [done|]. by intros r0 [= <-].
    - mred_in Hrun. rewrite Hmd in Hrun.
      destruct (updateFromTlfHandle (mem_md s) (resolvedHandle c))
        as [ue md'] eqn:Hu.
      injection Hrun as <- <-. right. split; [done|]. exists c, ue. done. }
  destruct (negb (isWriter c) && (currKeyGen c <? FirstValidKeyGen)).
  { injection Hrun as <- <-. left. split; [done|]. by intros r0 [=]. }
  assert (steady mem_md
    (wKeys0 ← inKM (generateKeyMapForUsers w (ResolvedWriters (resolvedHandle c)));
     rKeys0 ← inKM (generateKeyMapForUsers w (ResolvedReaders (resolvedHandle c)));
     p ← (if negb (currKeyGen c <? FirstValidKeyGen)
          then rekeyDiff w c wKeys0 rKeys0
          else mret (firstGeneration wKeys0 rKeys0));
     if negb (addNewReaderDevice p) && negb (addNewWriterDevice p) &&
        negb (incKeyGen p) && negb (handleChanged c)
     then mret (inl (mkResult false None None))
     else (mret (inr (c, p)) : M (Mem MD) (RekeyResult + rekeyCaller * rekeyPlan))))
    as Hst.
  { monad_auto; auto using rekeyDiff_steady. }
  specialize (Hst s0).
  match type of Hrun with ?lhs = _ =>
    match type of Hst with context [(?m s0).2] => change lhs with (m s0) in Hrun
    end end.
  rewrite Hrun in Hst. cbn [snd] in Hst. left. split; [congruence|].
  intros r ->. clear Hst.
  repeat (rewrite bind_run in Hrun;
          match type of Hrun with
          | context [match ?m ?st with _ => _ end] =>
              destruct (m st) as [[?|?] ?]; [discriminate Hrun|]
          end).
  destruct (negb _ && _ && _ && _) in Hrun;
    [by injection Hrun as <- _|discriminate Hrun].
Qed.


(** A result with [mdChanged] set leaves the deferred functions only
    after [finalizeRekey] has succeeded and the handle was updated,
    unless the body returned it with an error of its own. *)
Lemma runDeferred_changed h r0 s3 r s' :
  runDeferred (inr (h, r0), s3) = (r, s') →
  mdChanged r = true →
  (nilOrIncomplete (err r0) = false ∧ mdChanged r0 = true) ∨
  ∃ md1 ue,
    finalizeRekey (mem_md s3) = (None, md1) ∧
    updateFromTlfHandle md1 h = (ue, mem_md s') ∧
    calls (mem_km s')
    = calls (mem_km s3) ++ [EvFinalizeRekey; EvUpdateFromTlfHandle h] ∧
    mdChanged r0 = true ∧ cryptKey r = cryptKey r0 ∧
    err r = match ue with Some e => Some e | None => err r0 end.
Proof.
  intros Hrun Hch. unfold runDeferred, deferFinalize, deferUpdateHandle in Hrun.
  destruct r0 as [ch ck er]. cbn [mdChanged err cryptKey] in *.
  destruct ch; cbn [andb] in Hrun.
  - destruct (nilOrIncomplete er) eqn:Her.
    + destruct (finalizeRekey (mem_md s3)) as [[fe|] md1] eqn:Hfin;
        cbn [err mdChanged cryptKey mem_md mem_km] in Hrun.
      * destruct (nilOrIncomplete (Some fe));
          [destruct (updateFromTlfHandle md1 h) as [[ue|] md2]|];
          injection Hrun as <- <-; discriminate Hch.
      * rewrite Her in Hrun.
        destruct (updateFromTlfHandle md1 h) as [[ue|] md2] eqn:Hup;
          injection Hrun as <- <-; right; exists md1;
          [exists (Some ue)|exists None]; cbn;
          rewrite <- app_assoc; split_and!; done.
    + left. done.
  - cbn [mdChanged err cryptKey] in Hrun.
    destruct (nilOrIncomplete er);
      [destruct (updateFromTlfHandle (mem_md s3) h) as [[ue|] md2]|];
      injection Hrun as <- <-; discriminate Hch.
Qed.

(** What [rekeyFinish] returns never has [mdChanged] set together with
    an error other than [RekeyIncompleteError]. *)
Lemma rekeyFinish_result promptPaper c p pk sk s res s' :
  rekeyFinish w promptPaper c p pk sk s = (res, s') →
  mdChanged (toResult res) = true →
  nilOrIncomplete (err (toResult res)) = true.
Proof.
  intros Hf Hch. apply rekeyFinish_spec in Hf
    as [(_ & r3 & -> & _ & [(He & _)|(He & _)])
       |(_ & _ & X & G & _ & _ & _ & _ & Hres)].
  - cbn. by rewrite He.
  - cbn. by rewrite He.
  - destruct res as [e|r3]; [discriminate Hch|].
    by destruct Hres as (k & pub & priv & -> & _).
Qed.

End RekeyRuns.

(** ** What the body calls *)

Section BodyCalls.
Context {MD : Type} `{RootMetadata MD}.
Variable w : World MD.
Variable promptPaper : bool.
Variable P : event → Prop.
Hypothesis HP : ∀ e, bodyCall e → P e.
Hypothesis Hkey :
  ∀ md g, emits P (getTLFCryptKey w md g (rekeyFlags promptPaper)).
Hypothesis Hdec :
  ∀ kmdToDecrypt kmdWithKeys,
    emits P (GetTLFCryptKeyForMDDecryption w kmdToDecrypt kmdWithKeys).

Ltac own := try (apply HP; exact I).

Lemma rekeyResolve_calls : emits P (rekeyResolve w promptPaper).
Proof. unfold rekeyResolve. monad_auto; own. Qed.

Lemma generateKeyMapLoop_calls users keyMap :
  emits P (generateKeyMapLoop w users keyMap).
Proof.
  revert keyMap. induction users as [|u users IH]; intros keyMap; simpl.
  - apply emits_ret.
  - monad_auto; own. apply IH.
Qed.

Lemma rekeyDiff_calls c wk rk : emits P (rekeyDiff w c wk rk).
Proof. unfold rekeyDiff, identifyUIDSets. monad_auto; own. Qed.

Lemma rekeyDecide_calls : emits P (rekeyDecide w promptPaper).
Proof.
  unfold rekeyDecide, generateKeyMapForUsers.
  monad_auto; own;
    auto using rekeyResolve_calls, generateKeyMapLoop_calls, rekeyDiff_calls.
Qed.

Lemma updateKeyGeneration_calls g wk rk pk sk k :
  emits P (updateKeyGeneration w g wk rk pk sk k).
Proof. unfold updateKeyGeneration. monad_auto; own. Qed.


Lemma rekeyApply_calls c p : emits P (rekeyApply w promptPaper c p).
Proof.
  unfold rekeyApply, rekeyRewrap, decryptPrivateData, rewrapGeneration.
  monad_auto; own;
    auto using updateKeyGeneration_calls, withKeyManager_calls.
Qed.

Lemma revoke_calls wk rk : emits P (revoke wk rk).
Proof.
  intros s. unfold revoke.
  destruct (revokeRemovedDevices (mem_md s) wk rk) as [r md'].
  eexists. split; [reflexivity|]. constructor; [own|constructor].
Qed.

Lemma addKeyGeneration_calls prev curr pub :
  emits P (addKeyGeneration prev curr pub).
Proof.
  intros s. unfold addKeyGeneration.
  destruct (AddKeyGeneration (mem_md s) prev curr pub) as [e md'].
  eexists. split; [reflexivity|]. constructor; [own|constructor].
Qed.

Lemma deleteServerHalves_calls info : emits P (deleteServerHalves w info).
Proof. unfold deleteServerHalves. monad_auto; own. Qed.

Lemma rekeyFinish_calls c p pk sk :
  emits P (rekeyFinish w promptPaper c p pk sk).
Proof.
  unfold rekeyFinish, revokeAndDelete, addGeneration, historicKeys.
  monad_auto; own;
    auto using revoke_calls, addKeyGeneration_calls, deleteServerHalves_calls,
      updateKeyGeneration_calls.
Qed.

(** A call of [Rekey] either stops before the deferred functions are
    registered, or runs into them: [B] is the log of the body. *)
Lemma Rekey_run s r s' :
  Rekey w promptPaper s = (r, s') →
  ∃ B, Forall P B ∧
    ((calls (mem_km s') = calls (mem_km s) ++ B ∧ cryptKey r = None ∧
      ((∃ e, r = failed e) ∨
       (r = mkResult false None None ∧ mem_md s' = mem_md s) ∨
       (IsPublic (TlfID (mem_md s)) = true ∧
        ∃ ue, r = mkResult true None ue))) ∨
     (IsPublic (TlfID (mem_md s)) = false ∧
      ∃ c p pk sk s2 res s3 B2,
        rekeyFinish w promptPaper c p pk sk s2 = (res, s3) ∧
        calls (mem_km s3) = calls (mem_km s) ++ B ∧
        calls (mem_km s2) = calls (mem_km s) ++ B2 ∧
        runDeferred (inr (resolvedHandle c, toResult res), s3) = (r, s'))).
Proof.
  intros Hrun.
  destruct (rekeyDecide_calls s) as (E1 & EQ1 & F1).
  unfold theLog, Mem_logged in EQ1.
  apply Rekey_cases in Hrun
    as [(e & Hd & ->)|[Hd|(c & p & s1 & Hd & Hrest)]].
  - rewrite Hd in EQ1. exists E1. split; [done|]. left.
    split_and!; [done|done|]. left. eauto.
  - rewrite Hd in EQ1. exists E1. split; [done|]. left.
    apply rekeyDecide_early in Hd
      as [[Hmd Hr0]|(Hpub & c & ue & [= ->] & _)].
    + rewrite (Hr0 r eq_refl). split_and!; [done|done|]. right. left. done.
    + split_and!; [done|done|]. right. right. eauto.
  - rewrite Hd in EQ1. cbn [snd] in EQ1.
    pose proof (rekeyDecide_continue w _ _ _ _ _ Hd) as (_ & Hpub & _).
    destruct Hrest as [(_ & _ & -> & ->)|(p' & _ & Hfrom)].
    { exists E1. split; [done|]. left. split_and!; [done|done|]. left. eauto. }
    destruct (rekeyApply_calls c p' s1) as (E2 & EQ2 & F2).
    unfold theLog, Mem_logged in EQ2.
    apply rekeyFrom_cases in Hfrom
      as [(e & Ha & ->)|(pk & sk & s2 & res & s3 & Ha & Hf & Hdef)].
    + rewrite Ha in EQ2. cbn [snd] in EQ2. exists (E1 ++ E2).
      split; [by apply Forall_app|]. left.
      rewrite EQ2, EQ1, <- app_assoc. split_and!; [done|done|]. left. eauto.
    + rewrite Ha in EQ2. cbn [snd] in EQ2.
      destruct (rekeyFinish_calls c p' pk sk s2) as (E3 & EQ3 & F3).
      unfold theLog, Mem_logged in EQ3. rewrite Hf in EQ3. cbn [snd] in EQ3.
      exists (E1 ++ E2 ++ E3). split; [by rewrite !Forall_app|]. right.
      split; [done|]. exists c, p', pk, sk, s2, res, s3, (E1 ++ E2).
      rewrite EQ3, EQ2, EQ1, <- !app_assoc. done.
Qed.

End BodyCalls.

(** ** Properties of [Rekey] *)

Lemma getTLFCryptKey_any_calls {MD} `{KeyMetadata MD} (w : World MD)
    (kmd : MD) (g : KeyGen) (flags : getTLFCryptKeyFlags) :
  emits (fun _ => True) (getTLFCryptKey w kmd g flags).
Proof. eapply emits_mono; [|apply getTLFCryptKey_emits]. done. Qed.

Lemma getTLFCryptKey_not_finalize {MD} `{KeyMetadata MD} (w : World MD)
    (kmd : MD) (g : KeyGen) (flags : getTLFCryptKeyFlags) :
  emits (fun e => e ≠ EvFinalizeRekey) (getTLFCryptKey w kmd g flags).
Proof.
  eapply emits_mono; [|apply getTLFCryptKey_emits]. by intros e He ->.
Qed.


Section RekeyLookups.
Context {MD : Type} `{KeyMetadata MD}.
Variable w : World MD.
Variable promptPaper : bool.










End RekeyLookups.

Section RekeyProperties.
Context {MD : Type} `{RootMetadata MD}.
Variable w : World MD.

Lemma bodyCall_not_finalize e : bodyCall e → e ≠ EvFinalizeRekey.
Proof. by intros He ->. Qed.


Lemma rekeyFinish_no_error promptPaper c p pk sk s res s' :
  rekeyFinish w promptPaper c p pk sk s = (res, s') →
  err (toResult res) = None →
  mdChanged (toResult res) = true.
Proof.
  intros Hf He. apply rekeyFinish_spec in Hf
    as [(_ & r3 & -> & _ & [(_ & Hc & _)|(He' & _)])
       |(_ & _ & X & G & _ & _ & _ & _ & Hres)].
  - exact Hc.
  - cbn in He. congruence.
  - destruct res as [e|r3]; [discriminate He|].
    by destruct Hres as (k & pub & priv & -> & _).
Qed.

(** No way through [rekeyDecide] ends early on a private folder that has
    no generation yet. *)
Lemma rekeyDecide_first promptPaper s r0 s1 :
  IsPublic (TlfID (mem_md s)) = false →
  LatestKeyGeneration (mem_md s) < FirstValidKeyGen →
  rekeyDecide w promptPaper s ≠ (inr (inl r0), s1).
Proof.
  intros Hpub Hfirst Hrun. unfold rekeyDecide in Hrun. rewrite bind_run in Hrun.
  destruct (rekeyResolve w promptPaper s) as [[e|c] s0] eqn:Hres;
    [discriminate Hrun|].
  apply rekeyResolve_inr in Hres as (Hmd & Hgen & _).
  rewrite bind_run in Hrun. unfold getMD at 1 in Hrun.
  cbv beta iota zeta in Hrun. rewrite Hmd, Hpub in Hrun.
  destruct (negb (isWriter c) && (currKeyGen c <? FirstValidKeyGen));
    [discriminate Hrun|].
  repeat (rewrite bind_run in Hrun;
          match type of Hrun with
          | context [match inKM ?m ?st with _ => _ end] =>
              destruct (inKM m st) as [[?|?] ?]; [discriminate Hrun|]
          end).
  rewrite bind_run in Hrun.
  assert ((currKeyGen c <? FirstValidKeyGen) = true) as Hlt
    by (apply Z.ltb_lt; lia).
  rewrite Hlt in Hrun. cbn in Hrun. discriminate Hrun.
Qed.

(** X8: [Rekey] checks its input before it does anything: when the
    folder's public bit disagrees with its generation being
    [PublicKeyGen], or when a paper-key prompt is asked for a public
    folder, it returns [(false, nil)] with an error, and neither the
    metadata, nor the key cache, nor the log has changed (no service was
    consulted). *)
Theorem rekey_checks_first (promptPaper : bool) (s : Mem MD) :
  (IsPublic (TlfID (mem_md s))
     ≠ (LatestKeyGeneration (mem_md s) =? PublicKeyGen)) ∨
  (promptPaper = true ∧ IsPublic (TlfID (mem_md s)) = true) →
  ∃ e, Rekey w promptPaper s = (mkResult false None (Some e), s).
Proof.
  intros Hbad.
  assert (∃ e, rekeyResolve w promptPaper s = (inl e, s)) as [e Hres].
  { unfold rekeyResolve. mred.
    destruct (eqb (IsPublic (TlfID (mem_md s)))
                (LatestKeyGeneration (mem_md s) =? PublicKeyGen)) eqn:Heq;
      cbn [negb]; [|eauto].
    destruct Hbad as [Hne|[-> Hpub]].
    - apply eqb_prop in Heq. contradiction.
    - rewrite Hpub. cbn. eauto. }
  exists e. unfold Rekey, rekeyBody, rekeyDecide.
  rewrite bind_run, Hres. reflexivity.
Qed.

(** X10: when [Rekey] returns without error and with [mdChanged] unset,
    the metadata object is exactly as it was before the call, and no key
    is returned. *)
Theorem unchanged_means_untouched (promptPaper : bool) (s s' : Mem MD)
    (r : RekeyResult) :
  Rekey w promptPaper s = (r, s') →
  err r = None → mdChanged r = false →
  mem_md s' = mem_md s ∧ cryptKey r = None.
Proof.
  intros Hrun He Hch.
  apply (Rekey_run w promptPaper (fun _ => True)) in Hrun
    as (B & _ & [(_ & Hk & [(e & ->)|[(-> & Hmd)|(_ & ue & ->)]])
                |(_ & c & p & pk & sk & s2 & res & s3 & B2 & Hf & _ & _ & Hdef)]);
    [discriminate He|done|discriminate Hch| |done
    |intros; apply getTLFCryptKey_any_calls
    |intros; apply getTLFCryptKey_any_calls].
  apply (runDeferred_spec w) in Hdef as (_ & _ & _ & R1 & _).
  pose proof (R1 He); subst r.
  pose proof (rekeyFinish_no_error _ _ _ _ _ _ _ _ Hf He). congruence.
Qed.

(** X11: on a private folder, [Rekey] returns [mdChanged = true] only
    after [finalizeRekey] has been called and has succeeded;
    [finalizeRekey] is called once, when the body is done, so after the
    promotions, the re-wrapping and the new generation, and the only
    call after it is the deferred handle update. *)
Theorem changed_metadata_is_finalized (promptPaper : bool) (s s' : Mem MD)
    (r : RekeyResult) :
  IsPublic (TlfID (mem_md s)) = false →
  Rekey w promptPaper s = (r, s') →
  mdChanged r = true →
  ∃ evs h md1 md2 updateErr,
    calls (mem_km s')
    = calls (mem_km s) ++ evs ++ [EvFinalizeRekey; EvUpdateFromTlfHandle h] ∧
    (EvFinalizeRekey ∉ evs) ∧
    finalizeRekey md1 = (None, md2) ∧
    updateFromTlfHandle md2 h = (updateErr, mem_md s').
Proof.
  intros Hpub Hrun Hch.
  apply (Rekey_run w promptPaper (fun e => e ≠ EvFinalizeRekey)) in Hrun
    as (B & FB & [(_ & _ & [(e & ->)|[(-> & _)|(Hpub' & _)]])
                 |(_ & c & p & pk & sk & s2 & res & s3 & B2 & Hf & EQ & _ & Hdef)]);
    [discriminate Hch|discriminate Hch|congruence|
    |apply bodyCall_not_finalize
    |intros; apply getTLFCryptKey_not_finalize
    |intros; apply getTLFCryptKey_not_finalize].
  destruct (runDeferred_changed _ _ _ _ _ Hdef Hch)
    as [[Hn Hc0]|(md1 & ue & Hfin & Hup & Hlog & _)].
  - pose proof (rekeyFinish_result _ _ _ _ _ _ _ _ _ Hf Hc0). congruence.
  - exists B, (resolvedHandle c), (mem_md s3), md1, ue.
    rewrite Hlog, EQ, <- app_assoc. split_and!; [done| |done|done].
    intros Hin. rewrite Forall_forall in FB. by apply (FB _ Hin).
Qed.

(** X12: on a private folder without a valid generation, a call of
    [Rekey] that returns without error has created the first generation:
    the caller is a writer, the result is [(true, key)] with the folder
    key that [MakeRandomTLFKeys] drew, [AddKeyGeneration] was called and
    succeeded, and nothing was revoked and no server half deleted. *)
Theorem first_generation_by_writer (promptPaper : bool) (s s' : Mem MD)
    (r : RekeyResult) :
  IsPublic (TlfID (mem_md s)) = false →
  LatestKeyGeneration (mem_md s) < FirstValidKeyGen →
  Rekey w promptPaper s = (r, s') →
  err r = None →
  ∃ k pub priv evs,
    r = mkResult true (Some k) None ∧
    MakeRandomTLFKeys w = inr (pub, priv, k) ∧
    calls (mem_km s') = calls (mem_km s) ++ evs ∧
    EvAddKeyGeneration true ∈ evs ∧
    Forall (fun e => ¬ isDelete e ∧ ¬ isRevoke e) evs ∧
    ∃ n u h, GetCurrentUserInfo w = inr (n, u) ∧
             ResolveAgain w (GetTlfHandle (mem_md s)) = inr h ∧
             IsWriter h u = true.
Proof.
  intros Hpub Hfirst Hrun He.
  apply Rekey_cases in Hrun
    as [(e & _ & ->)|[Hd|(c & p & s1 & Hd & Hrest)]]; [discriminate He| |].
  { by destruct (rekeyDecide_first promptPaper s r s' Hpub Hfirst). }
  destruct (rekeyDecide_spec w _ _ _ _ Hd) as (E1 & EQ1 & F1 & _).
  apply rekeyDecide_continue in Hd
    as (_ & _ & [s0 Hres] & Hwr & Hplan & _).
  apply rekeyResolve_inr in Hres as (_ & Hgen & _ & h & Hme & Hh & Hw).
  assert (currKeyGen c < FirstValidKeyGen) as Hlt by lia.
  destruct Hplan as [[_ Hp]|[Hge _]]; [|lia].
  destruct (isWriter c) eqn:Hwc; [|specialize (Hwr eq_refl); lia].
  destruct Hrest as [(? & _)|(p' & -> & Hfrom)]; [done|].
  destruct (rekeyApply_emits w promptPaper c p s1) as (E2 & EQ2 & F2).
  unfold theLog, Mem_logged in EQ2.
  apply rekeyFrom_cases in Hfrom
    as [(e & _ & ->)|(pk & sk & s2 & res & s3 & Ha & Hf & Hdef)];
    [discriminate He|].
  rewrite Ha in EQ2. cbn [snd] in EQ2.
  apply (runDeferred_spec w) in Hdef as (D & EQD & FD & R1 & _).
  pose proof (R1 He); subst r.
  unfold rekeyFinish in Hf. rewrite Hwc, Hp in Hf. cbn [negb incKeyGen firstGeneration] in Hf.
  rewrite bind_run in Hf. unfold inKM at 1, call at 1 in Hf.
  cbv beta iota zeta in Hf. rewrite bind_run in Hf.
  unfold revokeAndDelete in Hf.
  assert ((FirstValidKeyGen <=? currKeyGen c) = false) as Hno
    by (apply Z.leb_gt; lia).
  rewrite Hno in Hf.
  change ((mret tt : M (Mem MD) unit)
            (mkMem (mem_md s2) (log EvNotify (mem_km s2))))
    with (inr tt : error + unit, mkMem (mem_md s2) (log EvNotify (mem_km s2)))
    in Hf.
  cbv beta iota in Hf.
  apply addGeneration_spec in Hf as (G & EG & FG & HG).
  destruct res as [e|r3]; [discriminate He|].
  destruct HG as (k & pub & priv & -> & Hmk & Hadd).
  exists k, pub, priv, (E1 ++ E2 ++ EvNotify :: G ++ D).
  split_and!.
  - done.
  - done.
  - rewrite EQD, EG. cbn [mem_km calls log].
    rewrite EQ2, EQ1, <- !app_assoc. done.
  - rewrite !elem_of_app, elem_of_cons, elem_of_app. tauto.
  - rewrite !Forall_app, Forall_cons, Forall_app.
    split_and!; try (by apply plain_not_delete); try done; by intros [].
  - exists (username c), (uid c), h. split_and!; [done|done|congruence].
Qed.

(** X13: when the caller is not a writer of the re-resolved handle,
    [Rekey] returns no key, and it neither adds a key generation, nor
    revokes a device, nor deletes a server half on the key server. *)
Theorem reader_rekey_is_plain (promptPaper : bool) (s s' : Mem MD)
    (r : RekeyResult) (n : NormalizedUsername) (u : UID) (h : TlfHandle) :
  GetCurrentUserInfo w = inr (n, u) →
  ResolveAgain w (GetTlfHandle (mem_md s)) = inr h →
  IsWriter h u = false →
  Rekey w promptPaper s = (r, s') →
  cryptKey r = None ∧
  ∃ evs, calls (mem_km s') = calls (mem_km s) ++ evs ∧ Forall plain evs.
Proof.
  intros Hme Hh Hnw Hrun.
  apply Rekey_cases in Hrun
    as [(e & Hd & ->)|[Hd|(c & p & s1 & Hd & Hrest)]].
  - destruct (rekeyDecide_spec w _ _ _ _ Hd) as (E1 & EQ1 & F1 & _). eauto.
  - destruct (rekeyDecide_spec w _ _ _ _ Hd) as (E1 & EQ1 & F1 & Hr).
    split; [|eauto].
    destruct Hr as [[_ Hr]|(ue & [= ->] & _)]; [|done].
    by rewrite (Hr r eq_refl).
  - destruct (rekeyDecide_spec w _ _ _ _ Hd) as (E1 & EQ1 & F1 & _).
    apply rekeyDecide_continue in Hd as (_ & _ & [s0 Hres] & _).
    apply rekeyResolve_inr in Hres as (_ & _ & _ & h' & Hme' & Hh' & Hw).
    rewrite Hme in Hme'. injection Hme' as _ Hu.
    rewrite Hh in Hh'. injection Hh' as Hheq.
    rewrite <- Hu, <- Hheq, Hnw in Hw.
    destruct Hrest as [(_ & _ & -> & ->)|(p' & _ & Hfrom)]; [eauto|].
    destruct (rekeyApply_emits w promptPaper c p' s1) as (E2 & EQ2 & F2).
    unfold theLog, Mem_logged in EQ2.
    apply rekeyFrom_cases in Hfrom
      as [(e & Ha & ->)|(pk & sk & s2 & res & s3 & Ha & Hf & Hdef)];
      rewrite Ha in EQ2; cbn [snd] in EQ2.
    + split; [done|]. exists (E1 ++ E2). rewrite EQ2, EQ1, <- app_assoc.
      split; [done|]. by apply Forall_app.
    + apply (runDeferred_spec w) in Hdef as (D & EQD & FD & _ & _ & R3 & _).
      apply rekeyFinish_spec in Hf
        as [(-> & r3 & -> & Hk3 & _)|(Hw' & _)]; [|congruence].
      split.
      * destruct (cryptKey r) as [k|] eqn:Hk; [|done].
        destruct (R3 k eq_refl) as [Hk' _]. cbn in Hk'. congruence.
      * exists (E1 ++ E2 ++ D). rewrite EQD, EQ2, EQ1, <- !app_assoc.
        split; [done|]. by rewrite !Forall_app.
Qed.



(** A rekey that adds alice's new device to a folder whose private
    metadata is still encrypted, with the paper-key prompt allowed: the
    re-wrapping looks the key up with the prompt and without caching it;
    the decryption comes back for the key without the prompt, and the
    key is cached. *)
Example sample_sealed_rekey :
  let run := Rekey sealedWorld true (mkMem sealedMD KM0) in
  run.1 = mkResult true None None ∧
  calls (mem_km run.2)
  = [EvGetCurrentUserInfo; EvResolveAgain;
     EvFlushUser "alice"; EvGetCryptPublicKeys "alice";
     EvIdentify ["alice"];
     EvMakeRandomTLFEphemeralKeys;
     EvCacheGet (mk_tlf_ID "priv" false) 1; EvGetCurrentUserInfo;
     EvGetCryptPublicKeys "alice"; EvDecryptClientHalfAny true;
     EvGetServerHalf "hA1" "A1";
     EvUpdateKeyGeneration 1 {[ "alice" := {[ "A1"; "A2" ]} ]} ∅;
     EvPutServerHalves ∅;
     EvDecryptMDPrivateData;
     EvCacheGet (mk_tlf_ID "priv" false) 1; EvGetCurrentUserInfo;
     EvGetCryptPublicKeys "alice"; EvDecryptClientHalfAny false;
     EvGetServerHalf "hA1" "A1";
     EvCachePut (mk_tlf_ID "priv" false) 1 12%N;
     EvSetPrivateData;
     EvFinalizeRekey; EvUpdateFromTlfHandle (handle_of ["alice"] [])] ∧
  kcache (mem_km run.2) = {[ (mk_tlf_ID "priv" false, 1) := 12%N ]}.
Proof.
  intros run. split; [vm_compute; reflexivity|].
  split; vm_compute; reflexivity.
Qed.

(** X15: [Rekey] can return a folder key together with an error, and it
    does so in one situation only: the new generation was added,
    [finalizeRekey] succeeded, and the deferred update of the handle
    failed; the error is the one [updateFromTlfHandle] gave, and
    [mdChanged] stays set. *)
Theorem key_with_error_is_handle_update (promptPaper : bool) (s s' : Mem MD)
    (r : RekeyResult) (k : TLFCryptKey) (e : error) :
  Rekey w promptPaper s = (r, s') →
  cryptKey r = Some k → err r = Some e →
  mdChanged r = true ∧
  ∃ h md1 md2 evs,
    finalizeRekey md1 = (None, md2) ∧
    updateFromTlfHandle md2 h = (Some e, mem_md s') ∧
    calls (mem_km s')
    = calls (mem_km s) ++ evs ++ [EvFinalizeRekey; EvUpdateFromTlfHandle h] ∧
    EvAddKeyGeneration true ∈ evs.
Proof.
  intros Hrun Hk He.
  destruct (Rekey_summary w _ _ _ _ Hrun)
    as (_ & _ & _ & _ & _ & _ & _ & Hnew & _).
  destruct (Hnew k Hk) as [Hch _]. split; [exact Hch|].
  apply (Rekey_run w promptPaper (fun _ => True)) in Hrun
    as (B & _ & [(_ & Hk' & _)
                |(_ & c & p & pk & sk & s2 & res & s3 & B2 & Hf & _ & EQ2 & Hdef)]);
    [congruence| |done|intros; apply getTLFCryptKey_any_calls
    |intros; apply getTLFCryptKey_any_calls].
  destruct (runDeferred_changed _ _ _ _ _ Hdef Hch)
    as [[Hn Hc0]|(md1 & ue & Hfin & Hup & Hlog & Hc0 & Hck & Herr)].
  { pose proof (rekeyFinish_result _ _ _ _ _ _ _ _ _ Hf Hc0). congruence. }
  rewrite Hk in Hck.
  apply rekeyFinish_spec in Hf
    as [(_ & r3 & -> & Hk3 & _)
       |(_ & _ & X & G & EQ3 & _ & _ & _ & Hres)].
  { cbn in Hck. congruence. }
  destruct res as [e0|r3]; [discriminate Hck|].
  destruct Hres as (k0 & pub & priv & -> & _ & Hadd).
  cbn in Herr. rewrite He in Herr. destruct ue as [ue|]; [|discriminate Herr].
  injection Herr as <-.
  exists (resolvedHandle c), (mem_md s3), md1, (B2 ++ X ++ G).
  rewrite Hlog, EQ3, EQ2, <- !app_assoc. split_and!; [done|done|done|].
  rewrite !elem_of_app. tauto.
Qed.

End RekeyProperties.

(** ** [Rekey] on a public folder *)

Lemma rekeyResolve_public {MD} `{RootMetadata MD} (w : World MD)
    (promptPaper : bool) (s : Mem MD) :
  IsPublic (TlfID (mem_md s)) = true →
  ∃ evs,
    calls (mem_km (rekeyResolve w promptPaper s).2) = calls (mem_km s) ++ evs ∧
    Forall (fun e => publicRekeyCall e ∧ ¬ mutates e) evs ∧
    kcache (mem_km (rekeyResolve w promptPaper s).2) = kcache (mem_km s).
Proof.
  intros Hpub. unfold rekeyResolve. mred. rewrite Hpub. cbn [negb andb].
  repeat first
    [ match goal with |- context [negb ?b] => destruct b end; cbn [negb]
    | match goal with
      | |- context [match ?x with _ => _ end] => destruct x
      end ];
    cbn;
    first [ exists []; rewrite app_nil_r;
            split; [reflexivity|split; [constructor|reflexivity]]
          | eexists; split; [rewrite <- ?app_assoc; reflexivity|];
            split; [|reflexivity];
            repeat constructor; by intros [] ].
Qed.

Lemma rekeyDecide_public {MD} `{RootMetadata MD} (w : World MD)
    (promptPaper : bool) (s s1 : Mem MD) res :
  IsPublic (TlfID (mem_md s)) = true →
  rekeyDecide w promptPaper s = (res, s1) →
  kcache (mem_km s1) = kcache (mem_km s) ∧
  ∃ evs,
    calls (mem_km s1) = calls (mem_km s) ++ evs ∧
    Forall publicRekeyCall evs ∧
    ((((∃ e, res = inl e) ∨ res = inr (inl (mkResult false None None))) ∧
      mem_md s1 = mem_md s ∧ Forall (fun e => ¬ mutates e) evs) ∨
     ∃ h ue evs0,
       res = inr (inl (mkResult true None ue)) ∧
       evs = evs0 ++ [EvUpdateFromTlfHandle h] ∧
       Forall (fun e => ¬ mutates e) evs0 ∧
       updateFromTlfHandle (mem_md s) h = (ue, mem_md s1)).
Proof.
  intros Hpub Hd. unfold rekeyDecide in Hd. rewrite bind_run in Hd.
  destruct (rekeyResolve_public w promptPaper s Hpub) as (E1 & EQ1 & F1 & K1).
  pose proof (rekeyResolve_steady w promptPaper s) as Hmd.
  assert (Forall publicRekeyCall E1) as FP
    by (eapply Forall_impl; [exact F1|by intros ? [? _]]).
  assert (Forall (fun e => ¬ mutates e) E1) as FQ
    by (eapply Forall_impl; [exact F1|by intros ? [_ ?]]).
  destruct (rekeyResolve w promptPaper s) as [[e0|c] s0];
    cbn [snd] in EQ1, K1, Hmd.
  { injection Hd as <- <-. split; [done|]. exists E1.
    split_and!; [done|done|]. left. split_and!; eauto. }
  rewrite bind_run in Hd. unfold getMD at 1 in Hd.
  cbv beta iota zeta in Hd. rewrite Hmd, Hpub in Hd.
  destruct (negb (handleChanged c)).
  - injection Hd as <- <-. split; [done|]. exists E1.
    split_and!; [done|done|]. left. split_and!; eauto.
  - mred_in Hd. rewrite Hmd in Hd.
    destruct (updateFromTlfHandle (mem_md s) (resolvedHandle c))
      as [ue md'] eqn:Hu.
    injection Hd as <- <-. cbn. split; [done|].
    exists (E1 ++ [EvUpdateFromTlfHandle (resolvedHandle c)]).
    rewrite EQ1, app_assoc. split_and!; [done| |].
    + apply Forall_app. split; [done|]. by repeat constructor.
    + right. exists (resolvedHandle c), ue, E1. done.
Qed.

(** X9: on a public folder [Rekey] only re-resolves the handle: it looks
    up the current user, resolves the handle again, asks for the latest
    handle when the handle changed, and updates the handle in the
    metadata; it generates, fetches and returns no key, identifies no
    user and leaves the key cache alone.  [mdChanged] is false exactly
    when the metadata object is untouched; it is true exactly when
    [updateFromTlfHandle] was called (the last call of the log), and then
    the error returned is whatever that update answered, so
    [mdChanged = true] also when the update failed. *)
Theorem rekey_public_folder {MD} `{RootMetadata MD} (w : World MD)
    (promptPaper : bool) (s s' : Mem MD) (r : RekeyResult) :
  IsPublic (TlfID (mem_md s)) = true →
  Rekey w promptPaper s = (r, s') →
  cryptKey r = None ∧ kcache (mem_km s') = kcache (mem_km s) ∧
  ∃ evs,
    calls (mem_km s') = calls (mem_km s) ++ evs ∧
    Forall publicRekeyCall evs ∧
    ((mdChanged r = false ∧ mem_md s' = mem_md s ∧
      Forall (fun e => ¬ mutates e) evs) ∨
     (mdChanged r = true ∧
      ∃ h evs0,
        evs = evs0 ++ [EvUpdateFromTlfHandle h] ∧
        Forall (fun e => ¬ mutates e) evs0 ∧
        updateFromTlfHandle (mem_md s) h = (err r, mem_md s'))).
Proof.
  intros Hpub Hrun.
  apply Rekey_cases in Hrun as [(e & Hd & ->)|[Hd|(c & p & s1 & Hd & _)]].
  - apply (rekeyDecide_public w _ _ _ _ Hpub) in Hd
      as (K & evs & EQ & F & [(_ & Hmd & Hq)|(h & ue & evs0 & [=] & _)]).
    split; [done|]. split; [done|]. exists evs. split_and!; [done|done|].
    left. done.
  - apply (rekeyDecide_public w _ _ _ _ Hpub) in Hd
      as (K & evs & EQ & F & [([[e [=]]|[= ->]] & Hmd & Hq)
                             |(h & ue & evs0 & [= ->] & -> & Hq & Hu)]).
    + split; [done|]. split; [done|]. exists evs. split_and!; [done|done|].
      left. done.
    + split; [done|]. split; [done|]. exists (evs0 ++ [EvUpdateFromTlfHandle h]).
      split_and!; [done|done|]. right. split; [done|]. eauto.
  - apply rekeyDecide_continue in Hd as (_ & Hpriv & _). congruence.
Qed.

Lemma rekey_public_folder_witness :
  let s := mkMem publicMD KM0 in
  let run := Rekey aliceWorld false s in
  run.1 = mkResult false None None ∧
  cryptKey run.1 = None ∧ kcache (mem_km run.2) = kcache (mem_km s) ∧
  ∃ evs,
    calls (mem_km run.2) = calls (mem_km s) ++ evs ∧
    Forall publicRekeyCall evs ∧
    ((mdChanged run.1 = false ∧ mem_md run.2 = mem_md s ∧
      Forall (fun e => ¬ mutates e) evs) ∨
     (mdChanged run.1 = true ∧
      ∃ h evs0,
        evs = evs0 ++ [EvUpdateFromTlfHandle h] ∧
        Forall (fun e => ¬ mutates e) evs0 ∧
        updateFromTlfHandle (mem_md s) h = (err run.1, mem_md run.2))).
Proof.
  intros s run. split; [vm_compute; reflexivity|].
  apply (rekey_public_folder (H:=SampleMD_RootMetadata) aliceWorld false s
           run.2 run.1); [reflexivity|apply surjective_pairing].
Defined.

(** ** Sample runs *)

Lemma rekey_checks_first_witness :
  ∃ e, Rekey aliceWorld true (mkMem publicMD KM0)
       = (mkResult false None (Some e), mkMem publicMD KM0).
Proof.
  apply (rekey_checks_first (H:=SampleMD_RootMetadata) aliceWorld true
           (mkMem publicMD KM0)).
  right. split; reflexivity.
Defined.

Lemma unchanged_means_untouched_witness :
  let run := Rekey aliceWorld false (mkMem (folderMD false) KM0) in
  run.1 = mkResult false None None ∧
  mem_md run.2 = folderMD false ∧ cryptKey run.1 = None.
Proof.
  intros run.
  assert (run.1 = mkResult false None None) as Hr by (vm_compute; reflexivity).
  split; [exact Hr|].
  apply (unchanged_means_untouched (H:=SampleMD_RootMetadata) aliceWorld false
           (mkMem (folderMD false) KM0) run.2 run.1).
  - apply surjective_pairing.
  - by rewrite Hr.
  - by rewrite Hr.
Defined.

Lemma changed_metadata_is_finalized_witness :
  let s := mkMem (revokedMD None) KM0 in
  let run := Rekey aliceWorld false s in
  mdChanged run.1 = true ∧
  ∃ evs h md1 md2 updateErr,
    calls (mem_km run.2)
    = calls (mem_km s) ++ evs ++ [EvFinalizeRekey; EvUpdateFromTlfHandle h] ∧
    (EvFinalizeRekey ∉ evs) ∧
    finalizeRekey md1 = (None, md2) ∧
    updateFromTlfHandle md2 h = (updateErr, mem_md run.2).
Proof.
  intros s run.
  assert (mdChanged run.1 = true) as Hc by (vm_compute; reflexivity).
  split; [exact Hc|].
  apply (changed_metadata_is_finalized (H:=SampleMD_RootMetadata) aliceWorld
           false s run.2 run.1);
    [reflexivity|apply surjective_pairing|exact Hc].
Defined.

Lemma first_generation_by_writer_witness :
  let s := mkMem newFolderMD KM0 in
  let run := Rekey aliceWorld false s in
  run.1 = mkResult true (Some 77%N) None ∧
  ∃ k pub priv evs,
    run.1 = mkResult true (Some k) None ∧
    MakeRandomTLFKeys aliceWorld = inr (pub, priv, k) ∧
    calls (mem_km run.2) = calls (mem_km s) ++ evs ∧
    EvAddKeyGeneration true ∈ evs ∧
    Forall (fun e => ¬ isDelete e ∧ ¬ isRevoke e) evs ∧
    ∃ n u h, GetCurrentUserInfo aliceWorld = inr (n, u) ∧
             ResolveAgain aliceWorld (GetTlfHandle (mem_md s)) = inr h ∧
             IsWriter h u = true.
Proof.
  intros s run.
  assert (run.1 = mkResult true (Some 77%N) None) as Hr
    by (vm_compute; reflexivity).
  split; [exact Hr|].
  apply (first_generation_by_writer (H:=SampleMD_RootMetadata) aliceWorld
           false s run.2 run.1);
    [reflexivity|reflexivity|apply surjective_pairing|by rewrite Hr].
Defined.

Lemma reader_rekey_is_plain_witness :
  let s := mkMem (folderMD false) KM0 in
  let run := Rekey bobWorld2 false s in
  run.1 = mkResult true None None ∧
  cryptKey run.1 = None ∧
  ∃ evs, calls (mem_km run.2) = calls (mem_km s) ++ evs ∧ Forall plain evs.
Proof.
  intros s run. split; [vm_compute; reflexivity|].
  apply (reader_rekey_is_plain (H:=SampleMD_RootMetadata) bobWorld2 false s
           run.2 run.1 "bob" "bob" (handle_of ["alice"] ["bob"]));
    [reflexivity|reflexivity|reflexivity|apply surjective_pairing].
Defined.

Lemma key_with_error_is_handle_update_witness :
  let s := mkMem {| inner := revokedMD None |} KM0 in
  let run := Rekey stubbornWorld false s in
  run.1 = mkResult true (Some 77%N) (Some (ErrorString "handle conflict")) ∧
  ∃ h md1 md2 evs,
    finalizeRekey md1 = (None, md2) ∧
    updateFromTlfHandle md2 h
    = (Some (ErrorString "handle conflict"), mem_md run.2) ∧
    calls (mem_km run.2)
    = calls (mem_km s) ++ evs ++ [EvFinalizeRekey; EvUpdateFromTlfHandle h] ∧
    EvAddKeyGeneration true ∈ evs.
Proof.
  intros s run.
  assert (run.1 = mkResult true (Some 77%N)
                    (Some (ErrorString "handle conflict"))) as Hr
    by (vm_compute; reflexivity).
  split; [exact Hr|].
  apply (key_with_error_is_handle_update (H:=StubbornMD_RootMetadata)
           stubbornWorld false s run.2 run.1 77%N
           (ErrorString "handle conflict"));
    [apply surjective_pairing|by rewrite Hr|by rewrite Hr].
Defined.

(** * Properties of the block operations *)

Section ReadyFacts.
Context {MD : Type} `{KeyMetadata MD} {Block EncryptedBlock : Type}.
Variable w : World MD.
Variable bw : BlockWorld Block EncryptedBlock.

Lemma Ready_state kmd block s :
  (Ready w bw kmd block s).2 = (GetTLFCryptKeyForEncryption w kmd s).2.
Proof.
  unfold Ready, readyBody.
  destruct (GetTLFCryptKeyForEncryption w kmd s) as [[e|k] s']; [done|].
  destruct (MakeRandomBlockCryptKeyServerHalf bw); [done|].
  cbv zeta. destruct (EncryptBlock bw block _) as [[ps enc] [e|]]; [done|].
  destruct (Encode bw enc); [done|].
  destruct (_ <? _); [done|].
  destruct (MakePermanentID bw _) as [id [e|]]; done.
Qed.

(** The body sets the block's encoded size on its last line only. *)
Lemma readyBody_error kmd block s r block' s' :
  readyBody w bw kmd block s = (r, block', s') →
  ready_err r ≠ None → block' = block.
Proof.
  unfold readyBody. intros Hb He.
  destruct (GetTLFCryptKeyForEncryption w kmd s) as [[e|k] s0];
    [by injection Hb as <- <- <-|].
  destruct (MakeRandomBlockCryptKeyServerHalf bw);
    [by injection Hb as <- <- <-|].
  cbv zeta in Hb. destruct (EncryptBlock bw block _) as [[ps enc] [e|]];
    [by injection Hb as <- <- <-|].
  destruct (Encode bw enc); [by injection Hb as <- <- <-|].
  destruct (_ <? _); [by injection Hb as <- <- <-|].
  destruct (MakePermanentID bw _) as [id [e|]];
    injection Hb as <- <- <-; [done|]. by destruct He.
Qed.

(** X16: when [Ready] returns an error, its deferred function has reset
    the other results to their zero values (empty ID, plain size 0,
    empty [ReadyBlockData]), whatever the body had already stored in
    them, and the block's encoded size has not been set. *)
Theorem ready_error_zeroes (kmd : MD) (block block' : Block) (s s' : KM)
    (r : ReadyResult) (e : blockError) :
  Ready w bw kmd block s = (r, block', s') →
  ready_err r = Some e →
  r = mkReady zeroID 0 zeroReadyBlockData (Some e) ∧ block' = block.
Proof.
  unfold Ready. intros Hrun He.
  destruct (readyBody w bw kmd block s) as [[r0 b0] s0] eqn:Hb.
  injection Hrun as <- <- <-. unfold readyDeferred in He |- *.
  destruct (ready_err r0) as [e0|] eqn:He0.
  - injection He as <-. split; [done|].
    eapply readyBody_error; [exact Hb|]. by rewrite He0.
  - congruence.
Qed.

(** X17: when [Ready] returns without error, the block was encrypted
    under the key unmasked from a fresh server half and the folder key
    that [GetTLFCryptKeyForEncryption] gave, the encoded size is not
    below the plain size, the ID is the permanent ID of the encoded
    block, the result carries the buffer and the server half, and the
    block's encoded size has been set to the encoded size as a
    [uint32]. *)
Theorem ready_success (kmd : MD) (block block' : Block) (s s' : KM)
    (r : ReadyResult) :
  Ready w bw kmd block s = (r, block', s') →
  ready_err r = None →
  ∃ tlfCryptKey encryptedBlock,
    GetTLFCryptKeyForEncryption w kmd s = (inr tlfCryptKey, s') ∧
    MakeRandomBlockCryptKeyServerHalf bw
    = inr (serverHalf (readyBlockData r)) ∧
    EncryptBlock bw block
      (UnmaskBlockCryptKey bw (serverHalf (readyBlockData r)) tlfCryptKey)
    = (ready_plainSize r, encryptedBlock, None) ∧
    Encode bw encryptedBlock = inr (buf (readyBlockData r)) ∧
    ready_plainSize r ≤ GetEncodedSize bw (readyBlockData r) ∧
    MakePermanentID bw (buf (readyBlockData r)) = (ready_id r, None) ∧
    block'
    = SetEncodedSize bw block
        (to_uint32 (GetEncodedSize bw (readyBlockData r))).
Proof.
  unfold Ready, readyBody. intros Hrun He.
  destruct (GetTLFCryptKeyForEncryption w kmd s) as [[e|k] s0];
    [injection Hrun as <- <- <-; discriminate He|].
  destruct (MakeRandomBlockCryptKeyServerHalf bw) as [e|half];
    [injection Hrun as <- <- <-; discriminate He|].
  cbv zeta in Hrun.
  destruct (EncryptBlock bw block _) as [[ps enc] [e|]] eqn:Henc;
    [injection Hrun as <- <- <-; discriminate He|].
  destruct (Encode bw enc) as [e|bytes] eqn:Hcode;
    [injection Hrun as <- <- <-; discriminate He|].
  destruct (_ <? _) eqn:Hsize;
    [injection Hrun as <- <- <-; discriminate He|].
  destruct (MakePermanentID bw bytes) as [id [e|]] eqn:Hid;
    injection Hrun as <- <- <-; [discriminate He|].
  exists k, enc. cbn. apply Z.ltb_ge in Hsize. split_and!; done.
Qed.

(** X18: [Ready] consults the key manager through
    [GetTLFCryptKeyForEncryption] only: the key cache is as before, the
    calls logged are lookups on the current-device path (no listing of
    the user's devices, no any-device decryption), and for a public
    folder nothing is looked up at all. *)
Theorem ready_key_lookup (kmd : MD) (block : Block) (s : KM) :
  let s' := (Ready w bw kmd block s).2 in
  kcache s' = kcache s ∧
  (∃ evs, calls s' = calls s ++ evs ∧
          Forall (fun e => isLookup e ∧ ¬ anyDeviceCall e) evs) ∧
  (IsPublic (TlfID kmd) = true → s' = s).
Proof.
  intros s'. subst s'. rewrite Ready_state.
  unfold GetTLFCryptKeyForEncryption, getTLFCryptKeyUsingCurrentDevice.
  destruct (getTLFCryptKey_no_cache w kmd (LatestKeyGeneration kmd) 0 eq_refl)
    as [_ Hst].
  split_and!.
  - apply Hst.
  - apply (getTLFCryptKey_current w kmd (LatestKeyGeneration kmd) 0 eq_refl s).
  - intros Hpub. unfold getTLFCryptKey. by rewrite Hpub.
Qed.

End ReadyFacts.

Lemma ready_error_zeroes_witness :
  let run := Ready aliceWorld (sampleBlockWorld true) (folderMD false)
               ([1; 2; 3], 0) KM0 in
  run.1.1 = mkReady zeroID 0 zeroReadyBlockData
              (Some (TooLowByteCountError 3 0)) ∧
  run.1.2 = ([1; 2; 3], 0).
Proof.
  intros run.
  apply (ready_error_zeroes aliceWorld (sampleBlockWorld true) (folderMD false)
           ([1; 2; 3], 0) run.1.2 KM0 run.2 run.1.1);
    [|vm_compute; reflexivity].
  by rewrite <- !surjective_pairing.
Defined.

Lemma ready_success_witness :
  let run := Ready aliceWorld (sampleBlockWorld false) (folderMD false)
               ([1; 2; 3], 0) KM0 in
  ready_err run.1.1 = None ∧ run.1.2 = ([1; 2; 3], 4) ∧
  ∃ tlfCryptKey encryptedBlock,
    GetTLFCryptKeyForEncryption aliceWorld (folderMD false) KM0
    = (inr tlfCryptKey, run.2) ∧
    MakeRandomBlockCryptKeyServerHalf (sampleBlockWorld false)
    = inr (serverHalf (readyBlockData run.1.1)) ∧
    EncryptBlock (sampleBlockWorld false) ([1; 2; 3], 0)
      (UnmaskBlockCryptKey (sampleBlockWorld false)
         (serverHalf (readyBlockData run.1.1)) tlfCryptKey)
    = (ready_plainSize run.1.1, encryptedBlock, None) ∧
    Encode (sampleBlockWorld false) encryptedBlock
    = inr (buf (readyBlockData run.1.1)) ∧
    ready_plainSize run.1.1
    ≤ GetEncodedSize (sampleBlockWorld false) (readyBlockData run.1.1) ∧
    MakePermanentID (sampleBlockWorld false) (buf (readyBlockData run.1.1))
    = (ready_id run.1.1, None) ∧
    run.1.2
    = SetEncodedSize (sampleBlockWorld false) ([1; 2; 3], 0)
        (to_uint32 (GetEncodedSize (sampleBlockWorld false)
                      (readyBlockData run.1.1))).
Proof.
  intros run.
  assert (ready_err run.1.1 = None) as He by (vm_compute; reflexivity).
  split; [exact He|]. split; [vm_compute; reflexivity|].
  apply (ready_success aliceWorld (sampleBlockWorld false) (folderMD false)
           ([1; 2; 3], 0) run.1.2 KM0 run.2 run.1.1); [|exact He].
  by rewrite <- !surjective_pairing.
Defined.

(** ** [Delete] and [Archive] *)

Lemma filter_ID_nil (id : kbfsblock_ID) (ptrs : list BlockPointer) :
  id ∉ map ptr_ID ptrs → filter (fun p => ptr_ID p = id) ptrs = [].
Proof.
  induction ptrs as [|p ptrs IH]; [done|]. simpl. intros Hn.
  apply not_elem_of_cons in Hn as [Hne Hn].
  rewrite filter_cons. destruct (decide (ptr_ID p = id)); [congruence|].
  by apply IH.
Qed.

Lemma fold_addContext (ptrs : list BlockPointer) :
  ∀ (contexts : ContextMap) (id : kbfsblock_ID),
    fold_left addContext ptrs contexts !! id
    = if decide (id ∈ map ptr_ID ptrs)
      then Some (default [] (contexts !! id)
                 ++ map ptr_Context (filter (fun p => ptr_ID p = id) ptrs))
      else contexts !! id.
Proof.
  induction ptrs as [|p ptrs IH]; intros contexts id; simpl.
  - destruct (decide (id ∈ [])) as [Hin|]; [|done]. by apply elem_of_nil in Hin.
  - rewrite IH, filter_cons. unfold addContext.
    destruct (decide (ptr_ID p = id)) as [->|Hne].
    + rewrite lookup_insert_eq. simpl.
      destruct (decide (id ∈ id :: map ptr_ID ptrs)) as [_|Hn];
        [|destruct Hn; by left].
      destruct (decide (id ∈ map ptr_ID ptrs)) as [_|Hn].
      * by rewrite <- app_assoc.
      * by rewrite (filter_ID_nil _ _ Hn).
    + rewrite lookup_insert_ne by done.
      destruct (decide (id ∈ map ptr_ID ptrs)) as [Hin|Hn];
        destruct (decide (id ∈ ptr_ID p :: map ptr_ID ptrs)) as [Hin'|Hn'];
        try done.
      * destruct Hn'. by right.
      * apply elem_of_cons in Hin' as [->|Hin']; done.
Qed.

(** X19: the map of contexts that [Delete] and [Archive] hand to the
    block server has an entry exactly for the block IDs that occur among
    the pointers, and the entry of an ID lists the contexts of all the
    pointers with this ID, in the order of the pointers and with
    repetitions kept; both functions return the server's answer as it
    is. *)
Theorem contexts_grouped (bserver : BlockServer) (tlfID : tlf_ID)
    (ptrs : list BlockPointer) :
  (∀ id, makeContexts ptrs !! id
         = if decide (id ∈ map ptr_ID ptrs)
           then Some (map ptr_Context
                        (filter (fun p => ptr_ID p = id) ptrs))
           else None) ∧
  Delete bserver tlfID ptrs
  = RemoveBlockReferences bserver tlfID (makeContexts ptrs) ∧
  Archive bserver tlfID ptrs
  = ArchiveBlockReferences bserver tlfID (makeContexts ptrs).
Proof.
  split; [|done]. intros id. unfold makeContexts.
  rewrite fold_addContext, lookup_empty. done.
Qed.

(** * Properties of the Keybase service's caches *)

Lemma getCachedUserInfo_set (k : Service) (uid uid' : UID) (info : UserInfo) :
  getCachedUserInfo (setCachedUserInfo uid info k) uid'
  = if decide (uid' = uid)
    then if nonEmptyString (ui_Name info) then info else zeroUserInfo
    else getCachedUserInfo k uid'.
Proof.
  unfold getCachedUserInfo, setCachedUserInfo. cbn.
  destruct (decide (uid' = uid)) as [->|Hne];
    destruct (nonEmptyString (ui_Name info)).
  - by rewrite lookup_insert_eq.
  - by rewrite lookup_delete_eq.
  - by rewrite lookup_insert_ne.
  - by rewrite lookup_delete_ne.
Qed.

(** X20: the user cache answers a lookup after [setCachedUserInfo] with
    the stored info for the same user and as before for every other
    user; an info whose name is empty is not stored but removes the
    user's entry, so the lookup gives the zero [UserInfo] (also when the
    info had other fields set).  [FlushUserFromLocalCache] is this
    removal: it leaves the other users, the unverified keys, the session
    and the log alone. *)
Theorem user_cache_round_trip (k : Service) (uid uid' : UID)
    (info : UserInfo) :
  getCachedUserInfo (setCachedUserInfo uid info k) uid'
  = (if decide (uid' = uid)
     then if nonEmptyString (ui_Name info) then info else zeroUserInfo
     else getCachedUserInfo k uid') ∧
  getCachedUserInfo (FlushUserFromLocalCache uid k) uid'
  = (if decide (uid' = uid) then zeroUserInfo
     else getCachedUserInfo k uid') ∧
  userCacheUnverifiedKeys (FlushUserFromLocalCache uid k)
  = userCacheUnverifiedKeys k ∧
  cachedCurrentSession (FlushUserFromLocalCache uid k)
  = cachedCurrentSession k ∧
  rpcs (FlushUserFromLocalCache uid k) = rpcs k.
Proof.
  split_and!; try done.
  - apply getCachedUserInfo_set.
  - unfold FlushUserFromLocalCache. by rewrite getCachedUserInfo_set.
Qed.

Lemma processUserPlusKeys_rpcs (sw : ServiceWorld) (upk : UserPlusKeys)
    (k : Service) :
  rpcs (processUserPlusKeys sw upk k).2 = rpcs k.
Proof.
  unfold processUserPlusKeys.
  destruct (filterKeys sw (DeviceKeys upk)) as [e|[[vks cpks] names]]; [done|].
  by destruct (filterRevokedKeys sw (RevokedDeviceKeys upk))
    as [e|[[rvks rcpks] rnames]].
Qed.

Lemma processUserPlusKeys_inr (sw : ServiceWorld) (upk : UserPlusKeys)
    (k k' : Service) (info : UserInfo) :
  processUserPlusKeys sw upk k = (inr info, k') →
  k' = setCachedUserInfo (upk_Uid upk) info k ∧
  ui_UID info = upk_Uid upk ∧
  ui_Name info = NewNormalizedUsername sw (upk_Username upk).
Proof.
  unfold processUserPlusKeys.
  destruct (filterKeys sw (DeviceKeys upk)) as [e|[[vks cpks] names]];
    [discriminate|].
  destruct (filterRevokedKeys sw (RevokedDeviceKeys upk))
    as [e|[[rvks rcpks] rnames]]; [discriminate|].
  by intros [= <- <-].
Qed.

Lemma LoadUserPlusKeys_miss (sw : ServiceWorld) (uid : UID) (k : Service) :
  nonEmptyString (ui_Name (getCachedUserInfo k uid)) = false →
  rpcs (LoadUserPlusKeys sw uid k).2 = rpcs k ++ [RpcLoadUserPlusKeys uid].
Proof.
  intros Hmiss. unfold LoadUserPlusKeys. rewrite Hmiss. cbv zeta.
  destruct (client_LoadUserPlusKeys sw uid); [done|].
  by rewrite processUserPlusKeys_rpcs.
Qed.

(** X21: a user info that [LoadUserPlusKeys] has returned with a
    non-empty name is served from the cache afterwards: the next call
    for the same user returns the same info without any RPC, whatever
    the service would answer now.  This needs the service to answer a
    request for [uid] with keys of [uid], because the info is cached
    under the UID of the answer, not under the requested one. *)
Theorem loaded_user_is_cached (sw sw' : ServiceWorld) (uid : UID)
    (k k' : Service) (info : UserInfo) :
  (∀ upk, client_LoadUserPlusKeys sw uid = inr upk → upk_Uid upk = uid) →
  LoadUserPlusKeys sw uid k = (inr info, k') →
  nonEmptyString (ui_Name info) = true →
  LoadUserPlusKeys sw' uid k' = (inr info, k').
Proof.
  intros Huid Hrun Hname. unfold LoadUserPlusKeys in Hrun.
  destruct (nonEmptyString (ui_Name (getCachedUserInfo k uid))) eqn:Hc.
  - injection Hrun as <- <-. unfold LoadUserPlusKeys. by rewrite Hc.
  - cbv zeta in Hrun.
    destruct (client_LoadUserPlusKeys sw uid) as [e|upk] eqn:Hrpc;
      [discriminate Hrun|].
    apply processUserPlusKeys_inr in Hrun as (-> & _).
    rewrite (Huid upk eq_refl).
    unfold LoadUserPlusKeys. rewrite getCachedUserInfo_set.
    destruct (decide (uid = uid)); [|done]. by rewrite !Hname.
Qed.

Lemma loaded_user_is_cached_witness :
  let run := LoadUserPlusKeys sampleService "alice" Service0 in
  rpcs run.2 = [RpcLoadUserPlusKeys "alice"] ∧
  ∃ info, run.1 = inr info ∧ ui_Name info = "alice" ∧
    LoadUserPlusKeys sampleService "alice" run.2 = (inr info, run.2).
Proof.
  intros run. split; [vm_compute; reflexivity|].
  destruct run.1 as [e|info] eqn:Hr; [vm_compute in Hr; discriminate Hr|].
  exists info. split; [done|].
  assert (ui_Name info = "alice") as Hn.
  { assert (inr info = run.1) as Hi by done.
    vm_compute in Hi. by injection Hi as ->. }
  split; [exact Hn|].
  apply (loaded_user_is_cached sampleService sampleService "alice" Service0).
  - intros upk Hupk. vm_compute in Hupk. by injection Hupk as <-.
  - rewrite <- Hr. apply surjective_pairing.
  - by rewrite Hn.
Defined.

(** X22: [FlushUserFromLocalCache] and [KeyfamilyChanged] invalidate:
    after either, [LoadUserPlusKeys] for that user sends the RPC again;
    [KeyfamilyChanged] also drops the user's unverified keys, and asks
    for a rekey check exactly when the user is the one of the cached
    session.  The entries of the other users stay. *)
Theorem invalidation_forces_reload (sw : ServiceWorld) (uid : UID)
    (k : Service) :
  let flushed := FlushUserFromLocalCache uid k in
  let changed := KeyfamilyChanged uid k in
  rpcs (LoadUserPlusKeys sw uid flushed).2
  = rpcs k ++ [RpcLoadUserPlusKeys uid] ∧
  rpcs changed
  = rpcs k ++ (if String.eqb (si_UID (cachedCurrentSession k)) uid
               then [RpcCheckForRekeys] else []) ∧
  rpcs (LoadUserPlusKeys sw uid changed).2
  = rpcs changed ++ [RpcLoadUserPlusKeys uid] ∧
  rpcs (LoadUnverifiedKeys sw uid changed).2
  = rpcs changed ++ [RpcLoadAllPublicKeysUnverified uid] ∧
  ∀ uid', uid' ≠ uid →
    getCachedUserInfo flushed uid' = getCachedUserInfo k uid' ∧
    getCachedUserInfo changed uid' = getCachedUserInfo k uid' ∧
    getCachedUnverifiedKeys changed uid' = getCachedUnverifiedKeys k uid'.
Proof.
  intros flushed changed.
  assert (getCachedUserInfo flushed uid = zeroUserInfo) as Hf.
  { unfold flushed, FlushUserFromLocalCache. rewrite getCachedUserInfo_set.
    by destruct (decide (uid = uid)). }
  assert (getCachedUserInfo changed uid = zeroUserInfo ∧
          getCachedUnverifiedKeys changed uid = None ∧
          rpcs changed
          = rpcs k ++ (if String.eqb (si_UID (cachedCurrentSession k)) uid
                       then [RpcCheckForRekeys] else []) ∧
          ∀ uid', uid' ≠ uid →
            getCachedUserInfo changed uid' = getCachedUserInfo k uid' ∧
            getCachedUnverifiedKeys changed uid'
            = getCachedUnverifiedKeys k uid') as (Hc1 & Hc2 & Hc3 & Hc4).
  { unfold changed, KeyfamilyChanged. cbv zeta.
    unfold getCachedCurrentSession, getCachedUserInfo, getCachedUnverifiedKeys.
    cbn.
    destruct (String.eqb (si_UID (cachedCurrentSession k)) uid); cbn;
      rewrite ?lookup_delete_eq, ?app_nil_r; (split_and!; try done);
      intros uid' Hne; by rewrite !lookup_delete_ne. }
  split_and!.
  - rewrite LoadUserPlusKeys_miss by (by rewrite Hf). done.
  - exact Hc3.
  - apply LoadUserPlusKeys_miss. by rewrite Hc1.
  - unfold LoadUnverifiedKeys. rewrite Hc2. cbv zeta.
    by destruct (client_LoadAllPublicKeysUnverified sw uid).
  - intros uid' Hne. destruct (Hc4 uid' Hne) as [? ?]. split_and!; try done.
    unfold flushed, FlushUserFromLocalCache. rewrite getCachedUserInfo_set.
    by destruct (decide (uid' = uid)).
Qed.

(** X23: unverified keys are cached under the requested user as soon as
    the service has answered, an empty list like any other: the next
    [LoadUnverifiedKeys] returns the same list without an RPC, and
    [FlushUserUnverifiedKeysFromLocalCache] makes the call after it ask
    the service again. *)
Theorem unverified_keys_are_cached (sw sw' : ServiceWorld) (uid : UID)
    (k k' : Service) (keys : list PublicKey) :
  LoadUnverifiedKeys sw uid k = (inr keys, k') →
  LoadUnverifiedKeys sw' uid k' = (inr keys, k') ∧
  rpcs (LoadUnverifiedKeys sw' uid
          (FlushUserUnverifiedKeysFromLocalCache uid k')).2
  = rpcs k' ++ [RpcLoadAllPublicKeysUnverified uid].
Proof.
  intros Hrun.
  assert (getCachedUnverifiedKeys k' uid = Some keys) as Hc.
  { unfold LoadUnverifiedKeys in Hrun.
    destruct (getCachedUnverifiedKeys k uid) as [keys0|] eqn:Hc.
    - by injection Hrun as <- <-.
    - cbv zeta in Hrun.
      destruct (client_LoadAllPublicKeysUnverified sw uid);
        [discriminate Hrun|].
      injection Hrun as <- <-. unfold getCachedUnverifiedKeys. cbn.
      apply lookup_insert_eq. }
  split.
  - unfold LoadUnverifiedKeys. by rewrite Hc.
  - unfold LoadUnverifiedKeys, FlushUserUnverifiedKeysFromLocalCache,
      getCachedUnverifiedKeys. cbn. rewrite lookup_delete_eq. cbv zeta.
    by destruct (client_LoadAllPublicKeysUnverified sw' uid).
Qed.

Lemma unverified_keys_are_cached_witness :
  let run := LoadUnverifiedKeys sampleService "bob" Service0 in
  run.1 = inr [] ∧ rpcs run.2 = [RpcLoadAllPublicKeysUnverified "bob"] ∧
  LoadUnverifiedKeys sampleService "bob" run.2 = (inr [], run.2).
Proof.
  intros run. split; [reflexivity|]. split; [reflexivity|].
  apply (unverified_keys_are_cached sampleService sampleService "bob"
           Service0 run.2 []).
  reflexivity.
Defined.

(** ** Filtering the keys *)

Lemma filterKeysLoop_spec (sw : ServiceWorld) :
  ∀ keys acc kidNames parents,
    match filterKeysLoop sw keys acc kidNames parents with
    | inr (acc', _, _) =>
        acc'.1 = acc.1 ++ omap (verifyingKeyOf sw) keys ∧
        acc'.2 = acc.2 ++ omap (cryptPublicKeyOf sw) keys
    | inl err =>
        ∃ visited publicKey rest,
          keys = visited ++ publicKey :: rest ∧ keyFails sw publicKey err ∧
          ∀ pk e, pk ∈ visited → ¬ keyFails sw pk e
    end.
Proof.
  induction keys as [|pk keys IH]; intros acc kidNames parents; simpl.
  - by rewrite !app_nil_r.
  - unfold processKey, verifyingKeyOf, cryptPublicKeyOf, importedKID.
    destruct (nonEmptyString (PGPFingerprint pk)) eqn:Hpgp.
    { specialize (IH acc kidNames parents).
      destruct (filterKeysLoop sw keys acc kidNames parents)
        as [err|[[acc' ?] ?]].
      - destruct IH as (visited & bad & rest & -> & Hbad & Hok).
        exists (pk :: visited), bad, rest. split_and!; [done|done|].
        intros x e Hx. apply elem_of_cons in Hx as [->|Hx]; [|eauto].
        intros [Hx _]. congruence.
      - by destruct (IsSibkey pk). }
    destruct (ImportKeypairFromKID sw (pk_KID pk)) as [err|key] eqn:Himp.
    { exists [], pk, keys. split_and!; [done| |].
      - split; [done|]. by rewrite Himp.
      - intros x e Hx. by apply elem_of_nil in Hx. }
    cbv zeta.
    assert (∀ e, keyFails sw pk e →
              nonEmptyString (ParentID pk) = true ∧
              KIDFromStringChecked sw (ParentID pk) = inl e) as Hfail.
    { intros e [_ Hp]. by rewrite Himp in Hp. }
    destruct (nonEmptyString (ParentID pk)) eqn:Hpar.
    + destruct (KIDFromStringChecked sw (ParentID pk)) as [err|parent] eqn:Hkid.
      { exists [], pk, keys. split_and!; [done| |].
        - split; [done|]. by rewrite Himp.
        - intros x e Hx. by apply elem_of_nil in Hx. }
      match goal with
      | |- context [filterKeysLoop sw keys ?a ?n ?p] =>
          specialize (IH a n p); destruct (filterKeysLoop sw keys a n p)
            as [err|[[acc' ?] ?]]
      end.
      * destruct IH as (visited & bad & rest & -> & Hbad & Hok).
        exists (pk :: visited), bad, rest. split_and!; [done|done|].
        intros x e Hx. apply elem_of_cons in Hx as [->|Hx]; [|eauto].
        intros Hx. apply Hfail in Hx as [_ Hx]. congruence.
      * destruct IH as [-> ->].
        destruct (IsSibkey pk); cbn; by rewrite <- ?app_assoc.
    + match goal with
      | |- context [filterKeysLoop sw keys ?a ?n ?p] =>
          specialize (IH a n p); destruct (filterKeysLoop sw keys a n p)
            as [err|[[acc' ?] ?]]
      end.
      * destruct IH as (visited & bad & rest & -> & Hbad & Hok).
        exists (pk :: visited), bad, rest. split_and!; [done|done|].
        intros x e Hx. apply elem_of_cons in Hx as [->|Hx]; [|eauto].
        intros Hx. apply Hfail in Hx as [Hx _]. congruence.
      * destruct IH as [-> ->].
        destruct (IsSibkey pk); cbn; by rewrite <- ?app_assoc.
Qed.

(** X24: [filterKeys] skips the PGP keys and splits the others by
    [IsSibkey]: the verifying keys are the imported KIDs of the sibkeys,
    the crypt public keys those of the other keys, both in the order of
    the input.  It fails at the first key that is not a PGP key and
    whose KID cannot be imported or, when the import succeeds, whose
    non-empty parent ID cannot be parsed, with the error of that step;
    no key before it fails. *)
Theorem filter_keys_partition (sw : ServiceWorld) (keys : list PublicKey) :
  match filterKeys sw keys with
  | inr (verifyingKeys, cryptPublicKeys, _) =>
      verifyingKeys = omap (verifyingKeyOf sw) keys ∧
      cryptPublicKeys = omap (cryptPublicKeyOf sw) keys
  | inl err =>
      ∃ visited publicKey rest,
        keys = visited ++ publicKey :: rest ∧ keyFails sw publicKey err ∧
        ∀ pk e, pk ∈ visited → ¬ keyFails sw pk e
  end.
Proof.
  unfold filterKeys.
  pose proof (filterKeysLoop_spec sw keys ([], []) ∅ ∅) as Hspec.
  destruct (filterKeysLoop sw keys ([], []) ∅ ∅)
    as [err|[[[vks cpks] names] parents]]; [exact Hspec|].
  exact Hspec.
Qed.

(** ** Names from parents *)

Lemma nameFromParent_keeps (names : gmap KID string) (entry : KID * KID)
    (kid : KID) (n : string) :
  names !! kid = Some n → nameFromParent names entry !! kid = Some n.
Proof.
  intros Hn. destruct entry as [k parent]. unfold nameFromParent.
  destruct (names !! k) eqn:Hk; [done|].
  destruct (names !! parent); [|done].
  rewrite lookup_insert_ne; [done|]. intros ->. congruence.
Qed.

Lemma updateKIDNamesFromParents_keeps (order : list (KID * KID)) :
  ∀ (names : gmap KID string) kid n,
    names !! kid = Some n →
    updateKIDNamesFromParents order names !! kid = Some n.
Proof.
  unfold updateKIDNamesFromParents.
  induction order as [|entry order IH]; intros names kid n Hn; simpl; [done|].
  by apply IH, nameFromParent_keeps.
Qed.

Lemma updateKIDNamesFromParents_other (order : list (KID * KID)) :
  ∀ (names : gmap KID string) kid,
    kid ∉ order.*1 →
    updateKIDNamesFromParents order names !! kid = names !! kid.
Proof.
  unfold updateKIDNamesFromParents.
  induction order as [|[k parent] order IH]; intros names kid Hn; simpl;
    [done|].
  simpl in Hn. apply not_elem_of_cons in Hn as [Hne Hn].
  rewrite IH by done.
  destruct (names !! k); [done|]. destruct (names !! parent); [|done].
  by rewrite lookup_insert_ne.
Qed.

Lemma updateKIDNamesFromParents_origin (order : list (KID * KID)) :
  ∀ (names : gmap KID string) kid n,
    updateKIDNamesFromParents order names !! kid = Some n →
    names !! kid = Some n ∨
    (names !! kid = None ∧ kid ∈ order.*1 ∧ ∃ k0, names !! k0 = Some n).
Proof.
  unfold updateKIDNamesFromParents.
  induction order as [|[k parent] order IH]; intros names kid n Hn; simpl in *;
    [by left|].
  apply IH in Hn as [Hn|(Hnone & Hin & k0 & Hk0)].
  - destruct (names !! k) eqn:Hk; [by left|].
    destruct (names !! parent) as [pn|] eqn:Hp; [|by left].
    destruct (decide (kid = k)) as [->|Hne].
    + rewrite lookup_insert_eq in Hn. injection Hn as <-.
      right. split_and!; [done|by left|eauto].
    + rewrite lookup_insert_ne in Hn by done. by left.
  - assert (names !! kid = None ∧ ∃ k1, names !! k1 = Some n) as [Hkid Hsrc].
    { destruct (names !! k) eqn:Hk; [eauto|].
      destruct (names !! parent) as [pn|] eqn:Hp; [|eauto].
      destruct (decide (kid = k)) as [->|Hne];
        [by rewrite lookup_insert_eq in Hnone|].
      rewrite lookup_insert_ne in Hnone by done. split; [done|].
      destruct (decide (k0 = k)) as [->|Hne0].
      - rewrite lookup_insert_eq in Hk0. injection Hk0 as <-. eauto.
      - rewrite lookup_insert_ne in Hk0 by done. eauto. }
    right. split_and!; [done|by right|done].
Qed.

(** X25: [updateKIDNamesFromParents], in whatever order Go ranges over
    the parents: a KID that has a name keeps it; a KID without a name
    whose parent has one gets the parent's name; every name in the
    result is one of the names there were, and only KIDs with a parent
    get one.  (When the parent itself gets its name in the same call,
    the order decides whether the child gets it too.) *)
Theorem names_from_parents (order : list (KID * KID))
    (kidNames : gmap KID string) :
  NoDup order.*1 →
  let named := updateKIDNamesFromParents order kidNames in
  (∀ kid n, kidNames !! kid = Some n → named !! kid = Some n) ∧
  (∀ kid parent n,
     (kid, parent) ∈ order → kidNames !! kid = None →
     kidNames !! parent = Some n → named !! kid = Some n) ∧
  (∀ kid n, named !! kid = Some n →
     kidNames !! kid = Some n ∨
     (kidNames !! kid = None ∧ kid ∈ order.*1 ∧
      ∃ k0, kidNames !! k0 = Some n)).
Proof.
  intros Hnd named. subst named. split_and!.
  - intros kid n. apply updateKIDNamesFromParents_keeps.
  - revert kidNames Hnd. unfold updateKIDNamesFromParents.
    induction order as [|[k p] order IH]; intros names Hnd kid parent n Hin
      Hkid Hpar; [by apply elem_of_nil in Hin|].
    simpl in Hnd. apply NoDup_cons in Hnd as [Hk Hnd]. simpl.
    apply elem_of_cons in Hin as [[= <- <-]|Hin].
    + rewrite Hkid, Hpar.
      change (updateKIDNamesFromParents order (<[kid := n]> names) !! kid
              = Some n).
      apply updateKIDNamesFromParents_keeps, lookup_insert_eq.
    + assert (kid ≠ k) as Hne.
      { intros ->. apply Hk. apply list_elem_of_fmap. by exists (k, parent). }
      apply (IH _ Hnd kid parent); [done| |].
      * destruct (names !! k); [done|]. destruct (names !! p); [|done].
        by rewrite lookup_insert_ne.
      * by apply (nameFromParent_keeps names (k, p)).
  - intros kid n. apply updateKIDNamesFromParents_origin.
Qed.

Lemma names_from_parents_witness :
  let order := [("A1", "S1"); ("B1", "S2")] in
  let names : gmap KID string := {[ "S1" := "laptop" ]} in
  updateKIDNamesFromParents order names
  = {[ "S1" := "laptop"; "A1" := "laptop" ]} ∧
  updateKIDNamesFromParents order names !! "A1" = Some "laptop".
Proof.
  intros order names. split; [vm_compute; reflexivity|].
  assert (NoDup order.*1) as Hnd.
  { simpl. apply NoDup_cons. split; [|apply NoDup_singleton].
    intros Hin. apply elem_of_cons in Hin as [Hin|Hin]; [discriminate Hin|].
    by apply elem_of_nil in Hin. }
  destruct (names_from_parents order names Hnd) as (_ & Hchild & _).
  apply (Hchild "A1" "S1"); [by left|reflexivity|reflexivity].
Defined.

(** ** Numbering the keys of all generations *)

Lemma numberCryptKeys_spec (keys : list TLFCryptKey) :
  ∀ i, map ck_Key (numberCryptKeys i keys) = keys ∧
       map KeyGeneration (numberCryptKeys i keys)
       = seqZ (FirstValidKeyGen + i) (Z.of_nat (length keys)).
Proof.
  induction keys as [|key keys IH]; intros i; [done|].
  destruct (IH (i + 1)) as [Hk Hg]. cbn [numberCryptKeys map length].
  rewrite Hk, Hg. split; [done|].
  rewrite (seqZ_cons (FirstValidKeyGen + i)) by lia.
  f_equal. f_equal; lia.
Qed.

(** X26: the numbering of [GetTLFCryptKeys] (the key at index [i] gets
    generation [FirstValidKeyGen + i]), applied to the keys that
    [GetTLFCryptKeyOfAllGenerations] returns for a private folder,
    labels every key with the generation it was resolved for: the
    generations are those from [FirstValidKeyGen] to the latest one, in
    order, and each key is the one the key cache now holds under its
    label. *)
Theorem crypt_keys_numbered {MD} `{KeyMetadata MD} (w : World MD) (kmd : MD)
    (s s' : KM) (keys : list TLFCryptKey) :
  IsPublic (TlfID kmd) = false →
  GetTLFCryptKeyOfAllGenerations w kmd s = ((keys, None), s') →
  map ck_Key (numberCryptKeys 0 keys) = keys ∧
  map KeyGeneration (numberCryptKeys 0 keys)
  = generationsUpTo (LatestKeyGeneration kmd) ∧
  ∀ ck, ck ∈ numberCryptKeys 0 keys →
        kcache s' !! (TlfID kmd, KeyGeneration ck) = Some (ck_Key ck).
Proof.
  intros Hpub Hrun. unfold GetTLFCryptKeyOfAllGenerations in Hrun.
  apply (allGenerationsLoop_cached w kmd Hpub) in Hrun
    as (ks & -> & Hlen & _ & Hget).
  simpl. specialize (Hget (NoDup_seqZ _ _)).
  destruct (numberCryptKeys_spec ks 0) as [Hk Hg].
  assert (map KeyGeneration (numberCryptKeys 0 ks)
          = generationsUpTo (LatestKeyGeneration kmd)) as Hgens.
  { rewrite Hg, Hlen. unfold generationsUpTo. rewrite length_seqZ.
    rewrite Z.add_0_r. unfold seqZ. by rewrite !Nat2Z.id. }
  split_and!; [done|done|].
  intros ck Hin. apply list_elem_of_lookup_1 in Hin as [i Hi].
  apply (Hget i).
  - rewrite <- Hgens, list_lookup_fmap, Hi. done.
  - rewrite <- Hk at 1. rewrite list_lookup_fmap, Hi. done.
Qed.

Lemma crypt_keys_numbered_witness :
  let run := GetTLFCryptKeyOfAllGenerations aliceWorld (folderMD false) KM0 in
  numberCryptKeys 0 run.1.1
  = [ {| KeyGeneration := 1; ck_Key := 12%N |};
      {| KeyGeneration := 2; ck_Key := 12%N |};
      {| KeyGeneration := 3; ck_Key := 12%N |} ] ∧
  map KeyGeneration (numberCryptKeys 0 run.1.1) = [1; 2; 3].
Proof.
  intros run. split; [vm_compute; reflexivity|].
  assert (IsPublic (TlfID (folderMD false)) = false) as Hp by reflexivity.
  destruct (crypt_keys_numbered aliceWorld (folderMD false) KM0 run.2
              run.1.1 Hp) as (_ & Hgens & _).
  - assert (run.1.2 = None) as Hnone by (vm_compute; reflexivity).
    rewrite <- Hnone. by rewrite <- !surjective_pairing.
  - rewrite Hgens. reflexivity.
Defined.
